(** * Wodehouse mic listener: capture, classification, endpointing, clip writing

    A shallow embedding of [src/Wodehouse/mic_listener/listener.py].

    Conventions of the embedding:
    - a block of audio ([bytes] in Python) is a [list byte];
    - an int16 numpy array is a [list Z] of values in [-32768, 32767], with
      numpy's wrap-around written out where the code computes in int16;
    - Python floats (clock readings of [time.time()], the mean of a frame)
      are rationals [Q] and arithmetic on them is exact: a test on clock
      readings is the one the code makes wherever its binary64 operations
      do not round, as on the readings of the fixtures;
    - a Python exception is a value of [exn]; code that can raise returns
      [result];
    - strings are strings of bytes, and [str.lower], [str.isdigit] and
      [int] act on ASCII letters and digits: they are Python's on strings
      of 7-bit characters ([isascii]);
    - what the operating system decides (the clock, whether a file can be
      opened, PortAudio's device check) is an explicit input. *)

From Stdlib Require Import ZArith QArith Qround List String Ascii Bool Lia Lqa.
From Stdlib Require Import Strings.Byte DecimalString.
From Stdlib Require Import Sorted.
From Stdlib Require Import Floats.PrimFloat Floats.SpecFloat Floats.FloatOps.
Import ListNotations.

Local Open Scope Z_scope.

(** ** Exceptions and fallible results *)

Inductive exn : Type :=
| RuntimeError (msg : string)
| ValueError (msg : string)
| OSError (msg : string)
| WaveError (msg : string)          (* wave.Error *)
| StructError (msg : string)        (* struct.error *)
| PortAudioError (msg : string)     (* sounddevice.PortAudioError *)
| VadError (msg : string).          (* raised by webrtcvad *)

Inductive result (A : Type) : Type :=
| Ok (a : A)
| Raise (e : exn).

Arguments Ok {A} a.
Arguments Raise {A} e.

Definition bind {A B : Type} (r : result A) (k : A -> result B) : result B :=
  match r with
  | Ok a => k a
  | Raise e => Raise e
  end.

Notation "x <- r ;; k" := (bind r (fun x => k))
  (at level 61, r at next level, right associativity).

(** ** PCM16 buffers: [np.frombuffer(b, dtype=np.int16)] and [ndarray.tobytes()] *)

Definition bytes := list byte.

Definition Z_of_byte (b : byte) : Z := Z.of_N (Byte.to_N b).

Definition byte_of_Z (z : Z) : byte :=
  match Byte.of_N (Z.to_N (z mod 256)) with
  | Some b => b
  | None => x00
  end.

(** The value of an int16 whose unsigned 16-bit pattern is [u]. *)
Definition wrap16 (z : Z) : Z := (z + 32768) mod 65536 - 32768.

(** Little-endian pair of bytes read as a signed 16-bit sample. *)
Definition int16_of_le (lo hi : byte) : Z :=
  wrap16 (Z_of_byte lo + 256 * Z_of_byte hi).

Fixpoint int16_pairs (b : bytes) : option (list Z) :=
  match b with
  | [] => Some []
  | lo :: hi :: rest =>
      match int16_pairs rest with
      | Some xs => Some (int16_of_le lo hi :: xs)
      | None => None
      end
  | [_] => None
  end.

(** [np.frombuffer(b, dtype=np.int16)]: raises on a buffer of odd length. *)
Definition frombuffer (b : bytes) : result (list Z) :=
  match int16_pairs b with
  | Some xs => Ok xs
  | None => Raise (ValueError "buffer size must be a multiple of element size")
  end.

(** [arr.tobytes()] of an int16 array: two bytes per sample, low byte first. *)
Fixpoint tobytes (arr : list Z) : bytes :=
  match arr with
  | [] => []
  | x :: rest =>
      let u := x mod 65536 in
      byte_of_Z u :: byte_of_Z (u / 256) :: tobytes rest
  end.

Definition int16_range (x : Z) : Prop := -32768 <= x <= 32767.

(** ** Energy classifier (the branch of [build_vad_fn] without WebRTC VAD) *)

Definition THRESH : Q := 300.

(** [np.abs] on an int16 array stays in int16: the result wraps. *)
Definition abs16 (x : Z) : Z := wrap16 (Z.abs x).

Definition sumZ (xs : list Z) : Z := fold_right Z.add 0 xs.

(** [arr.mean()]: the sum is accumulated in float64 (exact here) and divided
    by the size. *)
Definition mean (xs : list Z) : Q :=
  (inject_Z (sumZ xs) / inject_Z (Z.of_nat (List.length xs)))%Q.

Definition Qgt_bool (x y : Q) : bool := negb (Qle_bool x y).

Definition is_speech_chunk_rms (b : bytes) : result bool :=
  arr <- frombuffer b ;;
  if (List.length arr =? 0)%nat then Ok false
  else Ok (Qgt_bool (mean (map abs16 arr)) THRESH).

(** The mean of the absolute values of the samples, as a number: what
    "mean absolute amplitude" denotes. *)
Definition mean_abs (xs : list Z) : Q := mean (map Z.abs xs).

(** Samples to bytes, for building frames. *)
Definition frame_of (xs : list Z) : bytes := tobytes xs.

(** ** ASCII strings: [str.lower], [str.isdigit], [int(str)], [a in b] *)

Local Open Scope string_scope.
Local Open Scope list_scope.
Local Open Scope Z_scope.

Definition lower_ascii (c : ascii) : ascii :=
  let n := nat_of_ascii c in
  if ((65 <=? n) && (n <=? 90))%nat then ascii_of_nat (n + 32) else c.

Fixpoint lower (s : string) : string :=
  match s with
  | EmptyString => EmptyString
  | String c rest => String (lower_ascii c) (lower rest)
  end.

Definition is_digit_ascii (c : ascii) : bool :=
  let n := nat_of_ascii c in ((48 <=? n) && (n <=? 57))%nat.

Fixpoint all_digits (s : string) : bool :=
  match s with
  | EmptyString => true
  | String c rest => is_digit_ascii c && all_digits rest
  end.

(** [s.isdigit()]: false on the empty string. *)
Definition isdigit (s : string) : bool :=
  match s with
  | EmptyString => false
  | _ => all_digits s
  end.

Fixpoint int_digits (acc : Z) (s : string) : Z :=
  match s with
  | EmptyString => acc
  | String c rest => int_digits (10 * acc + (Z.of_nat (nat_of_ascii c) - 48)) rest
  end.

(** [int(s)] for a string of decimal digits. *)
Definition int_of_str (s : string) : Z := int_digits 0 s.

(** [s.isascii()]: every character below 128. On such strings [str.lower],
    [str.isdigit] and [int] are what [lower], [isdigit] and [int_of_str]
    compute. Other characters are outside the model: a superscript two is a
    digit to [str.isdigit] and makes [int] raise ValueError, and the Kelvin
    sign lower-cases to the letter k. *)
Fixpoint isascii (s : string) : bool :=
  match s with
  | EmptyString => true
  | String c rest => (nat_of_ascii c <? 128)%nat && isascii rest
  end.

(** [sys.get_int_max_str_digits()] as shipped: [int] raises ValueError on a
    longer string of digits, where [int_of_str] goes on. *)
Definition int_max_str_digits : nat := 4300.

(** [needle in hay] on strings. *)
Fixpoint contains (needle hay : string) : bool :=
  String.prefix needle hay ||
  match hay with
  | EmptyString => false
  | String _ rest => contains needle rest
  end.

(** ** Devices and [pick_input_device] *)

(** One entry of [sd.query_devices()]. [default_samplerate] is [None] when the
    key is missing from the dictionary. *)
Record Device : Type := {
  name : string;
  max_input_channels : Z;
  default_samplerate : option Q
}.

(** The argument [preferred : str | int | None]. *)
Inductive selector : Type :=
| SelInt (i : Z)
| SelStr (s : string).

Definition str (p : selector) : string :=
  match p with
  | SelStr s => s
  | SelInt _ => ""        (* never rendered: an int takes the numeric branch *)
  end.

(** [isinstance(preferred, int) or (isinstance(preferred, str) and
    preferred.isdigit())] *)
Definition is_index (p : selector) : bool :=
  match p with
  | SelInt _ => true
  | SelStr s => isdigit s
  end.

(** [int(preferred)] *)
Definition int (p : selector) : Z :=
  match p with
  | SelInt i => i
  | SelStr s => int_of_str s
  end.

(** [for i, d in enumerate(devs): if p(d): return i], counting from [i]. *)
Fixpoint first_index (p : Device -> bool) (i : Z) (ds : list Device) : option Z :=
  match ds with
  | [] => None
  | d :: rest => if p d then Some i else first_index p (i + 1) rest
  end.

Definition input_capable (d : Device) : bool := max_input_channels d >? 0.

Definition name_matches (wanted : string) (d : Device) : bool :=
  input_capable d && contains wanted (lower (name d)).

(** [d] can record and its name contains [s], letter case ignored. *)
Definition input_capable_match (s : string) (d : Device) : Prop :=
  0 < max_input_channels d /\
  exists pre post, lower (name d) = (pre ++ lower s ++ post)%string.

Section AudioHost.

(** [sd.query_devices()] and [sd.check_input_settings(device=idx,
    channels=1)], both answered by PortAudio. *)
Variable devs : list Device.
Variable check_input_settings : Z -> result unit.

Definition pick_input_device (preferred : option selector) : result Z :=
  match preferred with
  | Some p =>
      if is_index p then
        let idx := int p in
        _ <- check_input_settings idx ;;
        Ok idx
      else
        let wanted := lower (str p) in
        match first_index (name_matches wanted) 0 devs with
        | Some i => Ok i
        | None =>
            Raise (RuntimeError ("Requested device '" ++ str p
                                 ++ "' not found or not input-capable.")%string)
        end
  | None =>
      match first_index input_capable 0 devs with
      | Some i => Ok i
      | None => Raise (RuntimeError "No input-capable audio device found.")
      end
  end.

End AudioHost.

(** ** Command line and configuration resolution in [main] *)

(** What the user typed: every option is present or absent. *)
Record cmdline : Type := {
  opt_device : option string;
  opt_aggressiveness : option Z;
  opt_silence_ms : option Z;
  opt_samplerate : option Z;
  opt_block_ms : option Z;
  flag_list_devices : bool
}.

(** The namespace returned by [ap.parse_args()]; [args.samplerate a] reads
    as [args.samplerate] does in the source. *)
Module args.
Record t : Type := {
  device : option string;
  aggressiveness : Z;
  silence_ms : Z;
  samplerate : Z;
  block_ms : Z;
  list_devices : bool
}.
End args.

Definition default {A : Type} (d : A) (o : option A) : A :=
  match o with
  | Some a => a
  | None => d
  end.

(** [ap.parse_args()]: defaults fill what is absent; an aggressiveness
    outside [choices] makes argparse exit ([None]). *)
Definition parse_args (c : cmdline) : option args.t :=
  let a := default 2 (opt_aggressiveness c) in
  if (0 <=? a) && (a <=? 3) then
    Some {| args.device := opt_device c;
            args.aggressiveness := a;
            args.silence_ms := default 1500 (opt_silence_ms c);
            args.samplerate := default 16000 (opt_samplerate c);
            args.block_ms := default 30 (opt_block_ms c);
            args.list_devices := flag_list_devices c |}
  else None.

(** [int(x)] of a float: truncation toward zero. *)
Definition int_of_float (x : Q) : Z := Z.quot (Qnum x) (Zpos (Qden x)).

(** Line 115:
    [int(args.samplerate or dev_info.get("default_samplerate", 16000)) or 16000] *)
Definition resolve_samplerate (args_samplerate : Z) (dev_info : Device) : Z :=
  let chosen : Q :=
    if args_samplerate =? 0
    then default (16000 : Q) (default_samplerate dev_info)
    else inject_Z args_samplerate in
  let r := int_of_float chosen in
  if r =? 0 then 16000 else r.

(** [int(samplerate * block_ms / 1000)]: the quotient taken exactly, where
    line 117 rounds it to binary64 before truncating. The two agree while
    the product stays below 2^53 in absolute value. *)
Definition block_size_of (samplerate block_ms : Z) : Z :=
  int_of_float (inject_Z (samplerate * block_ms) / 1000)%Q.

(** How far [main] gets before the capture loop. *)
Inductive startup : Type :=
| ArgparseExit                       (* argparse rejected the command line *)
| ListedDevices                      (* --list-devices: print and return *)
| DeviceErrorExit (e : exn)          (* "Audio device error", sys.exit(1) *)
| QueryFailed                        (* sd.query_devices(device) raised *)
| Capturing (device : Z) (samplerate : Z) (block_size : Z) (a : args.t).

Definition main_startup (devs : list Device)
    (check_input_settings : Z -> result unit) (c : cmdline) : startup :=
  match parse_args c with
  | None => ArgparseExit
  | Some a =>
      if args.list_devices a then ListedDevices
      else
        match pick_input_device devs check_input_settings
                (option_map SelStr (args.device a)) with
        | Raise e => DeviceErrorExit e
        | Ok device =>
            if device <? 0 then QueryFailed
            else
              match nth_error devs (Z.to_nat device) with
              | None => QueryFailed
              | Some dev_info =>
                  let samplerate := resolve_samplerate (args.samplerate a) dev_info in
                  Capturing device samplerate
                            (block_size_of samplerate (args.block_ms a)) a
              end
        end
  end.

(** ** The [wave] module, as far as [write_wav] drives it

    [Wave_write] of Python's standard library: the setters validate and
    store; [writeframes] emits the 44-byte RIFF/WAVE header with
    [struct.pack('<L4s4sLHHLLHH4s', ...)] followed by the data, and patches
    the two length fields to the number of bytes written. *)

Fixpoint le_bytes (n : nat) (v : Z) : bytes :=
  match n with
  | O => []
  | S k => byte_of_Z v :: le_bytes k (v / 256)
  end.

(** [struct.pack('<L', v)] and [struct.pack('<H', v)] *)
Definition pack_L (v : Z) : result bytes :=
  if (0 <=? v) && (v <? 2 ^ 32) then Ok (le_bytes 4 v)
  else Raise (StructError "argument out of range").

Definition pack_H (v : Z) : result bytes :=
  if (0 <=? v) && (v <? 2 ^ 16) then Ok (le_bytes 2 v)
  else Raise (StructError "ushort format requires 0 <= number <= 65535").

Definition tag (s : string) : bytes := list_byte_of_string s.

Record Wave_write : Type := {
  _nchannels : Z;
  _sampwidth : Z;
  _framerate : Z;
  _file : bytes
}.

Definition wave_open_wb : Wave_write :=
  {| _nchannels := 0; _sampwidth := 0; _framerate := 0; _file := [] |}.

Definition setnchannels (wf : Wave_write) (n : Z) : result Wave_write :=
  if n <? 1 then Raise (WaveError "bad # of channels")
  else Ok {| _nchannels := n; _sampwidth := _sampwidth wf;
             _framerate := _framerate wf; _file := _file wf |}.

Definition setsampwidth (wf : Wave_write) (n : Z) : result Wave_write :=
  if (n <? 1) || (4 <? n) then Raise (WaveError "bad sample width")
  else Ok {| _nchannels := _nchannels wf; _sampwidth := n;
             _framerate := _framerate wf; _file := _file wf |}.

Definition setframerate (wf : Wave_write) (r : Z) : result Wave_write :=
  if r <=? 0 then Raise (WaveError "bad frame rate")
  else Ok {| _nchannels := _nchannels wf; _sampwidth := _sampwidth wf;
             _framerate := r; _file := _file wf |}.

Definition wave_header (wf : Wave_write) (datalength : Z) : result bytes :=
  riff_len <- pack_L (36 + datalength) ;;
  fmt_len <- pack_L 16 ;;
  format <- pack_H 1 ;;                                  (* WAVE_FORMAT_PCM *)
  channels <- pack_H (_nchannels wf) ;;
  rate <- pack_L (_framerate wf) ;;
  byte_rate <- pack_L (_nchannels wf * _framerate wf * _sampwidth wf) ;;
  block_align <- pack_H (_nchannels wf * _sampwidth wf) ;;
  bits <- pack_H (_sampwidth wf * 8) ;;
  data_len <- pack_L datalength ;;
  Ok (tag "RIFF" ++ riff_len ++ tag "WAVE" ++ tag "fmt " ++ fmt_len
      ++ format ++ channels ++ rate ++ byte_rate ++ block_align ++ bits
      ++ tag "data" ++ data_len).

Definition writeframes (wf : Wave_write) (data : bytes) : result Wave_write :=
  if _nchannels wf =? 0 then Raise (WaveError "# channels not specified")
  else if _sampwidth wf =? 0 then Raise (WaveError "sample width not specified")
  else if _framerate wf =? 0 then Raise (WaveError "sampling rate not specified")
  else
    header <- wave_header wf (Z.of_nat (List.length data)) ;;
    Ok {| _nchannels := _nchannels wf; _sampwidth := _sampwidth wf;
          _framerate := _framerate wf; _file := _file wf ++ header ++ data |}.

(** [Wave_write.close()] for a file whose header is not written yet, as
    [__exit__] calls it when an exception leaves the [with] block:
    [_ensure_header_written(0)] checks the three settings and writes the
    header for the [nframes] frames a failed [writeframes] recorded. *)
Definition close (wf : Wave_write) (nframes : Z) : result Wave_write :=
  if _nchannels wf =? 0 then Raise (WaveError "# channels not specified")
  else if _sampwidth wf =? 0 then Raise (WaveError "sample width not specified")
  else if _framerate wf =? 0 then Raise (WaveError "sampling rate not specified")
  else
    header <- wave_header wf (nframes * _nchannels wf * _sampwidth wf) ;;
    Ok {| _nchannels := _nchannels wf; _sampwidth := _sampwidth wf;
          _framerate := _framerate wf; _file := _file wf ++ header |}.

(** An exception [e] leaves [with wave.open(path, "wb") as wf]: [close()]
    runs, and what it raises replaces [e]. *)
Definition leave {A : Type} (wf : Wave_write) (nframes : Z) (e : exn) : result A :=
  match close wf nframes with
  | Raise e' => Raise e'
  | Ok _ => Raise e
  end.

(** ** [write_wav]

    [disk] is what opening [path] for writing does: [None] when it succeeds,
    the error otherwise. The result is the content of the file at [path]
    when [write_wav] returns, or the exception that leaves it; what a failed
    call leaves on disk is not represented. *)
Definition write_wav (disk : option exn) (path : string) (audio : list Z)
    (samplerate : Z) : result bytes :=
  match disk with
  | Some e => Raise e
  | None =>
      let wf := wave_open_wb in
      let data := tobytes audio in
      match setnchannels wf 1 with
      | Raise e => leave wf 0 e
      | Ok wf1 =>
          match setsampwidth wf1 2 with
          | Raise e => leave wf1 0 e
          | Ok wf2 =>
              match setframerate wf2 samplerate with
              | Raise e => leave wf2 0 e
              | Ok wf3 =>
                  match writeframes wf3 data with
                  | Raise e =>
                      leave wf3 (Z.of_nat (List.length data)
                                 / (_nchannels wf3 * _sampwidth wf3)) e
                  | Ok wf4 => Ok (_file wf4)
                  end
              end
          end
      end
  end.

(** Reading a header back: unsigned little-endian fields at fixed offsets. *)
Fixpoint le_value (bs : bytes) : Z :=
  match bs with
  | [] => 0
  | b :: rest => Z_of_byte b + 256 * le_value rest
  end.

Definition field (file : bytes) (offset width : nat) : Z :=
  le_value (firstn width (skipn offset file)).

Definition header_channels (file : bytes) : Z := field file 22 2.
Definition header_framerate (file : bytes) : Z := field file 24 4.
Definition header_bits (file : bytes) : Z := field file 34 2.
Definition header_data_length (file : bytes) : Z := field file 40 4.

(** ** [time.strftime("%Y%m%d_%H%M%S")] and [os.path.join]

    The local time is UTC shifted by [utc_offset] seconds. *)

(** Year, month, day of a day count since 1970-01-01 (proleptic Gregorian). *)
Definition civil_from_days (days : Z) : Z * Z * Z :=
  let z := days + 719468 in
  let era := z / 146097 in
  let doe := z - era * 146097 in
  let yoe := (doe - doe / 1460 + doe / 36524 - doe / 146096) / 365 in
  let doy := doe - (365 * yoe + yoe / 4 - yoe / 100) in
  let mp := (5 * doy + 2) / 153 in
  let d := doy - (153 * mp + 2) / 5 + 1 in
  let m := if mp <? 10 then mp + 3 else mp - 9 in
  let y := yoe + era * 400 + (if m <=? 2 then 1 else 0) in
  (y, m, d).

Definition decimal (n : Z) : string := NilZero.string_of_int (Z.to_int n).

Definition pad2 (n : Z) : string :=
  if n <? 10 then ("0" ++ decimal n)%string else decimal n.

Definition strftime (utc_offset : Z) (now : Q) : string :=
  let secs := Qfloor now + utc_offset in
  let '(y, m, d) := civil_from_days (secs / 86400) in
  let sod := secs mod 86400 in
  (decimal y ++ pad2 m ++ pad2 d ++ "_"
   ++ pad2 (sod / 3600) ++ pad2 (sod mod 3600 / 60) ++ pad2 (sod mod 60))%string.

Definition ends_with_slash (s : string) : bool :=
  match String.length s with
  | O => false
  | S n => match String.get n s with
           | Some c => Ascii.eqb c "/"
           | None => false
           end
  end.

(** [os.path.join(a, b)] for a relative [b]. *)
Definition os_path_join (a b : string) : string :=
  if (String.length a =? 0)%nat then b
  else if ends_with_slash a then (a ++ b)%string
  else (a ++ "/" ++ b)%string.

(** ** [build_vad_fn] *)

Section Classifier.

(** Whether [import webrtcvad] succeeded, and [vad.is_speech(b, samplerate)]
    of a [webrtcvad.Vad(aggressiveness)]. *)
Variable HAVE_VAD : bool.
Variable vad_is_speech : Z -> bytes -> Z -> result bool.

Definition build_vad_fn (samplerate aggressiveness : Z) : bytes -> result bool :=
  if HAVE_VAD then fun b => vad_is_speech aggressiveness b samplerate
  else is_speech_chunk_rms.

End Classifier.

(** ** The capture loop of [main] (lines 139 to 165) *)

(** The local variables of the loop. *)
Record state : Type := {
  buf : list (list Z);
  last_voice_ts : option Q;
  recording : bool
}.

Definition initial : state :=
  {| buf := []; last_voice_ts := None; recording := false |}.

(** One block taken from the queue, with what the surroundings answer while
    it is processed. *)
Record tick : Type := {
  block : bytes;          (* b = q.get() *)
  now_voice : Q;          (* time.time() on line 151 *)
  now_check : Q;          (* time.time() on line 155 *)
  now_stamp : Q;          (* the clock behind time.strftime on line 157 *)
  disk : option exn       (* the error of opening the clip file, if any *)
}.

(** A clip file in [AUDIO_DIR]. *)
Record saved : Type := {
  path : string;
  content : bytes
}.

Inductive effect : Type :=
| Quiet
| Saved (f : saved)
| Raised (e : exn).

(** Truth value of [last_voice_ts]: [None] and [0.0] are false. *)
Definition truthy (ts : option Q) : bool :=
  match ts with
  | Some t => negb (Qeq_bool t 0)
  | None => false
  end.

(** [last_voice_ts and (time.time() - last_voice_ts) * 1000 > args.silence_ms] *)
Definition silence_elapsed (silence_ms : Z) (ts : option Q) (now : Q) : bool :=
  match ts with
  | Some t => truthy ts && Qgt_bool ((now - t) * 1000) (inject_Z silence_ms)
  | None => false
  end.

Section Loop.

Variable is_speech_chunk : bytes -> result bool.
Variable silence_ms : Z.            (* args.silence_ms *)
Variable samplerate : Z.
Variable AUDIO_DIR : string.
Variable utc_offset : Z.

(** Lines 146 to 151. *)
Definition on_speech (st : state) (now : Q) : state :=
  {| buf := if recording st then buf st else [];
     last_voice_ts := Some now;
     recording := true |}.

(** Lines 156 to 158. [utc_offset] is the offset of local time in force
    when line 157 reads the clock; [loop] uses the same for every clip of a
    run. *)
Definition clip_path (now : Q) : string :=
  os_path_join AUDIO_DIR ("clip_" ++ strftime utc_offset now ++ ".wav")%string.

(** One iteration of [while True], after [q.get()] returned: the state
    when the iteration ends or raises, and what it did. *)
Definition step (st : state) (tk : tick) : state * effect :=
  match is_speech_chunk (block tk) with
  | Raise e => (st, Raised e)
  | Ok speech =>
      let st1 := if speech then on_speech st (now_voice tk) else st in
      if recording st1 then
        match frombuffer (block tk) with
        | Raise e => (st1, Raised e)
        | Ok arr =>
            let st2 := {| buf := buf st1 ++ [arr];
                          last_voice_ts := last_voice_ts st1;
                          recording := true |} in
            if silence_elapsed silence_ms (last_voice_ts st2) (now_check tk) then
              let clip := List.concat (buf st2) in
              let path := clip_path (now_stamp tk) in
              match write_wav (disk tk) path clip samplerate with
              | Raise e => (st2, Raised e)
              | Ok file =>
                  ({| buf := [];
                      last_voice_ts := last_voice_ts st2;
                      recording := false |},
                   Saved {| path := path; content := file |})
              end
            else (st2, Quiet)
        end
      else (st1, Quiet)
  end.

(** The variables after lines 146 to 151, and after line 153. *)
Definition heard (speech : bool) (st : state) (tk : tick) : state :=
  if speech then on_speech st (now_voice tk) else st.

Definition appended (st1 : state) (arr : list Z) : state :=
  {| buf := buf st1 ++ [arr];
     last_voice_ts := last_voice_ts st1;
     recording := true |}.

(** What reaches the loop: a block arrives, time passes while [q.get()]
    blocks, or Ctrl+C is pressed while it blocks. *)
Inductive event : Type :=
| Frame (tk : tick)
| Elapse (dt : Q)
| KeyboardInterrupt.

Inductive status : Type :=
| Waiting             (* blocked in q.get() *)
| Bye                 (* KeyboardInterrupt caught, loop left *)
| Died (e : exn).     (* another exception left the loop and main *)

Record run : Type := {
  final : state;        (* the variables when the events end *)
  clips : list saved;   (* files written, oldest first *)
  consumed : nat;       (* blocks taken from the queue *)
  outcome : status
}.

Definition clips_of (eff : effect) : list saved :=
  match eff with
  | Saved f => [f]
  | _ => []
  end.

Fixpoint loop (st : state) (evs : list event) : run :=
  match evs with
  | [] => {| final := st; clips := []; consumed := 0; outcome := Waiting |}
  | Elapse _ :: rest => loop st rest
  | KeyboardInterrupt :: _ =>
      {| final := st; clips := []; consumed := 0; outcome := Bye |}
  | Frame tk :: rest =>
      match step st tk with
      | (st', Raised e) =>
          {| final := st'; clips := []; consumed := 1; outcome := Died e |}
      | (st', eff) =>
          let r := loop st' rest in
          {| final := final r;
             clips := clips_of eff ++ clips r;
             consumed := S (consumed r);
             outcome := outcome r |}
      end
  end.

(** The blocks among [evs], in arrival order. *)
Fixpoint ticks_of (evs : list event) : list tick :=
  match evs with
  | [] => []
  | Frame tk :: rest => tk :: ticks_of rest
  | _ :: rest => ticks_of rest
  end.

(** While recording, [last_voice_ts] is the reading taken on line 151 for a
    block of [seen] that the classifier called speech. *)
Definition voice_stamped_by (seen : list event) (st : state) : Prop :=
  recording st = true ->
  exists tk,
    In (Frame tk) seen /\ is_speech_chunk (block tk) = Ok true /\
    last_voice_ts st = Some (now_voice tk).

End Loop.

(** ** Fixtures *)

Definition speech_block : bytes := frame_of (repeat 400 240).
Definition silent_block : bytes := frame_of (repeat 0 240).

(** A block processed at clock reading [t] (all three readings equal), the
    disk accepting writes. *)
Definition at_time (b : bytes) (t : Q) : tick :=
  {| block := b; now_voice := t; now_check := t; now_stamp := t; disk := None |}.

(** Blocks [bs] processed at the clock readings [ts]. *)
Definition timed (bs : list bytes) (ts : list Q) : list tick :=
  map (fun bt => at_time (fst bt) (snd bt)) (combine bs ts).

(** Milliseconds from the reading taken on line 151 when [voiced] was
    classified speech to the reading of the timeout test on line 155 in the
    iteration of [checked]. *)
Definition gap_ms (voiced checked : tick) : Q :=
  ((now_check checked - now_voice voiced) * 1000)%Q.

(** [t] lies in interval number [k] (from 0) of [block_ms] milliseconds
    after [t0]. *)
Definition in_interval (t0 : Q) (block_ms : Z) (k : nat) (t : Q) : Prop :=
  (t0 + inject_Z (block_ms * Z.of_nat k) / 1000 <= t
   /\ t < t0 + inject_Z (block_ms * Z.of_nat (S k)) / 1000)%Q.

(** "Blocks delivered one per interval of [block_ms] milliseconds": the
    clock readings taken while the block number [k] (from 0, counting on
    from [k]) is processed lie in interval number [k] after [t0]. *)
Fixpoint one_per_interval (t0 : Q) (block_ms : Z) (k : nat) (ticks : list tick)
    : Prop :=
  match ticks with
  | [] => True
  | tk :: rest =>
      in_interval t0 block_ms k (now_voice tk) /\
      in_interval t0 block_ms k (now_check tk) /\
      in_interval t0 block_ms k (now_stamp tk) /\
      one_per_interval t0 block_ms (S k) rest
  end.

Definition scenario_blocks : list bytes :=
  [speech_block; speech_block] ++ repeat silent_block 9.

(** A host with five devices; the first two cannot record. *)
Definition usb_host : list Device :=
  [ {| name := "HDA Intel PCH: ALC3246 Analog"; max_input_channels := 0; default_samplerate := Some 48000%Q |};
    {| name := "usb audio out"; max_input_channels := 0; default_samplerate := Some 48000%Q |};
    {| name := "Webcam C270"; max_input_channels := 1; default_samplerate := Some 48000%Q |};
    {| name := "USB Microphone"; max_input_channels := 2; default_samplerate := Some 44100%Q |};
    {| name := "Second usb mic"; max_input_channels := 1; default_samplerate := Some 16000%Q |} ].

(** A PortAudio that accepts exactly the input-capable indices of [devs]. *)
Definition check_against (devs : list Device) (idx : Z) : result unit :=
  if idx <? 0 then Raise (PortAudioError "Invalid device")
  else match nth_error devs (Z.to_nat idx) with
       | Some d => if input_capable d then Ok tt
                   else Raise (PortAudioError "Invalid number of channels")
       | None => Raise (PortAudioError "Invalid device")
       end.

(** The frame of 480 samples (16 kHz, 30 ms) on which the energy classifier
    and the mean absolute amplitude part ways. *)
Definition clipped_frame : list Z := [-32768; 536] ++ repeat 332 478.

Definition unset : cmdline :=
  {| opt_device := None; opt_aggressiveness := None; opt_silence_ms := None;
     opt_samplerate := None; opt_block_ms := None; flag_list_devices := false |}.

Definition with_device (d : string) (c : cmdline) : cmdline :=
  {| opt_device := Some d; opt_aggressiveness := opt_aggressiveness c;
     opt_silence_ms := opt_silence_ms c; opt_samplerate := opt_samplerate c;
     opt_block_ms := opt_block_ms c; flag_list_devices := flag_list_devices c |}.

Definition with_samplerate (r : Z) (c : cmdline) : cmdline :=
  {| opt_device := opt_device c; opt_aggressiveness := opt_aggressiveness c;
     opt_silence_ms := opt_silence_ms c; opt_samplerate := Some r;
     opt_block_ms := opt_block_ms c; flag_list_devices := flag_list_devices c |}.

Definition idle_after (ts : option Q) : state :=
  {| buf := []; last_voice_ts := ts; recording := false |}.

(** The loop of the scenario: energy classifier, [silence_ms = 150], 8 kHz. *)
Definition scenario_loop : state -> list (event) -> run :=
  loop is_speech_chunk_rms 150 8000 "/mnt/wodehouse_data/shared/audio" 0.

(** Eleven readings, one in each interval of 30 ms after 1700000000: block
    [k] (from 1) is processed 15k/512 s after it, 29.296875 ms after the
    block before. The readings are binary64 numbers, and so are their
    differences and the products of these by 1000: line 155 computes on
    them without rounding. *)
Definition slotted_readings : list Q :=
  map (fun k => 1700000000 + (15 * Z.of_nat k # 512))%Q (seq 1 11).

Definition slotted_ticks : list tick := timed scenario_blocks slotted_readings.

Definition slotted_events : list event := map Frame slotted_ticks.

(** The binary64 numbers nearest to 1700000000 + 30k/1000 for k from 1 to
    11, which are whole multiples of 2^-22: what a clock read every 30 ms
    returns. Line 155 computes on these without rounding as well. *)
Definition nominal_readings : list Q :=
  map (fun m => 1700000000 + (m # 4194304))%Q
      [125829; 251658; 377487; 503316; 629146; 754975; 880804; 1006633;
       1132462; 1258291; 1384120].

Definition nominal_ticks : list tick := timed scenario_blocks nominal_readings.

Definition nominal_events : list event := map Frame nominal_ticks.

(** The same for a clock read every 30 ms from 1700000000.1 on: the
    binary64 numbers nearest to 1700000000.1 + 30k/1000. *)
Definition shifted_readings : list Q :=
  map (fun m => 1700000000 + (m # 4194304))%Q
      [545260; 671089; 796918; 922747; 1048576; 1174405; 1300234; 1426063;
       1551892; 1677722; 1803551].

Definition shifted_ticks : list tick := timed scenario_blocks shifted_readings.

Definition shifted_events : list event := map Frame shifted_ticks.

(** *** The same readings as binary64 numbers

    Line 155 as binary64 computes it, to compare with [silence_elapsed] on
    the readings above. [silence_ms] is an [int]; Python compares a float
    with an int by value, and 150 is a binary64 number. *)

(** The rational a finite binary64 number is. *)
Definition Q_of_float (f : float) : Q :=
  match Prim2SF f with
  | S754_finite s m e =>
      let n := if s then Z.neg m else Z.pos m in
      if 0 <=? e then inject_Z (n * 2 ^ e) else (n # Z.to_pos (2 ^ (- e)))%Q
  | _ => 0%Q
  end.

Definition silence_elapsed_binary64 (silence_ms : float) (ts : option float)
    (now : float) : bool :=
  match ts with
  | Some t =>
      negb (PrimFloat.eqb t 0%float)
      && PrimFloat.ltb silence_ms (PrimFloat.mul (PrimFloat.sub now t) 1000%float)
  | None => false
  end.

Definition slotted_readings_binary64 : list float :=
  [ 1700000000.029296875;
    1700000000.05859375;
    1700000000.087890625;
    1700000000.1171875;
    1700000000.146484375;
    1700000000.17578125;
    1700000000.205078125;
    1700000000.234375;
    1700000000.263671875;
    1700000000.29296875;
    1700000000.322265625 ]%float.

Definition nominal_readings_binary64 : list float :=
  [ 1700000000.0299999713897705078125;
    1700000000.059999942779541015625;
    1700000000.0899999141693115234375;
    1700000000.11999988555908203125;
    1700000000.150000095367431640625;
    1700000000.1800000667572021484375;
    1700000000.21000003814697265625;
    1700000000.2400000095367431640625;
    1700000000.269999980926513671875;
    1700000000.2999999523162841796875;
    1700000000.3299999237060546875 ]%float.

Definition shifted_readings_binary64 : list float :=
  [ 1700000000.13000011444091796875;
    1700000000.1600000858306884765625;
    1700000000.190000057220458984375;
    1700000000.2200000286102294921875;
    1700000000.25;
    1700000000.2799999713897705078125;
    1700000000.309999942779541015625;
    1700000000.3399999141693115234375;
    1700000000.36999988555908203125;
    1700000000.400000095367431640625;
    1700000000.4300000667572021484375 ]%float.

(** The binary64 numbers [fs] are the rationals [qs], and on any two of
    them line 155 gives in binary64 what it gives on the rationals. *)
Definition agree (fs : list float) (qs : list Q) : bool :=
  (List.length fs =? List.length qs)%nat
  && forallb (fun p => Qeq_bool (Q_of_float (fst p)) (snd p)) (combine fs qs)
  && forallb (fun v => forallb (fun c =>
        Bool.eqb (silence_elapsed_binary64 150%float (Some v) c)
                 (silence_elapsed 150 (Some (Q_of_float v)) (Q_of_float c))) fs) fs.

(** "Fed the blocks [bs] as [evs], the loop finalizes immediately after
    consuming block [n]: nothing is written before, the clip written then
    holds the first [n] blocks, and what follows is taken in Idle and
    discarded." *)
Definition finalizes_after (run_from : state -> list event -> run)
    (n : nat) (evs : list event) (bs : list bytes) : Prop :=
  clips (run_from initial (firstn (n - 1) evs)) = [] /\
  recording (final (run_from initial (firstn (n - 1) evs))) = true /\
  (exists f,
      clips (run_from initial (firstn n evs)) = [f] /\
      skipn 44 (content f) = List.concat (firstn n bs)) /\
  recording (final (run_from initial (firstn n evs))) = false /\
  clips (run_from initial evs) = clips (run_from initial (firstn n evs)) /\
  recording (final (run_from initial evs)) = false /\
  buf (final (run_from initial evs)) = [] /\
  consumed (run_from initial evs) = List.length evs /\
  outcome (run_from initial evs) = Waiting.

(** "With no samplerate on the command line, capture runs at the default
    sample rate the resolved device reports." *)
Definition falls_back_to_device_default (devs : list Device)
    (check_input_settings : Z -> result unit) (c : cmdline) : Prop :=
  forall device rate block_size a info r,
    opt_samplerate c = None ->
    main_startup devs check_input_settings c = Capturing device rate block_size a ->
    nth_error devs (Z.to_nat device) = Some info ->
    default_samplerate info = Some r ->
    rate = int_of_float r.

(** "Every clip of the run is named after the clock reading taken for the
    block that opened its recording." *)
Definition named_by_capture_start (run_from : state -> list event -> run)
    (dir : string) (utc_offset : Z) (opening : tick) (evs : list event) : Prop :=
  forall f, In f (clips (run_from initial evs)) ->
            path f = clip_path dir utc_offset (now_voice opening).

(** "A clip that cannot be written costs that utterance only: after the
    failing block the loop is idle with an empty buffer, and it goes on to
    consume every later block." *)
Definition resets_and_continues (run_from : state -> list event -> run)
    (before : list event) (failing : tick) (after : list event) : Prop :=
  let r1 := run_from initial (before ++ [Frame failing]) in
  let r := run_from initial (before ++ Frame failing :: after) in
  recording (final r1) = false /\ buf (final r1) = [] /\
  consumed r = List.length (before ++ Frame failing :: after) /\
  (forall e, outcome r <> Died e).

(** The content [write_wav] gives a clip, for fixtures; empty if it raises. *)
Definition wav_of (audio : list Z) (samplerate : Z) : bytes :=
  match write_wav None "" audio samplerate with
  | Ok file => file
  | Raise _ => []
  end.

Definition scenario_arrays : list (list Z) :=
  [repeat 400 240; repeat 400 240] ++ repeat (repeat 0 240) 9.

(** A disk that refuses the clip. *)
Definition refused (tk : tick) : tick :=
  {| block := block tk; now_voice := now_voice tk; now_check := now_check tk;
     now_stamp := now_stamp tk; disk := Some (OSError "Permission denied") |}.

(** Speech, then silence 200 ms later whose clip cannot be written, then two
    more blocks. *)
Definition unwritable_tick : tick :=
  refused (at_time silent_block (1700000000 + (2 # 10))).

Definition unwritable_before : list event :=
  [ Frame (at_time speech_block 1700000000) ].

Definition unwritable_after : list event :=
  [ Frame (at_time speech_block (1700000000 + (4 # 10)));
    Frame (at_time silent_block (1700000000 + (6 # 10))) ].

(** The variables after the speech block of [unwritable_before]. *)
Definition one_block_in : state :=
  {| buf := [repeat 400 240];
     last_voice_ts := Some 1700000000%Q;
     recording := true |}.

(** Speech at 22:13:20 UTC, silence until the timeout of 1500 ms fires two
    seconds later. *)
Definition late_opening : tick := at_time speech_block 1700000000.

Definition late_ticks : list tick :=
  [ late_opening;
    at_time silent_block 1700000001;
    at_time silent_block 1700000002 ].

Definition late_events : list event := map Frame late_ticks.

Definition late_loop : state -> list event -> run :=
  loop is_speech_chunk_rms 1500 16000 "/mnt/wodehouse_data/shared/audio" 0.

Definition late_clip : saved :=
  {| path := "/mnt/wodehouse_data/shared/audio/clip_20231114_221322.wav";
     content := wav_of (repeat 400 240 ++ repeat 0 240 ++ repeat 0 240) 16000 |}.

(** A silent block, then speech a second later, then silence a second
    after that: with [late_loop] the recording is still open. *)
Definition opening_tick : tick := at_time speech_block 1700000001.

Definition idle_events : list event :=
  [ Frame (at_time silent_block 1700000000) ].

Definition opened_events : list event :=
  idle_events ++ [ Frame opening_tick; Frame (at_time silent_block 1700000002) ].

(** ** Further vocabulary for runs *)

(** The elements of [xs] whose flag in [mask] is set, in order. *)
Fixpoint select {A : Type} (mask : list bool) (xs : list A) : list A :=
  match mask, xs with
  | m :: mask', x :: xs' =>
      if m then x :: select mask' xs' else select mask' xs'
  | _, _ => []
  end.

(** The samples of a clip file as written: what follows the 44-byte header. *)
Definition clip_data (f : saved) : bytes := skipn 44 (content f).

(** The bytes still buffered in the loop. *)
Definition buffered (st : state) : bytes := tobytes (List.concat (buf st)).

(** Whether the classifier returned [True] for the block of [tk]. *)
Definition classified_speech (is_speech_chunk : bytes -> result bool)
    (tk : tick) : bool :=
  match is_speech_chunk (block tk) with
  | Ok true => true
  | _ => false
  end.

(** ** The clip watcher of [capture_and_parse.py]

    [main] polls the audio directory every two seconds and hands each new
    [.wav] file to the transcriber, the parser and the logger. The three
    helpers run other programs; they are parameters here, returning what
    they return or what they raise. *)

Module capture_and_parse.

Definition BASE : string := "/mnt/wodehouse_data".
Definition AUDIO_DIR : string := (BASE ++ "/shared/audio")%string.

(** [s.endswith(suffix)] *)
Fixpoint endswith (s suffix : string) : bool :=
  String.eqb s suffix ||
  match s with
  | EmptyString => false
  | String _ rest => endswith rest suffix
  end.

(** [sorted(names)]: ascending by code point. *)
Fixpoint insert (x : string) (l : list string) : list string :=
  match l with
  | [] => [x]
  | y :: rest => if String.leb x y then x :: y :: rest else y :: insert x rest
  end.

Definition sorted (names : list string) : list string :=
  fold_right insert [] names.

(** Characters [str.strip()] removes (ASCII). *)
Definition isspace (c : ascii) : bool :=
  let n := nat_of_ascii c in
  (((9 <=? n) && (n <=? 13)) || ((28 <=? n) && (n <=? 32)))%nat.

Fixpoint all_space (s : string) : bool :=
  match s with
  | EmptyString => true
  | String c rest => isspace c && all_space rest
  end.

(** [not text.strip()] *)
Definition blank (text : string) : bool := all_space text.

(** What a helper can raise: the two classes the loop catches, and the rest. *)
Inductive raised : Type :=
| CalledProcessError (returncode : Z)
| JSONDecodeError (msg : string)
| OtherException (what : string).

(** Whether one of the two [except] clauses of the loop takes the error. *)
Definition handled (e : raised) : bool :=
  match e with
  | OtherException _ => false
  | _ => true
  end.

(** Calls made to the helpers, in order. *)
Inductive call (entry : Type) : Type :=
| Transcribe (full : string)
| Parse (text : string)
| Log (parsed : entry).

Arguments Transcribe {entry} full.
Arguments Parse {entry} text.
Arguments Log {entry} parsed.

(** The result of part of the loop: the [seen] set, the calls made, and the
    exception that left the loop, if one did. *)
Record progress (entry : Type) : Type := {
  seen_after : list string;
  calls : list (call entry);
  crash : option raised
}.

Arguments seen_after {entry} p.
Arguments calls {entry} p.
Arguments crash {entry} p.

Section Watcher.

Variable entry : Type.
Variable transcribe : string -> raised + string.
Variable parse_with_llm : string -> raised + entry.
Variable log_entry : entry -> option raised.

Definition uncaught (e : raised) : option raised :=
  if handled e then None else Some e.

(** Lines 43 to 54: the [try] statement for one new file. *)
Definition process (full : string) : list (call entry) * option raised :=
  match transcribe full with
  | inl e => ([Transcribe full], uncaught e)
  | inr text =>
      if blank text then ([Transcribe full], None)
      else
        match parse_with_llm text with
        | inl e => ([Transcribe full; Parse text], uncaught e)
        | inr parsed =>
            match log_entry parsed with
            | Some e => ([Transcribe full; Parse text; Log parsed], uncaught e)
            | None => ([Transcribe full; Parse text; Log parsed], None)
            end
        end
  end.

(** [full in seen] on the set [seen]. *)
Definition mem (full : string) (seen : list string) : bool :=
  existsb (String.eqb full) seen.

(** Lines 37 to 54: the [for] loop over the names still to visit. *)
Fixpoint scan (seen : list string) (names : list string) : progress entry :=
  match names with
  | [] => {| seen_after := seen; calls := []; crash := None |}
  | fname :: rest =>
      if negb (endswith fname ".wav") then scan seen rest
      else
        let full := os_path_join AUDIO_DIR fname in
        if mem full seen then scan seen rest
        else
          let seen' := full :: seen in
          match process full with
          | (cs, Some e) => {| seen_after := seen'; calls := cs; crash := Some e |}
          | (cs, None) =>
              let p := scan seen' rest in
              {| seen_after := seen_after p; calls := cs ++ calls p;
                 crash := crash p |}
          end
  end.

(** One turn of [while True]: [listing] is what [os.listdir] returns. *)
Definition poll (seen : list string) (listing : list string) : progress entry :=
  scan seen (sorted listing).

(** [main] over the directory listings of successive polls, from the [seen]
    set given. *)
Fixpoint watch (seen : list string) (listings : list (list string))
  : progress entry :=
  match listings with
  | [] => {| seen_after := seen; calls := []; crash := None |}
  | listing :: rest =>
      let p := poll seen listing in
      match crash p with
      | Some e => p
      | None =>
          let q := watch (seen_after p) rest in
          {| seen_after := seen_after q; calls := calls p ++ calls q;
             crash := crash q |}
      end
  end.

(** The paths handed to the transcriber. *)
Fixpoint transcribed (cs : list (call entry)) : list string :=
  match cs with
  | [] => []
  | Transcribe full :: rest => full :: transcribed rest
  | _ :: rest => transcribed rest
  end.

End Watcher.

End capture_and_parse.

(** ** [extract_json_block] of [llm_parser.py]

    [re.search(r'{.*}', text, re.DOTALL)] finds the leftmost opening brace
    that has a closing brace after it, and extends to the last closing
    brace of the text. [json.loads] is a parameter. *)

Module llm_parser.

(** The text from its first opening brace on. *)
Fixpoint from_first_open (s : string) : option string :=
  match s with
  | EmptyString => None
  | String c rest =>
      if Ascii.eqb c "{" then Some s else from_first_open rest
  end.

(** The text up to and including its last closing brace. *)
Fixpoint upto_last_close (s : string) : option string :=
  match s with
  | EmptyString => None
  | String c rest =>
      match upto_last_close rest with
      | Some p => Some (String c p)
      | None => if Ascii.eqb c "}" then Some (String c EmptyString) else None
      end
  end.

(** [match.group()] of the search, when there is a match. *)
Definition search (text : string) : option string :=
  match from_first_open text with
  | Some s => upto_last_close s
  | None => None
  end.

Section Json.

Variable value : Type.
Variable json_loads : string -> result value.

Definition extract_json_block (text : string) : result value :=
  match search text with
  | Some block => json_loads block
  | None => Raise (ValueError "No JSON block found in response")
  end.

End Json.

(** Whether the character [c] occurs in [s]. *)
Fixpoint occurs (c : ascii) (s : string) : bool :=
  match s with
  | EmptyString => false
  | String d rest => Ascii.eqb d c || occurs c rest
  end.

End llm_parser.

(** * Properties *)

(** ** Bytes and samples *)

Lemma Z_of_byte_range (b : byte) : 0 <= Z_of_byte b < 256.
Proof.
  unfold Z_of_byte. pose proof (Byte.to_N_bounded b) as H.
  split; [apply N2Z.is_nonneg | ].
  apply (Z.le_lt_trans _ (Z.of_N 255)); [apply N2Z.inj_le; exact H | reflexivity].
Qed.

Lemma byte_of_Z_of_byte (b : byte) (z : Z) :
  z mod 256 = Z_of_byte b -> byte_of_Z z = b.
Proof.
  intros H. unfold byte_of_Z. rewrite H. unfold Z_of_byte.
  rewrite N2Z.id, Byte.of_to_N. reflexivity.
Qed.

Lemma Z_of_byte_of_Z (z : Z) : Z_of_byte (byte_of_Z z) = z mod 256.
Proof.
  assert (Hr : 0 <= z mod 256 < 256) by (apply Z.mod_pos_bound; lia).
  unfold byte_of_Z, Z_of_byte.
  destruct (Byte.of_N (Z.to_N (z mod 256))) as [b|] eqn:E.
  - apply Byte.to_of_N in E. rewrite E. apply Z2N.id. lia.
  - apply Byte.of_N_None_iff in E. lia.
Qed.

Lemma wrap16_mod (u : Z) : wrap16 u mod 65536 = u mod 65536.
Proof.
  unfold wrap16. rewrite Zminus_mod_idemp_l. f_equal. lia.
Qed.

Lemma wrap16_range (z : Z) : int16_range (wrap16 z).
Proof.
  unfold int16_range, wrap16.
  pose proof (Z.mod_pos_bound (z + 32768) 65536). lia.
Qed.

Lemma wrap16_id (x : Z) : int16_range x -> wrap16 x = x.
Proof.
  unfold int16_range, wrap16. intros H. rewrite Z.mod_small; lia.
Qed.

Lemma le_pair_bytes (lo hi : byte) :
  let u := int16_of_le lo hi mod 65536 in
  byte_of_Z u = lo /\ byte_of_Z (u / 256) = hi.
Proof.
  pose proof (Z_of_byte_range lo) as Hlo. pose proof (Z_of_byte_range hi) as Hhi.
  cbv zeta. unfold int16_of_le. rewrite wrap16_mod.
  rewrite (Z.mod_small (Z_of_byte lo + 256 * Z_of_byte hi)) by lia.
  split; apply byte_of_Z_of_byte.
  - symmetry. apply (Z.mod_unique _ _ (Z_of_byte hi)); lia.
  - assert (E : (Z_of_byte lo + 256 * Z_of_byte hi) / 256 = Z_of_byte hi)
      by (symmetry; apply (Z.div_unique _ _ _ (Z_of_byte lo)); lia).
    rewrite E. apply Z.mod_small; lia.
Qed.

(** Induction over a buffer two bytes at a time. *)
Lemma pairs_ind (P : bytes -> Prop) :
  P [] -> (forall x, P [x]) -> (forall x y r, P r -> P (x :: y :: r)) ->
  forall b, P b.
Proof.
  intros H0 H1 H2.
  assert (H : forall b, P b /\ forall x, P (x :: b)).
  { induction b as [|y r [IH1 IH2]]; split; auto. }
  intros b. apply H.
Qed.

(** The bytes of a decoded block are the block. *)
Lemma tobytes_int16_pairs (b : bytes) (xs : list Z) :
  int16_pairs b = Some xs -> tobytes xs = b.
Proof.
  revert xs. induction b as [| x | lo hi r IH] using pairs_ind; intros xs H.
  - injection H as <-. reflexivity.
  - discriminate.
  - cbn [int16_pairs] in H. destruct (int16_pairs r) as [ys|]; [|discriminate].
    injection H as <-. cbn [tobytes].
    destruct (le_pair_bytes lo hi) as [-> ->]. rewrite (IH ys); reflexivity.
Qed.

Lemma tobytes_frombuffer (b : bytes) (xs : list Z) :
  frombuffer b = Ok xs -> tobytes xs = b.
Proof.
  unfold frombuffer. destruct (int16_pairs b) eqn:E; [|discriminate].
  intros [= <-]. apply tobytes_int16_pairs, E.
Qed.

Lemma frombuffer_range (b : bytes) (xs : list Z) :
  frombuffer b = Ok xs -> Forall int16_range xs.
Proof.
  unfold frombuffer. destruct (int16_pairs b) as [ys|] eqn:E; [|discriminate].
  intros [= <-]. revert ys E.
  induction b as [| x | lo hi r IH] using pairs_ind; intros ys E.
  - injection E as <-. constructor.
  - discriminate.
  - cbn [int16_pairs] in E. destruct (int16_pairs r) as [zs|]; [|discriminate].
    injection E as <-. constructor; [apply wrap16_range | apply IH; reflexivity].
Qed.

Lemma tobytes_app (xs ys : list Z) : tobytes (xs ++ ys) = tobytes xs ++ tobytes ys.
Proof.
  induction xs as [|x xs IH]; [reflexivity|].
  cbn [tobytes app]. rewrite IH. reflexivity.
Qed.

Lemma tobytes_length (xs : list Z) :
  List.length (tobytes xs) = (2 * List.length xs)%nat.
Proof.
  induction xs as [|x xs IH]; [reflexivity|].
  cbn [tobytes List.length]. rewrite IH. lia.
Qed.

(** Decoding a list of blocks and flattening gives back the blocks' bytes. *)
Lemma tobytes_concat (bs : list bytes) (arrs : list (list Z)) :
  Forall2 (fun b arr => frombuffer b = Ok arr) bs arrs ->
  tobytes (List.concat arrs) = List.concat bs.
Proof.
  induction 1 as [| b arr bs arrs Hb _ IH]; [reflexivity|].
  cbn [List.concat]. rewrite tobytes_app, IH, (tobytes_frombuffer _ _ Hb).
  reflexivity.
Qed.

(** ** The WAV header *)

Lemma le_value_le_bytes (n : nat) (v : Z) :
  le_value (le_bytes n v) = v mod 256 ^ Z.of_nat n.
Proof.
  revert v. induction n as [|n IH]; intros v.
  - cbn. symmetry. apply Z.mod_1_r.
  - cbn [le_bytes le_value]. rewrite IH, Z_of_byte_of_Z.
    rewrite Nat2Z.inj_succ, Z.pow_succ_r by lia.
    rewrite Z.rem_mul_r by lia. reflexivity.
Qed.

Lemma pack_L_ok (v : Z) (bs : bytes) :
  pack_L v = Ok bs -> 0 <= v < 2 ^ 32 /\ bs = le_bytes 4 v.
Proof.
  unfold pack_L. destruct ((0 <=? v) && (v <? 2 ^ 32)) eqn:E; [|discriminate].
  intros [= <-]. apply andb_true_iff in E. destruct E as [E1 E2].
  apply Z.leb_le in E1. apply Z.ltb_lt in E2. auto.
Qed.

Lemma pack_L_range (v : Z) : 0 <= v < 2 ^ 32 -> pack_L v = Ok (le_bytes 4 v).
Proof.
  intros [H1 H2]. unfold pack_L.
  apply Z.leb_le in H1. apply Z.ltb_lt in H2. rewrite H1, H2. reflexivity.
Qed.

Lemma pack_H_small (v : Z) : 0 <= v < 2 ^ 16 -> pack_H v = Ok (le_bytes 2 v).
Proof.
  intros [H1 H2]. unfold pack_H.
  apply Z.leb_le in H1. apply Z.ltb_lt in H2. rewrite H1, H2. reflexivity.
Qed.

Lemma writeframes_eq (n s r : Z) (data : bytes) :
  1 <= n -> 1 <= s -> 0 < r ->
  writeframes {| _nchannels := n; _sampwidth := s; _framerate := r; _file := [] |} data =
  header <- wave_header {| _nchannels := n; _sampwidth := s; _framerate := r; _file := [] |}
              (Z.of_nat (List.length data)) ;;
  Ok {| _nchannels := n; _sampwidth := s; _framerate := r; _file := header ++ data |}.
Proof.
  intros Hn Hs Hr. unfold writeframes. cbn [_nchannels _sampwidth _framerate _file app].
  destruct (Z.eqb_spec n 0); [lia|]. destruct (Z.eqb_spec s 0); [lia|].
  destruct (Z.eqb_spec r 0); [lia|]. reflexivity.
Qed.

Lemma write_wav_eq (path : string) (audio : list Z) (samplerate : Z) :
  write_wav None path audio samplerate =
  if samplerate <=? 0 then Raise (WaveError "sampling rate not specified")
  else
    header <- wave_header {| _nchannels := 1; _sampwidth := 2;
                             _framerate := samplerate; _file := [] |}
                (Z.of_nat (List.length (tobytes audio))) ;;
    Ok (header ++ tobytes audio).
Proof.
  unfold write_wav.
  change (setnchannels wave_open_wb 1)
    with (Ok {| _nchannels := 1; _sampwidth := 0; _framerate := 0; _file := [] |}).
  cbv iota beta.
  change (setsampwidth _ 2)
    with (Ok {| _nchannels := 1; _sampwidth := 2; _framerate := 0; _file := [] |}).
  cbv iota beta.
  unfold setframerate. cbn [_nchannels _sampwidth _framerate _file].
  destruct (Z.leb_spec samplerate 0) as [Hle|Hpos]; [reflexivity|].
  rewrite writeframes_eq by lia.
  destruct (wave_header _ _) as [hdr|e] eqn:E; cbn [bind _file]; [reflexivity|].
  unfold leave, close. cbn [_nchannels _sampwidth _framerate _file].
  destruct (Z.eqb_spec samplerate 0); [lia|].
  change (1 =? 0) with false. change (2 =? 0) with false. cbv iota.
  replace (Z.of_nat (List.length (tobytes audio)) / (1 * 2) * 1 * 2)
    with (Z.of_nat (List.length (tobytes audio))).
  - rewrite E. reflexivity.
  - rewrite tobytes_length. change (1 * 2) with 2.
    pose proof (Z.div_mod (2 * Z.of_nat (List.length audio)) 2).
    pose proof (Z.mod_pos_bound (2 * Z.of_nat (List.length audio)) 2).
    lia.
Qed.

(** The 44 bytes in front of the samples of a mono 16-bit file. *)
Lemma wave_header_mono16 (samplerate n : Z) :
  0 <= n -> 36 + n < 2 ^ 32 -> 0 <= samplerate -> 2 * samplerate < 2 ^ 32 ->
  wave_header {| _nchannels := 1; _sampwidth := 2;
                 _framerate := samplerate; _file := [] |} n =
  Ok (tag "RIFF" ++ le_bytes 4 (36 + n) ++ tag "WAVE" ++ tag "fmt "
      ++ le_bytes 4 16 ++ le_bytes 2 1 ++ le_bytes 2 1
      ++ le_bytes 4 samplerate ++ le_bytes 4 (2 * samplerate)
      ++ le_bytes 2 2 ++ le_bytes 2 16 ++ tag "data" ++ le_bytes 4 n).
Proof.
  intros Hn Hlen Hr Hrate.
  unfold wave_header. cbn [_nchannels _sampwidth _framerate].
  replace (1 * samplerate * 2) with (2 * samplerate) by lia.
  change (1 * 2) with 2. change (2 * 8) with 16.
  rewrite (pack_L_range (36 + n)), (pack_L_range 16), (pack_H_small 1),
    (pack_L_range samplerate), (pack_L_range (2 * samplerate)),
    (pack_H_small 2), (pack_H_small 16), (pack_L_range n)
    by (split; [lia | try reflexivity; lia]).
  reflexivity.
Qed.

Lemma wave_header_mono16_inv (samplerate n : Z) (hdr : bytes) :
  wave_header {| _nchannels := 1; _sampwidth := 2;
                 _framerate := samplerate; _file := [] |} n = Ok hdr ->
  0 <= n /\ 36 + n < 2 ^ 32 /\ 0 <= samplerate /\ 2 * samplerate < 2 ^ 32.
Proof.
  unfold wave_header. cbn [_nchannels _sampwidth _framerate]. intros H.
  repeat match type of H with
         | bind ?r _ = Ok _ =>
             let E := fresh "E" in
             destruct r eqn:E; [cbn [bind] in H | discriminate]
         end.
  repeat match goal with
         | E : pack_L _ = Ok _ |- _ => apply pack_L_ok in E; destruct E as [E _]
         end.
  lia.
Qed.

(** The file [write_wav] leaves behind, byte for byte. *)
Lemma write_wav_inv (disk : option exn) (path : string) (audio : list Z)
    (samplerate : Z) (file : bytes) :
  write_wav disk path audio samplerate = Ok file ->
  let n := Z.of_nat (List.length (tobytes audio)) in
  disk = None /\ 0 < samplerate /\ 2 * samplerate < 2 ^ 32 /\ 36 + n < 2 ^ 32 /\
  file = tag "RIFF" ++ le_bytes 4 (36 + n) ++ tag "WAVE" ++ tag "fmt "
         ++ le_bytes 4 16 ++ le_bytes 2 1 ++ le_bytes 2 1
         ++ le_bytes 4 samplerate ++ le_bytes 4 (2 * samplerate)
         ++ le_bytes 2 2 ++ le_bytes 2 16 ++ tag "data" ++ le_bytes 4 n
         ++ tobytes audio.
Proof.
  intros H n. destruct disk as [e|]; [discriminate|].
  rewrite write_wav_eq in H. fold n in H.
  destruct (Z.leb_spec samplerate 0) as [|Hpos]; [discriminate|].
  destruct (wave_header _ n) as [hdr|] eqn:E; [|discriminate].
  cbn [bind] in H. injection H as <-.
  pose proof (wave_header_mono16_inv _ _ _ E) as (Hn & Hlen & _ & Hrate).
  rewrite wave_header_mono16 in E by lia. injection E as <-.
  repeat split; assumption.
Qed.

Lemma write_wav_succeeds (path : string) (audio : list Z) (samplerate : Z) :
  0 < samplerate -> 2 * samplerate < 2 ^ 32 ->
  36 + 2 * Z.of_nat (List.length audio) < 2 ^ 32 ->
  exists file, write_wav None path audio samplerate = Ok file.
Proof.
  intros Hpos Hrate Hlen. rewrite write_wav_eq.
  destruct (Z.leb_spec samplerate 0); [lia|].
  rewrite wave_header_mono16; [eexists; reflexivity | | | | ];
    rewrite ?tobytes_length; lia.
Qed.

(** What a reader finds at offsets 22, 24, 34 and 40 of such a file. *)
Lemma header_fields (samplerate n : Z) (data : bytes) :
  0 <= samplerate < 2 ^ 32 -> 0 <= n < 2 ^ 32 ->
  let file := tag "RIFF" ++ le_bytes 4 (36 + n) ++ tag "WAVE" ++ tag "fmt "
         ++ le_bytes 4 16 ++ le_bytes 2 1 ++ le_bytes 2 1
         ++ le_bytes 4 samplerate ++ le_bytes 4 (2 * samplerate)
         ++ le_bytes 2 2 ++ le_bytes 2 16 ++ tag "data" ++ le_bytes 4 n
         ++ data in
  header_channels file = 1 /\ header_framerate file = samplerate /\
  header_bits file = 16 /\ header_data_length file = n /\
  skipn 44 file = data.
Proof.
  intros Hr Hn file.
  unfold header_channels, header_framerate, header_bits, header_data_length, field.
  assert (E4 : forall v rest, le_bytes 4 v ++ rest =
      byte_of_Z v :: byte_of_Z (v / 256) :: byte_of_Z (v / 256 / 256)
      :: byte_of_Z (v / 256 / 256 / 256) :: rest) by reflexivity.
  assert (E2 : forall v rest, le_bytes 2 v ++ rest =
      byte_of_Z v :: byte_of_Z (v / 256) :: rest) by reflexivity.
  assert (T : forall a b c d rest,
      tag (String a (String b (String c (String d EmptyString)))) ++ rest =
      byte_of_ascii a :: byte_of_ascii b :: byte_of_ascii c :: byte_of_ascii d :: rest)
    by reflexivity.
  subst file. rewrite !E4, !E2, !T.
  cbn [skipn firstn le_value].
  assert (V : forall v, 0 <= v < 2 ^ 32 -> le_value (le_bytes 4 v) = v).
  { intros v Hv. rewrite le_value_le_bytes. apply Z.mod_small.
    change (256 ^ Z.of_nat 4) with (2 ^ 32). exact Hv. }
  cbn [le_bytes le_value] in V.
  split; [vm_compute; reflexivity|].
  split; [apply V; assumption|].
  split; [vm_compute; reflexivity|].
  split; [apply V; assumption | reflexivity].
Qed.

(** ** Clock arithmetic *)

Lemma Qgt_bool_iff (x y : Q) : Qgt_bool x y = true <-> (y < x)%Q.
Proof.
  unfold Qgt_bool. rewrite negb_true_iff. split.
  - intros H. apply Qnot_le_lt. intros Hle.
    apply Qle_bool_iff in Hle. congruence.
  - intros H. destruct (Qle_bool x y) eqn:E; [|reflexivity].
    apply Qle_bool_iff in E. exfalso. apply (Qlt_not_le _ _ H E).
Qed.

Lemma Qgt_bool_false_iff (x y : Q) : Qgt_bool x y = false <-> (x <= y)%Q.
Proof.
  unfold Qgt_bool. rewrite negb_false_iff. apply Qle_bool_iff.
Qed.


(** ** One iteration of the loop *)

Section LoopFacts.

Variable is_speech_chunk : bytes -> result bool.
Variable silence_ms samplerate : Z.
Variable AUDIO_DIR : string.
Variable utc_offset : Z.

Local Abbreviation step_ := (step is_speech_chunk silence_ms samplerate AUDIO_DIR utc_offset).
Local Abbreviation loop_ := (loop is_speech_chunk silence_ms samplerate AUDIO_DIR utc_offset).
Local Abbreviation clip_path_ := (clip_path AUDIO_DIR utc_offset).

Lemma step_cases (st : state) (tk : tick) :
  (exists e, is_speech_chunk (block tk) = Raise e /\ step_ st tk = (st, Raised e))
  \/ (exists speech, is_speech_chunk (block tk) = Ok speech /\
      let st1 := heard speech st tk in
      (recording st1 = false /\ step_ st tk = (st1, Quiet))
      \/ (recording st1 = true /\
          ((exists e, frombuffer (block tk) = Raise e /\ step_ st tk = (st1, Raised e))
           \/ (exists arr, frombuffer (block tk) = Ok arr /\
               let st2 := appended st1 arr in
               (silence_elapsed silence_ms (last_voice_ts st1) (now_check tk) = false
                /\ step_ st tk = (st2, Quiet))
               \/ (silence_elapsed silence_ms (last_voice_ts st1) (now_check tk) = true /\
                   ((exists e,
                        write_wav (disk tk) (clip_path_ (now_stamp tk))
                                  (List.concat (buf st2)) samplerate = Raise e
                        /\ step_ st tk = (st2, Raised e))
                    \/ (exists file,
                           write_wav (disk tk) (clip_path_ (now_stamp tk))
                                     (List.concat (buf st2)) samplerate = Ok file
                           /\ step_ st tk =
                                (idle_after (last_voice_ts st1),
                                 Saved {| path := clip_path_ (now_stamp tk);
                                          content := file |})))))))).
Proof.
  unfold step, heard, appended, idle_after.
  destruct (is_speech_chunk (block tk)) as [speech|e]; [right | left; eauto].
  exists speech. split; [reflexivity|]. cbv zeta.
  destruct (recording (if speech then _ else st)) eqn:Hrec; [right | left; auto].
  split; [reflexivity|].
  destruct (frombuffer (block tk)) as [arr|e]; [right | left; eauto].
  exists arr. split; [reflexivity|]. cbn [last_voice_ts buf].
  destruct (silence_elapsed _ _ _); [right | left; auto].
  split; [reflexivity|].
  destruct (write_wav _ _ _ _) as [file|e]; [right | left]; eauto.
Qed.


Ltac step_split st tk :=
  let H := fresh "Hstep" in
  destruct (step_cases st tk) as
    [ (? & ? & H)
    | (? & ? & [ (? & H)
               | (? & [ (? & ? & H)
                      | (? & ? & [ (? & H)
                                 | (? & [ (? & ? & H) | (? & ? & H) ]) ]) ]) ]) ].

(** An iteration that saves a clip went through every line of the body. *)
Lemma step_saved (st st' : state) (tk : tick) (f : saved) :
  step_ st tk = (st', Saved f) ->
  exists speech arr,
    is_speech_chunk (block tk) = Ok speech /\
    frombuffer (block tk) = Ok arr /\
    recording (heard speech st tk) = true /\
    silence_elapsed silence_ms (last_voice_ts (heard speech st tk)) (now_check tk) = true /\
    write_wav (disk tk) (clip_path_ (now_stamp tk))
              (List.concat (buf (heard speech st tk) ++ [arr])) samplerate
      = Ok (content f) /\
    path f = clip_path_ (now_stamp tk) /\
    st' = idle_after (last_voice_ts (heard speech st tk)).
Proof.
  intros H. step_split st tk; rewrite Hstep in H; try discriminate.
  injection H as <- <-. eexists _, _. repeat split; eassumption.
Qed.

(** An iteration that ends silently either ignored the block or appended it. *)
Lemma step_quiet (st st' : state) (tk : tick) :
  step_ st tk = (st', Quiet) ->
  exists speech,
    is_speech_chunk (block tk) = Ok speech /\
    ((recording (heard speech st tk) = false /\ st' = heard speech st tk)
     \/ (recording (heard speech st tk) = true /\
         exists arr,
           frombuffer (block tk) = Ok arr /\
           silence_elapsed silence_ms (last_voice_ts (heard speech st tk))
                           (now_check tk) = false /\
           st' = appended (heard speech st tk) arr)).
Proof.
  intros H. step_split st tk; rewrite Hstep in H; try discriminate;
    injection H as <-; eexists; (split; [eassumption|]); eauto 7.
Qed.

(** C8: every clip the loop writes, at a capture rate of 8000, 16000 or
    44100 Hz, starts with a header that records one channel, 16 bits per
    sample and the capture rate; and at these rates writing a clip of any
    size the format can hold succeeds when the disk accepts it. *)
Theorem clip_header_matches_capture :
  In samplerate [8000; 16000; 44100] ->
  (forall st tk st' f,
      step_ st tk = (st', Saved f) ->
      header_channels (content f) = 1 /\
      header_bits (content f) = 16 /\
      header_framerate (content f) = samplerate) /\
  (forall path audio,
      36 + 2 * Z.of_nat (List.length audio) < 2 ^ 32 ->
      exists file,
        write_wav None path audio samplerate = Ok file /\
        header_channels file = 1 /\
        header_bits file = 16 /\
        header_framerate file = samplerate).
Proof.
  intros Hrate.
  assert (Hr : 0 < samplerate /\ 2 * samplerate < 2 ^ 32)
    by (cbn [In] in Hrate; lia).
  assert (Hfields : forall disk path audio file,
             write_wav disk path audio samplerate = Ok file ->
             header_channels file = 1 /\ header_bits file = 16 /\
             header_framerate file = samplerate).
  { intros disk path audio file H.
    apply write_wav_inv in H. cbv zeta in H.
    destruct H as (_ & _ & _ & Hlen & ->).
    destruct (header_fields samplerate
                (Z.of_nat (List.length (tobytes audio))) (tobytes audio))
      as (Hc & Hf & Hb & _); [lia | lia | auto]. }
  split.
  - intros st tk st' f H.
    apply step_saved in H. destruct H as (speech & arr & _ & _ & _ & _ & Hw & _).
    eapply Hfields, Hw.
  - intros path audio Hlen.
    destruct (write_wav_succeeds path audio samplerate) as [file Hfile]; try lia.
    exists file. split; [exact Hfile | eapply Hfields, Hfile].
Qed.

(** ** Runs of the loop *)

Lemma loop_frame (st : state) (tk : tick) (rest : list event) :
  loop_ st (Frame tk :: rest) =
  match step_ st tk with
  | (st', Raised e) =>
      {| final := st'; clips := []; consumed := 1; outcome := Died e |}
  | (st', eff) =>
      let r := loop_ st' rest in
      {| final := final r; clips := clips_of eff ++ clips r;
         consumed := S (consumed r); outcome := outcome r |}
  end.
Proof. reflexivity. Qed.

(** After the header come the samples, two bytes each, and the header says
    how many. *)
Lemma write_wav_data (disk : option exn) (p : string) (audio : list Z) (file : bytes) :
  write_wav disk p audio samplerate = Ok file ->
  skipn 44 file = tobytes audio /\
  header_data_length file = 2 * Z.of_nat (List.length audio).
Proof.
  intros H. apply write_wav_inv in H. cbv zeta in H.
  destruct H as (_ & Hpos & Hrate & Hlen & ->).
  destruct (header_fields samplerate
              (Z.of_nat (List.length (tobytes audio))) (tobytes audio))
    as (_ & _ & _ & Hd & Hs); [lia | lia |].
  split; [exact Hs|]. rewrite Hd, tobytes_length. lia.
Qed.

Lemma heard_recording (speech : bool) (st : state) (tk : tick) :
  recording st = true ->
  recording (heard speech st tk) = true /\ buf (heard speech st tk) = buf st.
Proof.
  intros H. unfold heard, on_speech. destruct speech; cbn [recording buf];
    rewrite ?H; auto.
Qed.

Lemma loop_app (st : state) (a b : list event) :
  outcome (loop_ st a) = Waiting ->
  loop_ st (a ++ b) =
  {| final := final (loop_ (final (loop_ st a)) b);
     clips := clips (loop_ st a) ++ clips (loop_ (final (loop_ st a)) b);
     consumed := consumed (loop_ st a) + consumed (loop_ (final (loop_ st a)) b);
     outcome := outcome (loop_ (final (loop_ st a)) b) |}.
Proof.
  revert st. induction a as [|ev a IH]; intros st Hout.
  - cbn [app loop final clips consumed Nat.add]. destruct (loop_ st b); reflexivity.
  - destruct ev as [tk | dt |].
    + cbn [app]. rewrite !loop_frame in *.
      destruct (step_ st tk) as [st' eff].
      destruct eff as [| f | e]; cbn [outcome final clips consumed clips_of] in *;
        try discriminate Hout;
        rewrite (IH st' Hout); cbn [final clips consumed outcome app Nat.add];
        reflexivity.
    + cbn [app loop] in *. apply IH, Hout.
    + cbn in Hout. discriminate Hout.
Qed.

Lemma loop_app_stopped (st : state) (a b : list event) :
  outcome (loop_ st a) <> Waiting -> loop_ st (a ++ b) = loop_ st a.
Proof.
  revert st. induction a as [|ev a IH]; intros st Hout.
  - exfalso. apply Hout. reflexivity.
  - destruct ev as [tk | dt |].
    + cbn [app]. rewrite !loop_frame in *.
      destruct (step_ st tk) as [st' eff].
      destruct eff as [| f | e]; cbn [outcome] in Hout;
        try rewrite (IH st' Hout); reflexivity.
    + cbn [app loop] in *. apply IH, Hout.
    + reflexivity.
Qed.

Lemma ticks_of_app (a b : list event) :
  ticks_of (a ++ b) = ticks_of a ++ ticks_of b.
Proof.
  induction a as [|ev a IH]; [reflexivity|].
  destruct ev; cbn [app ticks_of]; rewrite IH; reflexivity.
Qed.

(** After a run that still waits for blocks, an idle loop has an empty
    buffer; a recording one holds the block that took it out of Idle, which
    was classified speech, and after it every block taken since. *)
Lemma buffer_since_opening (evs : list event) :
  outcome (loop_ initial evs) = Waiting ->
  (recording (final (loop_ initial evs)) = false ->
   buf (final (loop_ initial evs)) = []) /\
  (recording (final (loop_ initial evs)) = true ->
   exists pre opening post arrs,
     evs = pre ++ Frame opening :: post /\
     outcome (loop_ initial pre) = Waiting /\
     recording (final (loop_ initial pre)) = false /\
     is_speech_chunk (block opening) = Ok true /\
     Forall2 (fun tk arr => frombuffer (block tk) = Ok arr)
             (opening :: ticks_of post) arrs /\
     buf (final (loop_ initial evs)) = arrs).
Proof.
  induction evs as [|ev evs IH] using rev_ind; intros Hout.
  - split; [reflexivity | discriminate].
  - destruct (outcome (loop_ initial evs)) eqn:Ho;
      [| rewrite loop_app_stopped in Hout by congruence; congruence
       | rewrite loop_app_stopped in Hout by congruence; congruence].
    destruct (IH eq_refl) as [Hidle Hrec].
    rewrite loop_app in * by exact Ho. cbn [final outcome] in *.
    set (st := final (loop_ initial evs)) in *.
    assert (Hstay : forall more,
               ticks_of more = [] ->
               recording st = true ->
               exists pre opening post arrs,
                 evs ++ more = pre ++ Frame opening :: post /\
                 outcome (loop_ initial pre) = Waiting /\
                 recording (final (loop_ initial pre)) = false /\
                 is_speech_chunk (block opening) = Ok true /\
                 Forall2 (fun tk arr => frombuffer (block tk) = Ok arr)
                         (opening :: ticks_of post) arrs /\
                 buf st = arrs).
    { intros more Hmore Hr.
      destruct (Hrec Hr) as (pre & opening & post & arrs & -> & H1 & H2 & H3 & H4 & H5).
      exists pre, opening, (post ++ more), arrs.
      rewrite <- app_assoc, ticks_of_app, Hmore, app_nil_r. auto 7. }
    destruct ev as [tk | dt |].
    + rewrite loop_frame in *.
      destruct (step_ st tk) as [st' eff] eqn:Hstep.
      destruct eff as [| f | e]; cbn [loop final outcome] in *;
        [| | discriminate Hout].
      * apply step_quiet in Hstep.
        destruct Hstep as (speech & Hsp & [[Hq ->] | (Hq & arr & Harr & _ & ->)]).
        -- split; [| intros Hr'; rewrite Hr' in Hq; discriminate Hq]. intros _.
           unfold heard in *. destruct speech; [discriminate Hq | apply Hidle, Hq].
        -- split; [discriminate|]. intros _.
           destruct (recording st) eqn:Hr.
           ++ destruct (Hrec eq_refl)
                as (pre & opening & post & arrs & -> & H1 & H2 & H3 & H4 & H5).
              exists pre, opening, (post ++ [Frame tk]), (arrs ++ [arr]).
              rewrite <- app_assoc, ticks_of_app. cbn [app ticks_of].
              split; [reflexivity|]. split; [exact H1|]. split; [exact H2|].
              split; [exact H3|]. split.
              ** change (opening :: ticks_of post ++ [tk])
                   with ((opening :: ticks_of post) ++ [tk]).
                 apply Forall2_app; [exact H4 | repeat constructor; exact Harr].
              ** destruct (heard_recording speech st tk Hr) as [_ Hb].
                 cbn [appended buf]. rewrite Hb, H5. reflexivity.
           ++ destruct speech; [| unfold heard in Hq; congruence].
              exists evs, tk, [], [arr]. cbn [ticks_of].
              split; [reflexivity|]. split; [exact Ho|]. split; [exact Hr|].
              split; [exact Hsp|]. split; [repeat constructor; exact Harr|].
              unfold appended, heard, on_speech. cbn [buf]. rewrite Hr. reflexivity.
      * apply step_saved in Hstep.
        destruct Hstep as (speech & arr & _ & _ & _ & _ & _ & _ & ->).
        split; [reflexivity | discriminate].
    + cbn [loop final] in *. split; [exact Hidle|]. apply Hstay. reflexivity.
    + cbn in Hout. discriminate Hout.
Qed.

(** C1: take any run of the loop that is still waiting for blocks. If the
    loop is idle its buffer is empty, and the next block decides: one
    classified non-speech changes nothing and is not buffered; one
    classified speech takes the loop out of Idle with the buffer holding
    that block alone (or, should the timeout fire in the same iteration,
    writes a clip holding that block alone); and in no other way does an
    iteration that starts idle end recording. If the loop is recording, the
    run splits at the block that took it out of Idle: the loop was idle
    before it, it was classified speech, and the buffer is that block
    followed by every block taken since, in arrival order. *)
Theorem idle_left_only_on_speech (evs : list event) (tk : tick) :
  let r := loop_ initial evs in
  outcome r = Waiting ->
  (recording (final r) = false -> buf (final r) = []) /\
  (recording (final r) = true ->
   exists pre opening post arrs,
     evs = pre ++ Frame opening :: post /\
     outcome (loop_ initial pre) = Waiting /\
     recording (final (loop_ initial pre)) = false /\
     is_speech_chunk (block opening) = Ok true /\
     Forall2 (fun tk arr => frombuffer (block tk) = Ok arr)
             (opening :: ticks_of post) arrs /\
     buf (final r) = arrs) /\
  (recording (final r) = false ->
   (is_speech_chunk (block tk) = Ok false ->
    step_ (final r) tk = (final r, Quiet)) /\
   (forall arr,
       is_speech_chunk (block tk) = Ok true ->
       frombuffer (block tk) = Ok arr ->
       silence_elapsed silence_ms (Some (now_voice tk)) (now_check tk) = false ->
       step_ (final r) tk
       = ({| buf := [arr]; last_voice_ts := Some (now_voice tk);
             recording := true |}, Quiet)) /\
   (forall st' eff,
       step_ (final r) tk = (st', eff) -> recording st' = true ->
       is_speech_chunk (block tk) = Ok true) /\
   (forall st',
       step_ (final r) tk = (st', Quiet) -> recording st' = true ->
       exists arr, frombuffer (block tk) = Ok arr /\ buf st' = [arr]) /\
   (forall st' f,
       step_ (final r) tk = (st', Saved f) ->
       is_speech_chunk (block tk) = Ok true /\
       skipn 44 (content f) = block tk)).
Proof.
  intros r Hout.
  destruct (buffer_since_opening evs Hout) as [Hidle Hrec].
  fold r in Hidle, Hrec.
  split; [exact Hidle|]. split; [exact Hrec|].
  intros Hr. pose proof (Hidle Hr) as Hbuf.
  split; [|split; [|split; [|split]]].
  - intros Hsp. unfold step. rewrite Hsp, Hr. reflexivity.
  - intros arr Hsp Harr Hquiet. unfold step. rewrite Hsp.
    cbn [on_speech recording buf last_voice_ts]. rewrite Harr, Hr.
    cbn [app]. rewrite Hquiet. reflexivity.
  - intros st' eff Hstep Hrec'.
    step_split (final r) tk; rewrite Hstep0 in Hstep; injection Hstep as <- <-;
      try congruence;
      match goal with
      | Hc : is_speech_chunk _ = Ok ?x |- _ =>
          destruct x; [exact Hc | unfold heard in *; congruence]
      end.
  - intros st' Hstep Hrec'. apply step_quiet in Hstep.
    destruct Hstep as (speech & Hsp & [[Hq ->] | (Hq & arr & Harr & _ & ->)]);
      [congruence|].
    exists arr. split; [exact Harr|].
    destruct speech; unfold heard in Hq; [|congruence].
    unfold appended, heard, on_speech. cbn [buf]. rewrite Hr. reflexivity.
  - intros st' f H. split.
    + apply step_saved in H.
      destruct H as (speech & arr & Hsp & _ & Hq & _).
      destruct speech; [exact Hsp | unfold heard in Hq; congruence].
    + apply step_saved in H.
      destruct H as (speech & arr & Hsp & Harr & Hq & _ & Hw & _).
      apply write_wav_data in Hw. destruct Hw as [Hw _]. rewrite Hw.
      destruct speech; unfold heard in Hq; [|congruence].
      unfold heard, on_speech. cbn [buf]. rewrite Hr.
      cbn [app List.concat]. rewrite app_nil_r.
      apply tobytes_frombuffer, Harr.
Qed.

(** While recording, blocks that neither finalize nor raise pile up in
    arrival order. *)
Lemma recording_run_appends (pre : list tick) (st : state) :
  recording st = true ->
  clips (loop_ st (map Frame pre)) = [] ->
  outcome (loop_ st (map Frame pre)) = Waiting ->
  exists arrs,
    Forall2 (fun tk arr => frombuffer (block tk) = Ok arr) pre arrs /\
    buf (final (loop_ st (map Frame pre))) = buf st ++ arrs /\
    recording (final (loop_ st (map Frame pre))) = true.
Proof.
  revert st. induction pre as [|tk pre IH]; intros st Hrec Hclips Hout.
  - exists []. cbn. rewrite app_nil_r. auto.
  - cbn [map] in *. rewrite loop_frame in *.
    destruct (step_ st tk) as [st' eff] eqn:Hstep.
    destruct eff as [| f | e]; cbn [clips outcome final clips_of app] in *;
      try discriminate.
    apply step_quiet in Hstep.
    destruct Hstep as (speech & Hsp & [[Hq _] | (Hq & arr & Harr & _ & ->)]).
    + destruct (heard_recording speech st tk Hrec) as [Hq' _]. congruence.
    + destruct (heard_recording speech st tk Hrec) as [_ Hbuf].
      destruct (IH (appended (heard speech st tk) arr)) as (arrs & HF & Hb & Hr);
        [reflexivity | assumption | assumption |].
      exists (arr :: arrs). split; [constructor; assumption|].
      split; [|exact Hr]. rewrite Hb. cbn [appended buf]. rewrite Hbuf.
      rewrite <- app_assoc. reflexivity.
Qed.

(** C3: take an idle loop, a block classified speech, the blocks after it
    up to the first one at which a clip is written. The clip holds all of
    them, in order: as many decoded blocks as were consumed, the samples
    being the bytes of the blocks one after the other, with nothing trimmed
    at the end; the header gives that length, and the loop is idle again
    with an empty buffer. *)
Theorem clip_holds_every_buffered_block (st st' : state) (first : tick)
    (others pre : list tick) (last : tick) (f : saved) :
  recording st = false ->
  pre ++ [last] = first :: others ->
  is_speech_chunk (block first) = Ok true ->
  clips (loop_ st (map Frame pre)) = [] ->
  outcome (loop_ st (map Frame pre)) = Waiting ->
  step_ (final (loop_ st (map Frame pre))) last = (st', Saved f) ->
  exists arrs,
    Forall2 (fun tk arr => frombuffer (block tk) = Ok arr) (first :: others) arrs /\
    List.length arrs = S (List.length others) /\
    skipn 44 (content f) = tobytes (List.concat arrs) /\
    skipn 44 (content f) = List.concat (map block (first :: others)) /\
    header_data_length (content f) = 2 * Z.of_nat (List.length (List.concat arrs)) /\
    recording st' = false /\ buf st' = [].
Proof.
  intros Hidle Hsplit Hfirst Hclips Hout Hlast.
  assert (Hgoal : forall arrs,
             Forall2 (fun tk arr => frombuffer (block tk) = Ok arr) (pre ++ [last]) arrs ->
             write_wav (disk last) (clip_path_ (now_stamp last)) (List.concat arrs)
                       samplerate = Ok (content f) ->
             st' = idle_after (last_voice_ts st') ->
             exists arrs,
               Forall2 (fun tk arr => frombuffer (block tk) = Ok arr) (first :: others) arrs /\
               List.length arrs = S (List.length others) /\
               skipn 44 (content f) = tobytes (List.concat arrs) /\
               skipn 44 (content f) = List.concat (map block (first :: others)) /\
               header_data_length (content f)
                 = 2 * Z.of_nat (List.length (List.concat arrs)) /\
               recording st' = false /\ buf st' = []).
  { intros arrs HF Hw Hst. rewrite Hsplit in HF. exists arrs.
    apply write_wav_data in Hw. destruct Hw as [Hdata Hlen].
    split; [exact HF|].
    split; [rewrite <- (Forall2_length HF); reflexivity|].
    split; [exact Hdata|].
    split.
    - rewrite Hdata. apply tobytes_concat.
      clear - HF. induction HF; constructor; auto.
    - split; [exact Hlen|]. rewrite Hst. auto. }
  apply step_saved in Hlast.
  destruct Hlast as (speech & arr & Hsp & Harr & Hrec & _ & Hw & _ & Hst').
  assert (Hself : st' = idle_after (last_voice_ts st')) by (rewrite Hst'; reflexivity).
  destruct pre as [|tk pre].
  - cbn [app] in Hsplit. injection Hsplit as -> <-.
    cbn [map loop final] in *.
    rewrite Hfirst in Hsp. injection Hsp as <-.
    apply (Hgoal [arr]); [repeat constructor; exact Harr | | exact Hself].
    unfold heard, on_speech in Hw. cbn [buf] in Hw. rewrite Hidle in Hw. exact Hw.
  - cbn [app] in Hsplit. injection Hsplit as -> Hothers.
    cbn [map] in *. rewrite loop_frame in *.
    destruct (step_ st first) as [st1 eff] eqn:Hstep.
    destruct eff as [| g | e]; cbn [clips outcome final clips_of app] in *;
      try discriminate.
    apply step_quiet in Hstep.
    destruct Hstep as (sp1 & Hsp1 & Hcase).
    rewrite Hfirst in Hsp1. injection Hsp1 as <-.
    destruct Hcase as [[Hq _] | (_ & arr1 & Harr1 & _ & ->)];
      [unfold heard in Hq; discriminate|].
    destruct (recording_run_appends pre (appended (heard true st first) arr1))
      as (arrs & HF & Hb & Hr); [reflexivity | assumption | assumption |].
    destruct (heard_recording speech _ last Hr) as [_ Hbuf].
    rewrite Hbuf, Hb in Hw.
    apply (Hgoal ((arr1 :: arrs) ++ [arr])); [| | exact Hself].
    + cbn [app]. constructor; [exact Harr1|].
      apply Forall2_app; [exact HF | repeat constructor; exact Harr].
    + unfold appended, heard, on_speech in Hw. cbn [buf] in Hw.
      rewrite Hidle in Hw. exact Hw.
Qed.

(** C10: time that passes while the loop waits for a block changes nothing,
    however long it is: a recording stays a recording with the same
    buffer and no clip is written. A clip is written only by an iteration
    that took a block, appended it and then found the silence timeout
    exceeded at its own clock reading; a run writes at most one clip per
    block consumed. *)
Theorem finalization_needs_a_block :
  (forall st dts,
      loop_ st (map Elapse dts) =
      {| final := st; clips := []; consumed := 0; outcome := Waiting |}) /\
  (forall st dts rest, loop_ st (map Elapse dts ++ rest) = loop_ st rest) /\
  (forall st tk st' f,
      step_ st tk = (st', Saved f) ->
      exists speech arr,
        is_speech_chunk (block tk) = Ok speech /\
        frombuffer (block tk) = Ok arr /\
        recording (heard speech st tk) = true /\
        silence_elapsed silence_ms (last_voice_ts (heard speech st tk))
                        (now_check tk) = true /\
        skipn 44 (content f)
          = tobytes (List.concat (buf (heard speech st tk))) ++ block tk) /\
  (forall st evs,
      (List.length (clips (loop_ st evs)) <= consumed (loop_ st evs))%nat).
Proof.
  assert (Hskip : forall st dts rest, loop_ st (map Elapse dts ++ rest) = loop_ st rest).
  { intros st dts rest. induction dts as [|dt dts IH]; [reflexivity | exact IH]. }
  split; [|split; [exact Hskip | split]].
  - intros st dts. rewrite <- (app_nil_r (map Elapse dts)), Hskip. reflexivity.
  - intros st tk st' f H. apply step_saved in H.
    destruct H as (speech & arr & Hsp & Harr & Hrec & Hfire & Hw & _).
    exists speech, arr. repeat split; try assumption.
    apply write_wav_data in Hw. destruct Hw as [-> _].
    rewrite concat_app, tobytes_app. cbn [List.concat]. rewrite app_nil_r.
    rewrite (tobytes_frombuffer _ _ Harr). reflexivity.
  - intros st evs. revert st. induction evs as [|ev rest IH]; intros st.
    + cbn. lia.
    + destruct ev as [tk | dt |]; [| apply IH | cbn; lia].
      rewrite loop_frame. destruct (step_ st tk) as [st' eff].
      specialize (IH st').
      destruct eff; cbn [clips consumed clips_of app List.length] in *; lia.
Qed.

(** C4 as the code has it: when the clip cannot be opened for writing, the
    exception leaves the loop. Nothing is saved, the iteration is the last
    one whatever blocks follow, and the variables are left as they were
    before the write: still recording, the buffer still full. *)
Theorem write_failure_ends_the_loop (st : state) (tk : tick)
    (rest : list event) (e : exn) (speech : bool) (arr : list Z) :
  is_speech_chunk (block tk) = Ok speech ->
  frombuffer (block tk) = Ok arr ->
  recording (heard speech st tk) = true ->
  silence_elapsed silence_ms (last_voice_ts (heard speech st tk))
                  (now_check tk) = true ->
  disk tk = Some e ->
  let r := loop_ st (Frame tk :: rest) in
  outcome r = Died e /\ consumed r = 1%nat /\ clips r = [] /\
  final r = appended (heard speech st tk) arr /\
  recording (final r) = true /\ buf (final r) <> [].
Proof.
  intros Hsp Harr Hrec Hfire Hdisk r. subst r.
  rewrite loop_frame. unfold step.
  rewrite Hsp. fold (heard speech st tk). rewrite Hrec, Harr.
  cbn [last_voice_ts buf]. rewrite Hfire, Hdisk. cbn [write_wav].
  cbn [outcome consumed clips final].
  repeat split. cbn [appended buf]. intros H.
  apply app_eq_nil in H. destruct H as [_ H]. discriminate.
Qed.

Lemma silence_elapsed_true (ts : option Q) (now : Q) :
  silence_elapsed silence_ms ts now = true ->
  exists t, ts = Some t /\ ~ (t == 0)%Q /\
            (inject_Z silence_ms < (now - t) * 1000)%Q.
Proof.
  unfold silence_elapsed, truthy. destruct ts as [t|]; [|discriminate].
  intros H. apply andb_true_iff in H. destruct H as [Hnz Hgt].
  exists t. split; [reflexivity|]. split.
  - intros Hz. apply Qeq_bool_iff in Hz. rewrite Hz in Hnz. discriminate.
  - apply Qgt_bool_iff, Hgt.
Qed.

Lemma step_keeps_voice (seen : list event) (st st' : state) (tk : tick)
    (eff : effect) :
  voice_stamped_by is_speech_chunk seen st ->
  step_ st tk = (st', eff) ->
  (forall e, eff <> Raised e) ->
  voice_stamped_by is_speech_chunk (seen ++ [Frame tk]) st'.
Proof.
  intros Hinv Hstep Hok.
  assert (Hheard : forall speech,
             is_speech_chunk (block tk) = Ok speech ->
             recording (heard speech st tk) = true ->
             exists tk0,
               In (Frame tk0) (seen ++ [Frame tk]) /\
               is_speech_chunk (block tk0) = Ok true /\
               last_voice_ts (heard speech st tk) = Some (now_voice tk0)).
  { intros speech Hsp Hrec. destruct speech.
    - exists tk. split; [apply in_or_app; right; left; reflexivity | auto].
    - unfold heard in *. destruct (Hinv Hrec) as (tk0 & Hin & H).
      exists tk0. split; [apply in_or_app; left; exact Hin | exact H]. }
  destruct eff as [| f | e].
  - apply step_quiet in Hstep.
    destruct Hstep as (speech & Hsp & [[Hrec ->] | (Hrec & arr & _ & _ & ->)]).
    + intros Hr. congruence.
    + intros _. apply (Hheard speech Hsp Hrec).
  - apply step_saved in Hstep.
    destruct Hstep as (speech & arr & _ & _ & _ & _ & _ & _ & ->).
    intros Hr. discriminate.
  - exfalso. eapply Hok. reflexivity.
Qed.

(** Every clip of a run is named after the clock reading of the iteration
    that wrote it, and that iteration had found the timeout exceeded since
    the reading of the latest speech block. *)
Lemma clips_named_at_finalization (evs seen : list event) (st : state)
    (f : saved) :
  voice_stamped_by is_speech_chunk seen st ->
  In f (clips (loop_ st evs)) ->
  exists tk0 tk,
    In (Frame tk0) (seen ++ evs) /\ In (Frame tk) evs /\
    is_speech_chunk (block tk0) = Ok true /\
    (inject_Z silence_ms < (now_check tk - now_voice tk0) * 1000)%Q /\
    path f = clip_path_ (now_stamp tk).
Proof.
  revert seen st. induction evs as [|ev rest IH]; intros seen st Hinv Hin.
  - destruct Hin.
  - assert (Hnext : forall st',
               voice_stamped_by is_speech_chunk (seen ++ [ev]) st' ->
               In f (clips (loop_ st' rest)) ->
               exists tk0 tk,
                 In (Frame tk0) (seen ++ ev :: rest) /\ In (Frame tk) (ev :: rest) /\
                 is_speech_chunk (block tk0) = Ok true /\
                 (inject_Z silence_ms < (now_check tk - now_voice tk0) * 1000)%Q /\
                 path f = clip_path_ (now_stamp tk)).
    { intros st' Hinv' Hin'.
      destruct (IH _ _ Hinv' Hin') as (tk0 & tk & H0 & H1 & H).
      exists tk0, tk. rewrite <- app_assoc in H0.
      split; [exact H0 | split; [right; exact H1 | exact H]]. }
    destruct ev as [tk | dt |].
    + rewrite loop_frame in Hin.
      destruct (step_ st tk) as [st' eff] eqn:Hstep.
      assert (Hkeep : (forall e, eff <> Raised e) ->
                      voice_stamped_by is_speech_chunk (seen ++ [Frame tk]) st')
        by (apply step_keeps_voice with (st := st); assumption).
      destruct eff as [| g | e]; cbn [clips clips_of app] in Hin.
      * apply (Hnext st'); [apply Hkeep; discriminate | exact Hin].
      * destruct Hin as [<- | Hin];
          [| apply (Hnext st'); [apply Hkeep; discriminate | exact Hin]].
        apply step_saved in Hstep.
        destruct Hstep as (speech & arr & Hsp & _ & Hrec & Hfire & _ & Hpath & _).
        apply silence_elapsed_true in Hfire. destruct Hfire as (t & Ht & _ & Hgt).
        destruct speech.
        -- cbn [heard on_speech last_voice_ts] in Ht. injection Ht as <-.
           exists tk, tk. repeat split; auto.
           ++ apply in_or_app; right; left; reflexivity.
           ++ left; reflexivity.
        -- unfold heard in *. destruct (Hinv Hrec) as (tk0 & Hin0 & Hs0 & Hv0).
           rewrite Hv0 in Ht. injection Ht as <-.
           exists tk0, tk. repeat split; auto.
           ++ apply in_or_app; left; exact Hin0.
           ++ left; reflexivity.
      * destruct Hin.
    + cbn [loop] in Hin. apply (Hnext st); [| exact Hin].
      intros Hr. destruct (Hinv Hr) as (tk0 & Hin0 & H).
      exists tk0. split; [apply in_or_app; left; exact Hin0 | exact H].
    + destruct Hin.
Qed.

Lemma strftime_floor (t : Q) :
  strftime utc_offset t = strftime utc_offset (inject_Z (Qfloor t)).
Proof. unfold strftime. rewrite Qfloor_Z. reflexivity. Qed.

(** Every clip of a run was written by the iteration of one of its blocks. *)
Lemma clip_written_by (evs : list event) (st : state) (f : saved) :
  In f (clips (loop_ st evs)) ->
  exists pre tk post st',
    evs = pre ++ Frame tk :: post /\
    outcome (loop_ st pre) = Waiting /\
    step_ (final (loop_ st pre)) tk = (st', Saved f).
Proof.
  revert st. induction evs as [|ev rest IH]; intros st Hin; [destruct Hin|].
  destruct ev as [tk0 | dt |].
  - rewrite loop_frame in Hin.
    destruct (step_ st tk0) as [st1 eff] eqn:Hstep.
    assert (Hlater : (forall e, eff <> Raised e) ->
                     In f (clips (loop_ st1 rest)) ->
                     exists pre tk post st',
                       Frame tk0 :: rest = pre ++ Frame tk :: post /\
                       outcome (loop_ st pre) = Waiting /\
                       step_ (final (loop_ st pre)) tk = (st', Saved f)).
    { intros Hok Hin'.
      destruct (IH st1 Hin') as (pre & tk & post & st' & -> & Hout & Hs).
      exists (Frame tk0 :: pre), tk, post, st'.
      split; [reflexivity|]. rewrite loop_frame, Hstep.
      destruct eff as [| g | e]; [| | exfalso; apply (Hok e); reflexivity];
        cbn [outcome final]; auto. }
    destruct eff as [| g | e]; cbn [clips clips_of app] in Hin.
    + apply Hlater; [discriminate | exact Hin].
    + destruct Hin as [<- | Hin]; [| apply Hlater; [discriminate | exact Hin]].
      exists [], tk0, rest, st1. cbn [app loop outcome final]. auto.
    + destruct Hin.
  - cbn [loop] in Hin.
    destruct (IH st Hin) as (pre & tk & post & st' & -> & Hout & Hs).
    exists (Elapse dt :: pre), tk, post, st'. cbn [app loop]. auto.
  - destruct Hin.
Qed.

(** C6 as the code has it: a clip is named [clip_<stamp>.wav] in
    [AUDIO_DIR], the stamp being the local time, cut to the second, that
    [time.strftime] reads in the iteration that writes the clip. That
    iteration is the one of the last block the clip holds. It is so of one
    iteration, [utc_offset] being the offset in force when it runs, and of
    every clip of a run: the clip is written by the iteration of a block
    [tk] of the run and named by the reading [now_stamp tk]. *)
Theorem clip_named_by_finalization_time :
  (forall st tk st' f,
      step_ st tk = (st', Saved f) ->
      path f = os_path_join AUDIO_DIR
                 ("clip_" ++ strftime utc_offset (inject_Z (Qfloor (now_stamp tk)))
                  ++ ".wav")%string /\
      exists earlier, skipn 44 (content f) = earlier ++ block tk) /\
  (forall evs f,
      In f (clips (loop_ initial evs)) ->
      exists pre tk post st',
        evs = pre ++ Frame tk :: post /\
        outcome (loop_ initial pre) = Waiting /\
        step_ (final (loop_ initial pre)) tk = (st', Saved f) /\
        path f = os_path_join AUDIO_DIR
                   ("clip_" ++ strftime utc_offset (inject_Z (Qfloor (now_stamp tk)))
                    ++ ".wav")%string).
Proof.
  assert (Hstep : forall st tk st' f,
             step_ st tk = (st', Saved f) ->
             path f = os_path_join AUDIO_DIR
                        ("clip_" ++ strftime utc_offset
                                      (inject_Z (Qfloor (now_stamp tk)))
                         ++ ".wav")%string /\
             exists earlier, skipn 44 (content f) = earlier ++ block tk).
  { intros st tk st' f H. apply step_saved in H.
    destruct H as (speech & arr & _ & Harr & _ & _ & Hw & Hpath & _).
    split; [rewrite <- strftime_floor; exact Hpath|].
    apply write_wav_data in Hw. destruct Hw as [-> _].
    exists (tobytes (List.concat (buf (heard speech st tk)))).
    rewrite concat_app, tobytes_app. cbn [List.concat]. rewrite app_nil_r.
    rewrite (tobytes_frombuffer _ _ Harr). reflexivity. }
  split; [exact Hstep|].
  intros evs f Hin.
  destruct (clip_written_by evs initial f Hin) as (pre & tk & post & st' & He & Ho & Hs).
  exists pre, tk, post, st'. repeat split; try assumption.
  apply (Hstep _ _ _ _ Hs).
Qed.

End LoopFacts.

(** ** Forward steps of a run *)

Section Scenario.

Variable is_speech_chunk : bytes -> result bool.
Variable silence_ms samplerate : Z.
Variable AUDIO_DIR : string.
Variable utc_offset : Z.

Local Abbreviation step_ := (step is_speech_chunk silence_ms samplerate AUDIO_DIR utc_offset).
Local Abbreviation loop_ := (loop is_speech_chunk silence_ms samplerate AUDIO_DIR utc_offset).

Lemma step_appends (st : state) (tk : tick) (speech : bool) (arr : list Z) :
  is_speech_chunk (block tk) = Ok speech ->
  frombuffer (block tk) = Ok arr ->
  recording (heard speech st tk) = true ->
  silence_elapsed silence_ms (last_voice_ts (heard speech st tk)) (now_check tk)
    = false ->
  step_ st tk = (appended (heard speech st tk) arr, Quiet).
Proof.
  intros Hsp Harr Hrec Hfire. unfold step. rewrite Hsp.
  fold (heard speech st tk). rewrite Hrec, Harr.
  cbn [last_voice_ts]. rewrite Hfire. reflexivity.
Qed.

Lemma step_finalizes (st : state) (tk : tick) (speech : bool) (arr : list Z)
    (file : bytes) :
  is_speech_chunk (block tk) = Ok speech ->
  frombuffer (block tk) = Ok arr ->
  recording (heard speech st tk) = true ->
  silence_elapsed silence_ms (last_voice_ts (heard speech st tk)) (now_check tk)
    = true ->
  write_wav (disk tk) (clip_path AUDIO_DIR utc_offset (now_stamp tk))
            (List.concat (buf (heard speech st tk) ++ [arr])) samplerate = Ok file ->
  step_ st tk =
  (idle_after (last_voice_ts (heard speech st tk)),
   Saved {| path := clip_path AUDIO_DIR utc_offset (now_stamp tk); content := file |}).
Proof.
  intros Hsp Harr Hrec Hfire Hw. unfold step. rewrite Hsp.
  fold (heard speech st tk). rewrite Hrec, Harr.
  cbn [last_voice_ts buf]. rewrite Hfire, Hw. reflexivity.
Qed.

Lemma step_discards (st : state) (tk : tick) :
  is_speech_chunk (block tk) = Ok false ->
  recording st = false ->
  step_ st tk = (st, Quiet).
Proof.
  intros Hsp Hrec. unfold step. rewrite Hsp, Hrec. reflexivity.
Qed.

(** Extending a run that is still waiting by one more block. *)
Lemma loop_snoc (st : state) (evs : list event) (tk : tick) (s s' : state)
    (cs : list saved) (n : nat) (eff : effect) :
  loop_ st evs = {| final := s; clips := cs; consumed := n; outcome := Waiting |} ->
  step_ s tk = (s', eff) ->
  (forall e, eff <> Raised e) ->
  loop_ st (evs ++ [Frame tk]) =
  {| final := s'; clips := cs ++ clips_of eff; consumed := S n; outcome := Waiting |}.
Proof.
  intros Hrun Hstep Hok. revert st cs n Hrun.
  induction evs as [|ev evs IH]; intros st cs n Hrun.
  - cbn [loop] in Hrun. injection Hrun as -> <- <-.
    cbn [app]. rewrite loop_frame, Hstep.
    destruct eff as [| f | e]; [reflexivity | reflexivity |].
    exfalso. apply (Hok e). reflexivity.
  - destruct ev as [t | dt |].
    + cbn [app]. rewrite loop_frame in *.
      destruct (step_ st t) as [st1 eff1].
      destruct (loop_ st1 evs) as [fr cr nr outr] eqn:Er.
      destruct eff1 as [| g | e]; cbn [final clips consumed outcome] in Hrun;
        try discriminate;
        injection Hrun as -> <- <- ->;
        rewrite (IH st1 cr nr Er); cbn [final clips consumed outcome clips_of app];
        rewrite ?app_assoc; reflexivity.
    + cbn [app loop] in *. apply IH, Hrun.
    + cbn [loop] in Hrun. discriminate.
Qed.

Lemma loop_snoc_appends (st : state) (evs : list event) (tk : tick) (s : state)
    (cs : list saved) (n : nat) (speech : bool) (arr : list Z) :
  loop_ st evs = {| final := s; clips := cs; consumed := n; outcome := Waiting |} ->
  is_speech_chunk (block tk) = Ok speech ->
  frombuffer (block tk) = Ok arr ->
  recording (heard speech s tk) = true ->
  silence_elapsed silence_ms (last_voice_ts (heard speech s tk)) (now_check tk)
    = false ->
  loop_ st (evs ++ [Frame tk]) =
  {| final := appended (heard speech s tk) arr; clips := cs;
     consumed := S n; outcome := Waiting |}.
Proof.
  intros Hrun Hsp Harr Hrec Hfire.
  rewrite (loop_snoc _ _ _ _ _ _ _ _ Hrun (step_appends _ _ _ _ Hsp Harr Hrec Hfire))
    by discriminate.
  cbn [clips_of]. rewrite app_nil_r. reflexivity.
Qed.

Lemma loop_snoc_finalizes (st : state) (evs : list event) (tk : tick) (s : state)
    (cs : list saved) (n : nat) (speech : bool) (arr : list Z) (file : bytes) :
  loop_ st evs = {| final := s; clips := cs; consumed := n; outcome := Waiting |} ->
  is_speech_chunk (block tk) = Ok speech ->
  frombuffer (block tk) = Ok arr ->
  recording (heard speech s tk) = true ->
  silence_elapsed silence_ms (last_voice_ts (heard speech s tk)) (now_check tk)
    = true ->
  write_wav (disk tk) (clip_path AUDIO_DIR utc_offset (now_stamp tk))
            (List.concat (buf (heard speech s tk) ++ [arr])) samplerate = Ok file ->
  loop_ st (evs ++ [Frame tk]) =
  {| final := idle_after (last_voice_ts (heard speech s tk));
     clips := cs ++ [ {| path := clip_path AUDIO_DIR utc_offset (now_stamp tk);
                         content := file |} ];
     consumed := S n; outcome := Waiting |}.
Proof.
  intros Hrun Hsp Harr Hrec Hfire Hw.
  rewrite (loop_snoc _ _ _ _ _ _ _ _ Hrun
             (step_finalizes _ _ _ _ _ Hsp Harr Hrec Hfire Hw))
    by discriminate.
  reflexivity.
Qed.

Lemma loop_snoc_discards (st : state) (evs : list event) (tk : tick) (s : state)
    (cs : list saved) (n : nat) :
  loop_ st evs = {| final := s; clips := cs; consumed := n; outcome := Waiting |} ->
  is_speech_chunk (block tk) = Ok false ->
  recording s = false ->
  loop_ st (evs ++ [Frame tk]) =
  {| final := s; clips := cs; consumed := S n; outcome := Waiting |}.
Proof.
  intros Hrun Hsp Hrec.
  rewrite (loop_snoc _ _ _ _ _ _ _ _ Hrun (step_discards _ _ Hsp Hrec))
    by discriminate.
  cbn [clips_of]. rewrite app_nil_r. reflexivity.
Qed.

End Scenario.

Lemma silence_not_elapsed (silence_ms : Z) (voiced checked : tick) :
  (gap_ms voiced checked <= inject_Z silence_ms)%Q ->
  silence_elapsed silence_ms (Some (now_voice voiced)) (now_check checked) = false.
Proof.
  intros H. unfold silence_elapsed.
  apply andb_false_iff. right. apply Qgt_bool_false_iff, H.
Qed.

Lemma silence_is_elapsed (silence_ms : Z) (voiced checked : tick) :
  ~ (now_voice voiced == 0)%Q ->
  (inject_Z silence_ms < gap_ms voiced checked)%Q ->
  silence_elapsed silence_ms (Some (now_voice voiced)) (now_check checked) = true.
Proof.
  intros Hnz H. unfold silence_elapsed, truthy.
  apply andb_true_iff. split.
  - destruct (Qeq_bool (now_voice voiced) 0) eqn:E; [|reflexivity].
    apply Qeq_bool_iff in E. contradiction.
  - apply Qgt_bool_iff, H.
Qed.

Ltac timed_side :=
  cbn [heard on_speech appended recording buf last_voice_ts idle_after app];
  first
    [ eassumption
    | reflexivity
    | apply silence_not_elapsed; assumption
    | apply silence_is_elapsed; assumption ].

(** From the run [R] over some blocks to the run [new] over one more. *)
Ltac grow R next new :=
  eassert (new : _);
  [ first
      [ eapply loop_snoc_discards with (tk := next); [exact R | timed_side ..]
      | eapply loop_snoc_appends with (tk := next); [exact R | timed_side ..]
      | eapply loop_snoc_finalizes with (tk := next); [exact R | timed_side ..] ]
  | cbn [heard on_speech appended recording buf last_voice_ts idle_after app]
      in new ].

(** ** The scenario of eleven blocks *)

(** Readings taken one block per interval of 30 ms leave the timeout test
    of the seventh block open, and no other: through the sixth block less
    than 150 ms have passed since the reading of the second, at the eighth
    more. *)
Lemma one_per_interval_gaps (t0 : Q)
    (tk1 tk2 tk3 tk4 tk5 tk6 tk7 tk8 : tick) (rest : list tick) :
  (0 <= t0)%Q ->
  one_per_interval t0 30 0 ([tk1; tk2; tk3; tk4; tk5; tk6; tk7; tk8] ++ rest) ->
  ~ (now_voice tk2 == 0)%Q /\
  (gap_ms tk1 tk1 <= 150)%Q /\ (gap_ms tk2 tk2 <= 150)%Q /\
  Forall (fun tk => (gap_ms tk2 tk <= 150)%Q) [tk3; tk4; tk5; tk6] /\
  (150 < gap_ms tk2 tk8)%Q.
Proof.
  intros Ht H. cbn [app one_per_interval] in H. unfold in_interval in H.
  destruct H as ((V1 & V1') & (C1 & C1') & _ &
                 (V2 & V2') & (C2 & C2') & _ &
                 _ & (C3 & C3') & _ & _ & (C4 & C4') & _ &
                 _ & (C5 & C5') & _ & _ & (C6 & C6') & _ &
                 _ & _ & _ & _ & (C8 & C8') & _ & _).
  change (inject_Z (30 * Z.of_nat 0) / 1000)%Q with (0 # 1000)%Q in *.
  change (inject_Z (30 * Z.of_nat 1) / 1000)%Q with (30 # 1000)%Q in *.
  change (inject_Z (30 * Z.of_nat 2) / 1000)%Q with (60 # 1000)%Q in *.
  change (inject_Z (30 * Z.of_nat 3) / 1000)%Q with (90 # 1000)%Q in *.
  change (inject_Z (30 * Z.of_nat 4) / 1000)%Q with (120 # 1000)%Q in *.
  change (inject_Z (30 * Z.of_nat 5) / 1000)%Q with (150 # 1000)%Q in *.
  change (inject_Z (30 * Z.of_nat 6) / 1000)%Q with (180 # 1000)%Q in *.
  change (inject_Z (30 * Z.of_nat 7) / 1000)%Q with (210 # 1000)%Q in *.
  change (inject_Z (30 * Z.of_nat 8) / 1000)%Q with (240 # 1000)%Q in *.
  unfold gap_ms.
  split; [intros Hz; lra|].
  split; [lra|]. split; [lra|].
  split; [repeat constructor; lra | lra].
Qed.

Section ElevenBlocks.

Variable is_speech_chunk : bytes -> result bool.
Variable samplerate : Z.
Variable AUDIO_DIR : string.
Variable utc_offset : Z.
Variables tk1 tk2 tk3 tk4 tk5 tk6 tk7 tk8 tk9 tk10 tk11 : tick.

Local Abbreviation ticks := [tk1; tk2; tk3; tk4; tk5; tk6; tk7; tk8; tk9; tk10; tk11].
Local Abbreviation run_from := (loop is_speech_chunk 150 samplerate AUDIO_DIR utc_offset).

(** C2 as the code has it: with [silence_ms = 150], eleven blocks are
    classified speech, speech and then nine times silence. No timeout test
    through the sixth block finds more than 150 ms passed since the latest
    reading taken for a speech block (from the second block on, the reading
    of the second block, which is not 0), and the test of the eighth block
    does: so it is whenever one block is taken in each interval of 30 ms.
    Then the loop finalizes at the seventh block if the test of the seventh
    finds more than 150 ms passed, and at the eighth block if it does not.
    Nothing is written before that block; the clip written then holds
    every block up to it; the blocks after it are taken in Idle and
    discarded. *)
Theorem scenario_finalizes_at_first_timeout (arrs : list (list Z)) :
  map is_speech_chunk (map block ticks) = map Ok ([true; true] ++ repeat false 9) ->
  Forall2 (fun b arr => frombuffer b = Ok arr) (map block ticks) arrs ->
  0 < samplerate < 2 ^ 31 ->
  36 + 2 * Z.of_nat (List.length (List.concat arrs)) < 2 ^ 32 ->
  ~ (now_voice tk2 == 0)%Q ->
  (gap_ms tk1 tk1 <= 150)%Q -> (gap_ms tk2 tk2 <= 150)%Q ->
  Forall (fun tk => (gap_ms tk2 tk <= 150)%Q) [tk3; tk4; tk5; tk6] ->
  (150 < gap_ms tk2 tk8)%Q ->
  ((150 < gap_ms tk2 tk7)%Q -> disk tk7 = None ->
   finalizes_after run_from 7 (map Frame ticks) (map block ticks)) /\
  ((gap_ms tk2 tk7 <= 150)%Q -> disk tk8 = None ->
   finalizes_after run_from 8 (map Frame ticks) (map block ticks)).
Proof.
  intros Hcls HF Hrate Hsize Hnz G1 G2 Gmid G8.
  cbn [map repeat app] in Hcls, HF.
  injection Hcls as H1 H2 H3 H4 H5 H6 H7 H8 H9 H10 H11.
  do 11 (match goal with
         | H : Forall2 _ (_ :: _) _ |- _ =>
             let a := fresh "a" in let Ha := fresh "Ha" in
             inversion H as [| ? a ? ? Ha ?]; subst; clear H
         end).
  match goal with H : Forall2 _ [] _ |- _ => inversion H; subst; clear H end.
  inversion Gmid as [| ? ? G3 Gmid4]; subst; clear Gmid.
  inversion Gmid4 as [| ? ? G4 Gmid5]; subst; clear Gmid4.
  inversion Gmid5 as [| ? ? G5 Gmid6]; subst; clear Gmid5.
  inversion Gmid6 as [| ? ? G6 _]; subst; clear Gmid6.
  cbn [List.concat] in Hsize. rewrite !length_app in Hsize.
  assert (R0 : run_from initial []
               = {| final := initial; clips := []; consumed := 0; outcome := Waiting |})
    by reflexivity.
  grow R0 tk1 R1. grow R1 tk2 R2. grow R2 tk3 R3. grow R3 tk4 R4.
  grow R4 tk5 R5. grow R5 tk6 R6.
  split.
  - intros G7 Hdisk.
    destruct (write_wav_succeeds (clip_path AUDIO_DIR utc_offset (now_stamp tk7))
                (List.concat [a; a0; a1; a2; a3; a4; a5]) samplerate)
      as [file Hw]; [lia | lia | cbn [List.concat]; rewrite !length_app; lia |].
    rewrite <- Hdisk in Hw.
    assert (Hdata : skipn 44 file
                    = List.concat (map block [tk1; tk2; tk3; tk4; tk5; tk6; tk7])).
    { apply write_wav_data in Hw. destruct Hw as [-> _].
      apply tobytes_concat. repeat constructor; assumption. }
    grow R6 tk7 R7. grow R7 tk8 R8. grow R8 tk9 R9. grow R9 tk10 R10.
    grow R10 tk11 R11.
    assert (E6 : run_from initial (firstn 6 (map Frame ticks)) = _) by exact R6.
    assert (E7 : run_from initial (firstn 7 (map Frame ticks)) = _) by exact R7.
    assert (E11 : run_from initial (map Frame ticks) = _) by exact R11.
    unfold finalizes_after. change (7 - 1)%nat with 6%nat.
    rewrite E6, E7, E11.
    cbn [final clips consumed outcome recording buf idle_after].
    split; [reflexivity|]. split; [reflexivity|].
    split; [eexists; split; [reflexivity | exact Hdata]|].
    repeat split.
  - intros G7 Hdisk.
    destruct (write_wav_succeeds (clip_path AUDIO_DIR utc_offset (now_stamp tk8))
                (List.concat [a; a0; a1; a2; a3; a4; a5; a6]) samplerate)
      as [file Hw]; [lia | lia | cbn [List.concat]; rewrite !length_app; lia |].
    rewrite <- Hdisk in Hw.
    assert (Hdata : skipn 44 file
                    = List.concat (map block [tk1; tk2; tk3; tk4; tk5; tk6; tk7; tk8])).
    { apply write_wav_data in Hw. destruct Hw as [-> _].
      apply tobytes_concat. repeat constructor; assumption. }
    grow R6 tk7 R7. grow R7 tk8 R8. grow R8 tk9 R9. grow R9 tk10 R10.
    grow R10 tk11 R11.
    assert (E7 : run_from initial (firstn 7 (map Frame ticks)) = _) by exact R7.
    assert (E8 : run_from initial (firstn 8 (map Frame ticks)) = _) by exact R8.
    assert (E11 : run_from initial (map Frame ticks) = _) by exact R11.
    unfold finalizes_after. change (8 - 1)%nat with 7%nat.
    rewrite E7, E8, E11.
    cbn [final clips consumed outcome recording buf idle_after].
    split; [reflexivity|]. split; [reflexivity|].
    split; [eexists; split; [reflexivity | exact Hdata]|].
    repeat split.
Qed.

End ElevenBlocks.

(** ** Strings and the device list *)

Lemma prefix_spec (p s : string) :
  String.prefix p s = true <-> exists post, s = (p ++ post)%string.
Proof.
  revert s. induction p as [|c p IH]; intros s.
  - split; [intros _; exists s; reflexivity | intros _; destruct s; reflexivity].
  - destruct s as [|d s]; cbn [String.prefix].
    + split; [discriminate | intros [post H]; discriminate].
    + destruct (ascii_dec c d) as [->|Hne].
      * rewrite IH. split; intros [post H]; exists post; cbn in *; congruence.
      * split; [discriminate | intros [post H]; cbn in H; congruence].
Qed.

(** [contains] decides whether the needle occurs in the haystack. *)
Lemma contains_spec (needle hay : string) :
  contains needle hay = true <->
  exists pre post, hay = (pre ++ needle ++ post)%string.
Proof.
  induction hay as [|c hay IH]; cbn [contains].
  - rewrite orb_false_r, prefix_spec. split.
    + intros [post H]. exists ""%string, post. exact H.
    + intros (pre & post & H). destruct pre; [exists post; exact H | discriminate].
  - rewrite orb_true_iff, prefix_spec, IH. split.
    + intros [[post H] | (pre & post & H)].
      * exists ""%string, post. exact H.
      * exists (String c pre), post. cbn. congruence.
    + intros (pre & post & H). destruct pre as [|d pre].
      * left. exists post. exact H.
      * right. cbn in H. exists pre, post. congruence.
Qed.

Lemma first_index_some (p : Device -> bool) (ds : list Device) (i k : Z) :
  first_index p i ds = Some k <->
  exists j d,
    k = i + Z.of_nat j /\ nth_error ds j = Some d /\ p d = true /\
    forall j' d', (j' < j)%nat -> nth_error ds j' = Some d' -> p d' = false.
Proof.
  revert i. induction ds as [|d ds IH]; intros i; cbn [first_index].
  - split; [discriminate | intros (j & d & _ & H & _); destruct j; discriminate].
  - destruct (p d) eqn:Hp.
    + split.
      * intros [= <-]. exists 0%nat, d. repeat split; [lia | assumption | lia].
      * intros (j & d0 & -> & Hn & Hd & Hmin). destruct j as [|j]; [f_equal; lia|].
        specialize (Hmin 0%nat d (Nat.lt_0_succ j) eq_refl). congruence.
    + rewrite IH. split.
      * intros (j & d0 & -> & Hn & Hd & Hmin). exists (S j), d0.
        repeat split; [lia | exact Hn | exact Hd |].
        intros [|j'] d' Hlt Hn'; [cbn in Hn'; congruence|].
        apply (Hmin j'); [lia | exact Hn'].
      * intros (j & d0 & -> & Hn & Hd & Hmin). destruct j as [|j].
        -- cbn in Hn. congruence.
        -- exists j, d0. repeat split; [lia | exact Hn | exact Hd |].
           intros j' d' Hlt Hn'. apply (Hmin (S j')); [lia | exact Hn'].
Qed.

Lemma first_index_none (p : Device -> bool) (ds : list Device) (i : Z) :
  first_index p i ds = None <-> forall d, In d ds -> p d = false.
Proof.
  revert i. induction ds as [|d ds IH]; intros i; cbn [first_index].
  - split; [intros _ d [] | reflexivity].
  - destruct (p d) eqn:Hp.
    + split; [discriminate | intros H; specialize (H d (or_introl eq_refl)); congruence].
    + rewrite IH. split.
      * intros H d' [<- | Hin]; auto.
      * intros H d' Hin. apply H. right. exact Hin.
Qed.

(** A device a name selector accepts: it can record, and the selector occurs
    in its name when both are put in lower case. *)
Lemma name_matches_spec (s : string) (d : Device) :
  name_matches (lower s) d = true <-> input_capable_match s d.
Proof.
  unfold name_matches, input_capable, input_capable_match.
  rewrite andb_true_iff, contains_spec, Z.gtb_lt. reflexivity.
Qed.
(** An error of [pick_input_device] is the device error of [main]. *)
Lemma main_device_error (devs : list Device)
    (check_input_settings : Z -> result unit) (c : cmdline) (s : string) (e : exn) :
  parse_args c <> None -> flag_list_devices c = false -> opt_device c = Some s ->
  pick_input_device devs check_input_settings (Some (SelStr s)) = Raise e ->
  main_startup devs check_input_settings c = DeviceErrorExit e.
Proof.
  intros Hparse Hlist Hdev Hpick. unfold main_startup.
  destruct (parse_args c) as [a|] eqn:Ea; [|congruence].
  assert (Ha : args.list_devices a = false /\ args.device a = Some s).
  { unfold parse_args in Ea.
    destruct (_ && _) in Ea; [|discriminate]. injection Ea as <-.
    cbn. auto. }
  destruct Ha as [-> ->]. cbn [option_map]. rewrite Hpick. reflexivity.
Qed.

(** C5: for a selector and device names of 7-bit characters. A selector made
    of digits (no more than [int] converts) resolves to the index it
    denotes, provided PortAudio accepts that device for one-channel input;
    otherwise resolution fails with PortAudio's error. Any other selector
    resolves to the first device, in listing order, that can record and
    whose name contains the selector when letter case is ignored; if there
    is none, resolution fails with the error "Requested device '...' not
    found or not input-capable.". Either failure is the device error of
    [main], which reports it and exits with status 1. *)
Theorem device_resolution (devs : list Device)
    (check_input_settings : Z -> result unit) (s : string) :
  isascii s = true ->
  Forall (fun d => isascii (name d) = true) devs ->
  (isdigit s = true -> (String.length s <= int_max_str_digits)%nat ->
   (check_input_settings (int_of_str s) = Ok tt ->
    pick_input_device devs check_input_settings (Some (SelStr s))
      = Ok (int_of_str s)) /\
   (forall e, check_input_settings (int_of_str s) = Raise e ->
    pick_input_device devs check_input_settings (Some (SelStr s)) = Raise e /\
    forall c,
      parse_args c <> None -> flag_list_devices c = false ->
      opt_device c = Some s ->
      main_startup devs check_input_settings c = DeviceErrorExit e)) /\
  (isdigit s = false ->
   (forall i,
       pick_input_device devs check_input_settings (Some (SelStr s)) = Ok i <->
       exists k d,
         i = Z.of_nat k /\ nth_error devs k = Some d /\
         input_capable_match s d /\
         forall j d', (j < k)%nat -> nth_error devs j = Some d' ->
                      ~ input_capable_match s d') /\
   ((forall d, In d devs -> ~ input_capable_match s d) ->
    pick_input_device devs check_input_settings (Some (SelStr s))
      = Raise (RuntimeError ("Requested device '" ++ s
                             ++ "' not found or not input-capable.")%string) /\
    forall c,
      parse_args c <> None -> flag_list_devices c = false ->
      opt_device c = Some s ->
      main_startup devs check_input_settings c
        = DeviceErrorExit
            (RuntimeError ("Requested device '" ++ s
                           ++ "' not found or not input-capable.")%string))).
Proof.
  (* The model computes on bytes whatever they are; the first two
     hypotheses and the bound on the digits say where it is Python's. *)
  intros _ _. split.
  - intros Hd _.
    assert (Hpick :
      pick_input_device devs check_input_settings (Some (SelStr s)) =
      (_ <- check_input_settings (int_of_str s) ;; Ok (int_of_str s))).
    { unfold pick_input_device. cbn [is_index int]. rewrite Hd. reflexivity. }
    split.
    + intros Hok. rewrite Hpick, Hok. reflexivity.
    + intros e He.
      assert (Hraise : pick_input_device devs check_input_settings
                         (Some (SelStr s)) = Raise e)
        by (rewrite Hpick, He; reflexivity).
      split; [exact Hraise|].
      intros c Hparse Hlist Hdev.
      apply (main_device_error devs check_input_settings c s e); assumption.
  - intros Hd.
    assert (Hpick :
      pick_input_device devs check_input_settings (Some (SelStr s)) =
      match first_index (name_matches (lower s)) 0 devs with
      | Some i => Ok i
      | None => Raise (RuntimeError ("Requested device '" ++ s
                                     ++ "' not found or not input-capable.")%string)
      end).
    { unfold pick_input_device. cbn [is_index str]. rewrite Hd. reflexivity. }
    split.
    + intros i. rewrite Hpick.
      destruct (first_index (name_matches (lower s)) 0 devs) as [i0|] eqn:E.
      * split.
        -- intros [= <-]. apply first_index_some in E.
           destruct E as (j & d & -> & Hn & Hm & Hmin).
           exists j, d. split; [reflexivity|]. split; [exact Hn|].
           split; [apply name_matches_spec, Hm|].
           intros j' d' Hlt Hn' Hacc. apply name_matches_spec in Hacc.
           rewrite (Hmin j' d' Hlt Hn') in Hacc. discriminate.
        -- intros (k & d & -> & Hn & Hacc & Hmin). f_equal.
           assert (E' : first_index (name_matches (lower s)) 0 devs
                        = Some (Z.of_nat k)).
           { apply first_index_some. exists k, d.
             split; [reflexivity|]. split; [exact Hn|].
             split; [apply name_matches_spec, Hacc|].
             intros j' d' Hlt Hn'.
             destruct (name_matches (lower s) d') eqn:Em; [|reflexivity].
             exfalso. apply (Hmin j' d' Hlt Hn'), name_matches_spec, Em. }
           congruence.
      * split; [discriminate|].
        intros (k & d & _ & Hn & Hacc & _). exfalso.
        rewrite first_index_none in E.
        apply name_matches_spec in Hacc.
        rewrite (E d (nth_error_In _ _ Hn)) in Hacc. discriminate.
    + intros Hnone.
      assert (E : first_index (name_matches (lower s)) 0 devs = None).
      { apply first_index_none. intros d Hin.
        destruct (name_matches (lower s) d) eqn:Em; [|reflexivity].
        exfalso. apply (Hnone d Hin), name_matches_spec, Em. }
      rewrite E in Hpick. split; [exact Hpick|].
      intros c Hparse Hlist Hdev.
      apply (main_device_error devs check_input_settings c s _); assumption.
Qed.

(** ** Configuration *)

Lemma int_of_float_inject_Z (z : Z) : int_of_float (inject_Z z) = z.
Proof. unfold int_of_float, inject_Z. cbn [Qnum Qden]. apply Z.quot_1_r. Qed.

Lemma parse_args_samplerate (c : cmdline) (a : args.t) :
  parse_args c = Some a -> args.samplerate a = default 16000 (opt_samplerate c).
Proof.
  unfold parse_args. destruct (_ && _); [|discriminate].
  intros [= <-]. reflexivity.
Qed.

Lemma main_startup_capturing (devs : list Device)
    (check_input_settings : Z -> result unit) (c : cmdline)
    (device rate block_size : Z) (a : args.t) :
  main_startup devs check_input_settings c = Capturing device rate block_size a ->
  parse_args c = Some a /\
  exists dev_info,
    nth_error devs (Z.to_nat device) = Some dev_info /\
    rate = resolve_samplerate (args.samplerate a) dev_info.
Proof.
  unfold main_startup. destruct (parse_args c) as [a0|]; [|discriminate].
  destruct (args.list_devices a0); [discriminate|].
  destruct (pick_input_device _ _ _) as [dev|]; [|discriminate].
  destruct (dev <? 0); [discriminate|].
  destruct (nth_error devs (Z.to_nat dev)) as [info|] eqn:E; [|discriminate].
  intros [= <- <- _ <-]. split; [reflexivity|]. exists info. auto.
Qed.

(** C9 as the code has it: with no samplerate on the command line argparse
    supplies 16000, and capture runs at 16000 Hz whatever the device
    reports. A samplerate other than 0 is used as given. Only a samplerate
    of 0 falls back to the device's default rate (cut to an integer), and
    to 16000 when the device reports none or reports 0. *)
Theorem samplerate_defaults_to_16000 (devs : list Device)
    (check_input_settings : Z -> result unit) (c : cmdline)
    (device rate block_size : Z) (a : args.t) :
  main_startup devs check_input_settings c = Capturing device rate block_size a ->
  (opt_samplerate c = None -> rate = 16000) /\
  (forall r, opt_samplerate c = Some r -> r <> 0 -> rate = r) /\
  (opt_samplerate c = Some 0 ->
   exists dev_info,
     nth_error devs (Z.to_nat device) = Some dev_info /\
     rate = (let d := int_of_float (default (16000 : Q) (default_samplerate dev_info)) in
             if d =? 0 then 16000 else d)).
Proof.
  intros H. apply main_startup_capturing in H.
  destruct H as (Hparse & info & Hinfo & ->).
  rewrite (parse_args_samplerate _ _ Hparse).
  split; [|split].
  - intros ->. reflexivity.
  - intros r -> Hr. cbn [default]. unfold resolve_samplerate.
    destruct (Z.eqb_spec r 0) as [|_]; [contradiction|].
    rewrite int_of_float_inject_Z.
    destruct (Z.eqb_spec r 0); [contradiction | reflexivity].
  - intros ->. exists info. split; [exact Hinfo | reflexivity].
Qed.

(** On a host whose chosen device reports 44100 Hz, leaving the samplerate
    unset gives 16000 Hz, not 44100. *)
Lemma unset_samplerate_ignores_device_default :
  ~ falls_back_to_device_default usb_host (check_against usb_host)
      (with_device "usb" unset).
Proof.
  intros H.
  specialize (H 3 16000 480
                {| args.device := Some "usb"%string; args.aggressiveness := 2;
                   args.silence_ms := 1500; args.samplerate := 16000;
                   args.block_ms := 30; args.list_devices := false |}
                {| name := "USB Microphone"; max_input_channels := 2;
                   default_samplerate := Some 44100%Q |}
                44100%Q eq_refl eq_refl eq_refl eq_refl).
  vm_compute in H. discriminate.
Qed.

(** The host above, no samplerate given: 16000 Hz; samplerate 0 given: the
    44100 Hz of the device. *)
Lemma samplerate_defaults_to_16000_witness :
  main_startup usb_host (check_against usb_host) (with_device "usb" unset)
    = Capturing 3 16000 480
        {| args.device := Some "usb"%string; args.aggressiveness := 2;
           args.silence_ms := 1500; args.samplerate := 16000;
           args.block_ms := 30; args.list_devices := false |} /\
  (opt_samplerate (with_device "usb" unset) = None -> 16000 = 16000) /\
  main_startup usb_host (check_against usb_host)
               (with_samplerate 0 (with_device "usb" unset))
    = Capturing 3 44100 1323
        {| args.device := Some "usb"%string; args.aggressiveness := 2;
           args.silence_ms := 1500; args.samplerate := 0;
           args.block_ms := 30; args.list_devices := false |}.
Proof.
  split; [reflexivity|]. split; [|reflexivity].
  exact (proj1 (samplerate_defaults_to_16000 usb_host (check_against usb_host)
                  (with_device "usb" unset) 3 16000 480 _ eq_refl)).
Defined.

(** ** The energy classifier *)

Lemma int16_of_le_bytes (x : Z) :
  int16_range x ->
  int16_of_le (byte_of_Z (x mod 65536)) (byte_of_Z (x mod 65536 / 256)) = x.
Proof.
  unfold int16_range. intros Hx.
  assert (Hu : 0 <= x mod 65536 < 65536) by (apply Z.mod_pos_bound; lia).
  unfold int16_of_le. rewrite !Z_of_byte_of_Z.
  rewrite (Z.mod_small (x mod 65536 / 256))
    by (split; [apply Z.div_pos; lia | apply Z.div_lt_upper_bound; lia]).
  replace (x mod 65536 mod 256 + 256 * (x mod 65536 / 256)) with (x mod 65536)
    by (pose proof (Z.div_mod (x mod 65536) 256); lia).
  unfold wrap16. rewrite Zplus_mod_idemp_l. rewrite Z.mod_small; lia.
Qed.

Lemma frombuffer_tobytes (xs : list Z) :
  Forall int16_range xs -> frombuffer (tobytes xs) = Ok xs.
Proof.
  intros H. unfold frombuffer.
  assert (E : int16_pairs (tobytes xs) = Some xs).
  { induction H as [|x xs Hx _ IH]; [reflexivity|].
    cbn [tobytes int16_pairs]. rewrite IH, int16_of_le_bytes by assumption.
    reflexivity. }
  rewrite E. reflexivity.
Qed.

Lemma abs16_unclipped (x : Z) : -32768 < x <= 32767 -> abs16 x = Z.abs x.
Proof. intros H. unfold abs16. apply wrap16_id. unfold int16_range. lia. Qed.

Lemma abs16_le_abs (x : Z) : int16_range x -> abs16 x <= Z.abs x.
Proof.
  unfold int16_range. intros H. destruct (Z.eq_dec x (-32768)) as [->|Hne].
  - vm_compute. discriminate.
  - rewrite abs16_unclipped by lia. lia.
Qed.

Lemma sumZ_map_le (f g : Z -> Z) (xs : list Z) :
  Forall (fun x => f x <= g x) xs -> sumZ (map f xs) <= sumZ (map g xs).
Proof.
  induction 1 as [|x xs Hx _ IH]; [cbn; lia|].
  cbn [map sumZ fold_right] in *. unfold sumZ in IH. lia.
Qed.

(** Comparing a mean with an integer is comparing the sum with a multiple
    of the size. *)
Lemma mean_compare (xs : list Z) (c : Z) :
  xs <> [] ->
  ((inject_Z c < mean xs)%Q <-> c * Z.of_nat (List.length xs) < sumZ xs) /\
  ((mean xs == inject_Z c)%Q <-> sumZ xs = c * Z.of_nat (List.length xs)).
Proof.
  intros Hne. unfold mean.
  set (n := Z.of_nat (List.length xs)). set (s := sumZ xs).
  assert (Hn : 0 < n) by (subst n; destruct xs; [congruence | cbn [List.length]; lia]).
  assert (HnQ : (0 < inject_Z n)%Q) by (rewrite <- (Zlt_Qlt 0); exact Hn).
  assert (Hnz : ~ (inject_Z n == 0)%Q)
    by (intros E; rewrite E in HnQ; apply (Qlt_irrefl _ HnQ)).
  assert (Hmul : (inject_Z s / inject_Z n * inject_Z n == inject_Z s)%Q)
    by (field; exact Hnz).
  split.
  - rewrite <- (Qmult_lt_r _ _ (inject_Z n) HnQ), Hmul.
    rewrite <- inject_Z_mult, <- Zlt_Qlt. reflexivity.
  - split.
    + intros E. apply inject_Z_injective.
      rewrite inject_Z_mult, <- E, Hmul. reflexivity.
    + intros E. rewrite E, inject_Z_mult. field. exact Hnz.
Qed.

Lemma is_speech_chunk_rms_frame (arr : list Z) :
  Forall int16_range arr -> arr <> [] ->
  is_speech_chunk_rms (frame_of arr) = Ok (Qgt_bool (mean (map abs16 arr)) THRESH).
Proof.
  intros Hr Hne. unfold is_speech_chunk_rms, frame_of.
  rewrite frombuffer_tobytes by assumption. cbn [bind].
  destruct arr; [congruence | reflexivity].
Qed.

(** Away from the sample -32768 the classifier does what the threshold
    says: a frame of mean absolute amplitude 400 is speech. *)
Lemma energy_classifier_loud_unclipped (arr : list Z) :
  Forall (fun x => -32768 < x <= 32767) arr -> arr <> [] ->
  (mean_abs arr == 400)%Q ->
  is_speech_chunk_rms (frame_of arr) = Ok true.
Proof.
  intros Hr Hne Hmean.
  assert (Hr' : Forall int16_range arr)
    by (eapply Forall_impl; [|exact Hr]; unfold int16_range; cbn; lia).
  rewrite is_speech_chunk_rms_frame by assumption. f_equal.
  assert (Emap : map abs16 arr = map Z.abs arr).
  { apply map_ext_in. intros x Hx. apply abs16_unclipped.
    rewrite Forall_forall in Hr. apply Hr, Hx. }
  rewrite Emap. apply Qgt_bool_iff.
  assert (Hne' : map Z.abs arr <> []) by (destruct arr; [congruence | discriminate]).
  unfold mean_abs in Hmean.
  apply (mean_compare _ 400 Hne') in Hmean.
  apply (mean_compare _ 300 Hne'). rewrite Hmean.
  destruct arr; [congruence | cbn [map List.length]; lia].
Qed.

(** A frame of mean absolute amplitude 100 is not speech, clipped or not. *)
Lemma energy_classifier_quiet (arr : list Z) :
  Forall int16_range arr -> arr <> [] ->
  (mean_abs arr == 100)%Q ->
  is_speech_chunk_rms (frame_of arr) = Ok false.
Proof.
  intros Hr Hne Hmean.
  rewrite is_speech_chunk_rms_frame by assumption. f_equal.
  destruct (Qgt_bool (mean (map abs16 arr)) THRESH) eqn:E; [|reflexivity].
  exfalso. apply Qgt_bool_iff in E.
  assert (Hne1 : map abs16 arr <> []) by (destruct arr; [congruence | discriminate]).
  assert (Hne2 : map Z.abs arr <> []) by (destruct arr; [congruence | discriminate]).
  apply (mean_compare _ 300 Hne1) in E.
  unfold mean_abs in Hmean. apply (mean_compare _ 100 Hne2) in Hmean.
  assert (Hle : sumZ (map abs16 arr) <= sumZ (map Z.abs arr)).
  { apply sumZ_map_le. eapply Forall_impl; [|exact Hr].
    intros x Hx. apply abs16_le_abs, Hx. }
  rewrite !length_map in *. lia.
Qed.

Lemma energy_classifier_empty : is_speech_chunk_rms [] = Ok false.
Proof. reflexivity. Qed.

(** C7 at the frame where the code departs from it: 480 samples of mean
    absolute amplitude 400, one of them -32768. [np.abs] leaves -32768
    negative in int16, the mean the code computes is 126464 / 480, about
    263.5, and the frame is classified non-speech. *)
Theorem energy_classifier_rejects_clipped_frame :
  Forall int16_range clipped_frame /\
  List.length (frame_of clipped_frame) = 960%nat /\
  (mean_abs clipped_frame == 400)%Q /\
  (mean (map abs16 clipped_frame) == 126464 # 480)%Q /\
  is_speech_chunk_rms (frame_of clipped_frame) = Ok false.
Proof.
  split; [|split; [|split; [|split]]].
  - unfold clipped_frame. apply Forall_app. split.
    + repeat constructor; unfold int16_range; lia.
    + apply Forall_forall. intros x Hx. apply repeat_spec in Hx. subst x.
      unfold int16_range. lia.
  - vm_compute. reflexivity.
  - vm_compute. reflexivity.
  - vm_compute. reflexivity.
  - vm_compute. reflexivity.
Qed.

(** ** The claims on concrete runs *)

(** The readings of both timings are binary64 numbers, on which the
    timeout test of line 155 computed in binary64 is the one computed on
    rationals. *)
Lemma fixtures_are_binary64 :
  agree slotted_readings_binary64 slotted_readings = true /\
  agree nominal_readings_binary64 nominal_readings = true /\
  agree shifted_readings_binary64 shifted_readings = true.
Proof. repeat split; vm_compute; reflexivity. Qed.

(** The blocks of the scenario are classified speech, speech and nine times
    silence, and the first timing has one block in each interval of 30 ms. *)
Lemma slotted_ticks_one_per_interval :
  map is_speech_chunk_rms scenario_blocks = map Ok ([true; true] ++ repeat false 9) /\
  map block slotted_ticks = scenario_blocks /\
  one_per_interval 1700000000 30 0 slotted_ticks.
Proof.
  split; [vm_compute; reflexivity|]. split; [reflexivity|].
  cbn [slotted_ticks timed scenario_blocks slotted_readings seq map combine
       repeat app fst snd one_per_interval at_time now_voice now_check now_stamp].
  unfold in_interval.
  repeat split; vm_compute; first [reflexivity | discriminate].
Qed.

(** Two timings of the scenario at which the loop has written nothing after
    the seventh block, and so does not finalize there. A clock read every
    30 ms from 1700000000.1 on returns, at the seventh block, a number
    149.99986 ms above the one it returned at the second. With one block in
    each interval of 30 ms, 29.296875 ms apart, the seventh is read
    146.484375 ms after the second. *)
Lemma scenario_not_finalized_after_seventh_block :
  ~ finalizes_after scenario_loop 7 shifted_events scenario_blocks /\
  ~ finalizes_after scenario_loop 7 slotted_events scenario_blocks.
Proof.
  split; intros (_ & _ & (f & Hf & _) & _); vm_compute in Hf; discriminate Hf.
Qed.

(** A clip that cannot be written ends the run at that block: the loop is
    not idle afterwards and the later blocks are never taken. *)
Lemma write_failure_stops_capture :
  ~ resets_and_continues scenario_loop unwritable_before unwritable_tick
      unwritable_after.
Proof.
  intros (H & _). vm_compute in H. discriminate H.
Qed.

(** A recording opened at 22:13:20 is saved as clip_20231114_221322.wav. *)
Lemma clip_name_is_not_capture_start :
  ~ named_by_capture_start late_loop "/mnt/wodehouse_data/shared/audio" 0
      late_opening late_events.
Proof.
  intros H.
  assert (Hin : In late_clip (clips (late_loop initial late_events)))
    by (vm_compute; left; reflexivity).
  specialize (H late_clip Hin). apply String.eqb_eq in H.
  vm_compute in H. discriminate H.
Qed.

(** After one silent block the loop is idle with an empty buffer. A further
    silent block would change nothing; the speech block taken instead
    takes the loop out of Idle and is the only element of the buffer. One
    silent block later the loop is still recording, and the buffer is the
    speech block followed by the silent one. *)
Lemma idle_left_only_on_speech_witness :
  outcome (late_loop initial idle_events) = Waiting /\
  recording (final (late_loop initial idle_events)) = false /\
  buf (final (late_loop initial idle_events)) = [] /\
  step is_speech_chunk_rms 1500 16000 "/mnt/wodehouse_data/shared/audio" 0
       (final (late_loop initial idle_events)) (at_time silent_block 1700000001)
  = (final (late_loop initial idle_events), Quiet) /\
  step is_speech_chunk_rms 1500 16000 "/mnt/wodehouse_data/shared/audio" 0
       (final (late_loop initial idle_events)) opening_tick
  = ({| buf := [repeat 400 240]; last_voice_ts := Some (now_voice opening_tick);
        recording := true |}, Quiet) /\
  outcome (late_loop initial opened_events) = Waiting /\
  recording (final (late_loop initial opened_events)) = true /\
  buf (final (late_loop initial opened_events)) = [repeat 400 240; repeat 0 240] /\
  exists pre opening post arrs,
    opened_events = pre ++ Frame opening :: post /\
    outcome (late_loop initial pre) = Waiting /\
    recording (final (late_loop initial pre)) = false /\
    is_speech_chunk_rms (block opening) = Ok true /\
    Forall2 (fun tk arr => frombuffer (block tk) = Ok arr)
            (opening :: ticks_of post) arrs /\
    buf (final (late_loop initial opened_events)) = arrs.
Proof.
  assert (Hout : outcome (late_loop initial idle_events) = Waiting)
    by (vm_compute; reflexivity).
  assert (Hidle : recording (final (late_loop initial idle_events)) = false)
    by (vm_compute; reflexivity).
  assert (Hout' : outcome (late_loop initial opened_events) = Waiting)
    by (vm_compute; reflexivity).
  assert (Hrec' : recording (final (late_loop initial opened_events)) = true)
    by (vm_compute; reflexivity).
  destruct (idle_left_only_on_speech is_speech_chunk_rms 1500 16000
              "/mnt/wodehouse_data/shared/audio" 0
              idle_events (at_time silent_block 1700000001) Hout)
    as (Hempty & _ & Hsilent).
  destruct (idle_left_only_on_speech is_speech_chunk_rms 1500 16000
              "/mnt/wodehouse_data/shared/audio" 0
              idle_events opening_tick Hout)
    as (_ & _ & Hspeech).
  destruct (idle_left_only_on_speech is_speech_chunk_rms 1500 16000
              "/mnt/wodehouse_data/shared/audio" 0
              opened_events opening_tick Hout')
    as (_ & Hopened & _).
  split; [exact Hout|]. split; [exact Hidle|]. split; [exact (Hempty Hidle)|].
  split.
  { destruct (Hsilent Hidle) as (Hdiscard & _). apply Hdiscard.
    vm_compute. reflexivity. }
  split.
  { destruct (Hspeech Hidle) as (_ & Hleave & _).
    apply (Hleave (repeat 400 240)); vm_compute; reflexivity. }
  split; [exact Hout'|]. split; [exact Hrec'|].
  split; [vm_compute; reflexivity|].
  exact (Hopened Hrec').
Defined.

(** The scenario on the energy classifier at 8 kHz, at three timings. A
    clock read every 30 ms from 1700000000 on returns, at the seventh
    block, a number 150.000095 ms above the one of the second block: the
    loop finalizes at the seventh. Read every 30 ms from 1700000000.1 on it
    returns one 149.99986 ms above: the loop finalizes at the eighth. With
    one block in each interval of 30 ms, 15k/512 s after the start, the
    seventh block is read 146.484375 ms after the second: the loop
    finalizes at the eighth. *)
Lemma scenario_finalizes_at_first_timeout_witness :
  ((150 < gap_ms (nth 1 nominal_ticks late_opening) (nth 6 nominal_ticks late_opening))%Q /\
   finalizes_after scenario_loop 7 nominal_events scenario_blocks) /\
  ((gap_ms (nth 1 shifted_ticks late_opening) (nth 6 shifted_ticks late_opening)
    <= 150)%Q /\
   finalizes_after scenario_loop 8 shifted_events scenario_blocks) /\
  ((gap_ms (nth 1 slotted_ticks late_opening) (nth 6 slotted_ticks late_opening)
    <= 150)%Q /\
   finalizes_after scenario_loop 8 slotted_events scenario_blocks).
Proof.
  assert (Hsize : 36 + 2 * Z.of_nat (List.length (List.concat scenario_arrays)) < 2 ^ 32)
    by (vm_compute; reflexivity).
  assert (Hrate : 0 < 8000 < 2 ^ 31) by lia.
  assert (N7 : (150 < gap_ms (nth 1 nominal_ticks late_opening)
                             (nth 6 nominal_ticks late_opening))%Q)
    by (vm_compute; reflexivity).
  assert (H7 : (gap_ms (nth 1 shifted_ticks late_opening)
                       (nth 6 shifted_ticks late_opening) <= 150)%Q)
    by (vm_compute; discriminate).
  assert (S7 : (gap_ms (nth 1 slotted_ticks late_opening)
                       (nth 6 slotted_ticks late_opening) <= 150)%Q)
    by (vm_compute; discriminate).
  split; [split; [exact N7|] | split; [split; [exact H7|] | split; [exact S7|]]].
  -
    refine (proj1 (scenario_finalizes_at_first_timeout is_speech_chunk_rms 8000
                     "/mnt/wodehouse_data/shared/audio" 0
                     (nth 0 nominal_ticks late_opening)
                     (nth 1 nominal_ticks late_opening)
                     (nth 2 nominal_ticks late_opening)
                     (nth 3 nominal_ticks late_opening)
                     (nth 4 nominal_ticks late_opening)
                     (nth 5 nominal_ticks late_opening)
                     (nth 6 nominal_ticks late_opening)
                     (nth 7 nominal_ticks late_opening)
                     (nth 8 nominal_ticks late_opening)
                     (nth 9 nominal_ticks late_opening)
                     (nth 10 nominal_ticks late_opening)
                     scenario_arrays _ _ Hrate Hsize _ _ _ _ _) N7 eq_refl).
    + vm_compute. reflexivity.
    + repeat constructor; vm_compute; reflexivity.
    + intros H. vm_compute in H. discriminate H.
    + vm_compute. discriminate.
    + vm_compute. discriminate.
    + repeat constructor; vm_compute; discriminate.
    + vm_compute. reflexivity.
  -
    refine (proj2 (scenario_finalizes_at_first_timeout is_speech_chunk_rms 8000
                     "/mnt/wodehouse_data/shared/audio" 0
                     (nth 0 shifted_ticks late_opening)
                     (nth 1 shifted_ticks late_opening)
                     (nth 2 shifted_ticks late_opening)
                     (nth 3 shifted_ticks late_opening)
                     (nth 4 shifted_ticks late_opening)
                     (nth 5 shifted_ticks late_opening)
                     (nth 6 shifted_ticks late_opening)
                     (nth 7 shifted_ticks late_opening)
                     (nth 8 shifted_ticks late_opening)
                     (nth 9 shifted_ticks late_opening)
                     (nth 10 shifted_ticks late_opening)
                     scenario_arrays _ _ Hrate Hsize _ _ _ _ _) H7 eq_refl).
    + vm_compute. reflexivity.
    + repeat constructor; vm_compute; reflexivity.
    + intros H. vm_compute in H. discriminate H.
    + vm_compute. discriminate.
    + vm_compute. discriminate.
    + repeat constructor; vm_compute; discriminate.
    + vm_compute. reflexivity.
  -
    refine (proj2 (scenario_finalizes_at_first_timeout is_speech_chunk_rms 8000
                     "/mnt/wodehouse_data/shared/audio" 0
                     (nth 0 slotted_ticks late_opening)
                     (nth 1 slotted_ticks late_opening)
                     (nth 2 slotted_ticks late_opening)
                     (nth 3 slotted_ticks late_opening)
                     (nth 4 slotted_ticks late_opening)
                     (nth 5 slotted_ticks late_opening)
                     (nth 6 slotted_ticks late_opening)
                     (nth 7 slotted_ticks late_opening)
                     (nth 8 slotted_ticks late_opening)
                     (nth 9 slotted_ticks late_opening)
                     (nth 10 slotted_ticks late_opening)
                     scenario_arrays _ _ Hrate Hsize _ _ _ _ _) S7 eq_refl).
    + vm_compute. reflexivity.
    + repeat constructor; vm_compute; reflexivity.
    + intros H. vm_compute in H. discriminate H.
    + vm_compute. discriminate.
    + vm_compute. discriminate.
    + repeat constructor; vm_compute; discriminate.
    + vm_compute. reflexivity.
Defined.

(** The clip of the late run holds its three blocks. *)
Lemma clip_holds_every_buffered_block_witness :
  recording initial = false /\
  is_speech_chunk_rms (block late_opening) = Ok true /\
  skipn 44 (content late_clip) = List.concat (map block late_ticks).
Proof.
  assert (Hfirst : is_speech_chunk_rms (block late_opening) = Ok true)
    by (vm_compute; reflexivity).
  split; [reflexivity|]. split; [exact Hfirst|].
  destruct (clip_holds_every_buffered_block is_speech_chunk_rms 1500 16000
              "/mnt/wodehouse_data/shared/audio" 0
              initial (idle_after (Some 1700000000%Q)) late_opening
              [at_time silent_block 1700000001; at_time silent_block 1700000002]
              [late_opening; at_time silent_block 1700000001]
              (at_time silent_block 1700000002) late_clip)
    as (arrs & _ & _ & _ & Hdata & _);
    [reflexivity | reflexivity | exact Hfirst
     | vm_compute; reflexivity | vm_compute; reflexivity
     | vm_compute; reflexivity | exact Hdata].
Defined.

(** The refused clip of the unwritable run. *)
Lemma write_failure_ends_the_loop_witness :
  disk unwritable_tick = Some (OSError "Permission denied") /\
  outcome (scenario_loop one_block_in (Frame unwritable_tick :: unwritable_after))
    = Died (OSError "Permission denied") /\
  consumed (scenario_loop one_block_in (Frame unwritable_tick :: unwritable_after))
    = 1%nat.
Proof.
  split; [reflexivity|].
  destruct (write_failure_ends_the_loop is_speech_chunk_rms 150 8000
              "/mnt/wodehouse_data/shared/audio" 0
              one_block_in unwritable_tick unwritable_after
              (OSError "Permission denied") false (repeat 0 240))
    as (Hout & Hcons & _);
    [vm_compute; reflexivity | vm_compute; reflexivity | reflexivity
     | vm_compute; reflexivity | reflexivity | ].
  split; [exact Hout | exact Hcons].
Defined.

(** The clip of the late run is written by the iteration of its third
    block, at 22:13:22, and named so. *)
Lemma clip_named_by_finalization_time_witness :
  In late_clip (clips (late_loop initial late_events)) /\
  step is_speech_chunk_rms 1500 16000 "/mnt/wodehouse_data/shared/audio" 0
       (final (late_loop initial (firstn 2 late_events)))
       (at_time silent_block 1700000002)
  = (idle_after (Some 1700000000%Q), Saved late_clip) /\
  path late_clip = "/mnt/wodehouse_data/shared/audio/clip_20231114_221322.wav"%string /\
  path late_clip
  = os_path_join "/mnt/wodehouse_data/shared/audio"
      ("clip_" ++ strftime 0 (inject_Z (Qfloor (now_stamp (at_time silent_block 1700000002))))
       ++ ".wav")%string /\
  (exists earlier, skipn 44 (content late_clip) = earlier ++ silent_block) /\
  exists pre tk post st',
    late_events = pre ++ Frame tk :: post /\
    outcome (late_loop initial pre) = Waiting /\
    step is_speech_chunk_rms 1500 16000 "/mnt/wodehouse_data/shared/audio" 0
         (final (late_loop initial pre)) tk = (st', Saved late_clip) /\
    path late_clip
    = os_path_join "/mnt/wodehouse_data/shared/audio"
        ("clip_" ++ strftime 0 (inject_Z (Qfloor (now_stamp tk))) ++ ".wav")%string.
Proof.
  assert (Hin : In late_clip (clips (late_loop initial late_events)))
    by (vm_compute; left; reflexivity).
  assert (Hs : step is_speech_chunk_rms 1500 16000
                    "/mnt/wodehouse_data/shared/audio" 0
                    (final (late_loop initial (firstn 2 late_events)))
                    (at_time silent_block 1700000002)
               = (idle_after (Some 1700000000%Q), Saved late_clip))
    by (vm_compute; reflexivity).
  destruct (clip_named_by_finalization_time is_speech_chunk_rms 1500 16000
              "/mnt/wodehouse_data/shared/audio" 0) as [Hone Hrun].
  destruct (Hone _ _ _ _ Hs) as [Hpath Hlast].
  split; [exact Hin|]. split; [exact Hs|]. split; [reflexivity|].
  split; [exact Hpath|]. split; [exact Hlast|].
  exact (Hrun late_events late_clip Hin).
Defined.

(** At 16000 Hz. *)
Lemma clip_header_matches_capture_witness :
  In 16000 [8000; 16000; 44100] /\
  header_channels (content late_clip) = 1 /\
  header_bits (content late_clip) = 16 /\
  header_framerate (content late_clip) = 16000.
Proof.
  assert (Hrate : In 16000 [8000; 16000; 44100]) by (right; left; reflexivity).
  split; [exact Hrate|].
  destruct (clip_header_matches_capture is_speech_chunk_rms 1500 16000
              "/mnt/wodehouse_data/shared/audio" 0 Hrate) as [Hstep _].
  apply (Hstep (final (late_loop initial (firstn 2 late_events)))
               (at_time silent_block 1700000002)
               (idle_after (Some 1700000000%Q)) late_clip).
  vm_compute. reflexivity.
Defined.

Lemma no_match_by_name (s : string) (d : Device) :
  name_matches (lower s) d = false -> ~ input_capable_match s d.
Proof.
  intros H Hacc. apply name_matches_spec in Hacc. congruence.
Qed.

(** The selectors "2", "usb", "nope" and "0" on a host of five devices,
    the first of which cannot record. *)
Lemma device_resolution_witness :
  isascii "2" = true /\ isascii "usb" = true /\ isascii "nope" = true /\
  isascii "0" = true /\
  Forall (fun d => isascii (name d) = true) usb_host /\
  isdigit "2" = true /\ isdigit "usb" = false /\ isdigit "nope" = false /\
  isdigit "0" = true /\
  pick_input_device usb_host (check_against usb_host) (Some (SelStr "2")) = Ok 2 /\
  pick_input_device usb_host (check_against usb_host) (Some (SelStr "usb")) = Ok 3 /\
  nth_error usb_host 3
    = Some {| name := "USB Microphone"; max_input_channels := 2;
              default_samplerate := Some 44100%Q |} /\
  pick_input_device usb_host (check_against usb_host) (Some (SelStr "nope"))
    = Raise (RuntimeError "Requested device 'nope' not found or not input-capable.") /\
  main_startup usb_host (check_against usb_host) (with_device "nope" unset)
    = DeviceErrorExit
        (RuntimeError "Requested device 'nope' not found or not input-capable.") /\
  pick_input_device usb_host (check_against usb_host) (Some (SelStr "0"))
    = Raise (PortAudioError "Invalid number of channels") /\
  main_startup usb_host (check_against usb_host) (with_device "0" unset)
    = DeviceErrorExit (PortAudioError "Invalid number of channels").
Proof.
  assert (Hhost : Forall (fun d => isascii (name d) = true) usb_host)
    by (repeat constructor).
  assert (Hshort : forall s, (String.length s <= 4)%nat ->
                             (String.length s <= int_max_str_digits)%nat)
    by (unfold int_max_str_digits; lia).
  split; [reflexivity|]. split; [reflexivity|]. split; [reflexivity|].
  split; [reflexivity|]. split; [exact Hhost|].
  split; [reflexivity|]. split; [reflexivity|]. split; [reflexivity|].
  split; [reflexivity|].
  split; [|split; [|split; [reflexivity|]]].
  - destruct (device_resolution usb_host (check_against usb_host) "2" eq_refl Hhost)
      as [Hnum _].
    destruct (Hnum eq_refl (Hshort "2"%string ltac:(cbn; lia))) as [Hok _].
    exact (Hok eq_refl).
  - destruct (device_resolution usb_host (check_against usb_host) "usb" eq_refl Hhost)
      as [_ Hname].
    destruct (Hname eq_refl) as [Hiff _].
    apply (proj2 (Hiff 3)).
    exists 3%nat, {| name := "USB Microphone"; max_input_channels := 2;
                     default_samplerate := Some 44100%Q |}.
    split; [reflexivity|]. split; [reflexivity|]. split.
    + split; [reflexivity|]. exists ""%string, " microphone"%string. reflexivity.
    + intros j d' Hlt Hn. apply no_match_by_name.
      destruct j as [|[|[|j]]]; [| | | lia];
        cbn in Hn; injection Hn as <-; reflexivity.
  - destruct (device_resolution usb_host (check_against usb_host) "nope" eq_refl Hhost)
      as [_ Hname].
    destruct (Hname eq_refl) as [_ Hnone].
    assert (Hno : forall d, In d usb_host -> ~ input_capable_match "nope" d).
    { intros d Hin. apply no_match_by_name.
      cbn [usb_host In] in Hin.
      destruct Hin as [<- | [<- | [<- | [<- | [<- | []]]]]]; reflexivity. }
    destruct (Hnone Hno) as [Hpick Hmain].
    split; [exact Hpick|].
    split; [apply Hmain; [discriminate | reflexivity | reflexivity]|].
    destruct (device_resolution usb_host (check_against usb_host) "0" eq_refl Hhost)
      as [Hnum _].
    destruct (Hnum eq_refl (Hshort "0"%string ltac:(cbn; lia))) as [_ Hfail].
    destruct (Hfail (PortAudioError "Invalid number of channels") eq_refl)
      as [Hpick0 Hmain0].
    split; [exact Hpick0|].
    apply Hmain0; [discriminate | reflexivity | reflexivity].
Defined.

(** * Further properties of the listener *)

(** ** Device resolution without a name *)

Lemma contains_empty (hay : string) : contains "" hay = true.
Proof. destruct hay; reflexivity. Qed.

Lemma first_index_ext (p q : Device -> bool) (ds : list Device) (i : Z) :
  (forall d, In d ds -> p d = q d) ->
  first_index p i ds = first_index q i ds.
Proof.
  revert i. induction ds as [|d ds IH]; intros i H; [reflexivity|].
  cbn [first_index]. rewrite (H d (or_introl eq_refl)).
  destruct (q d); [reflexivity|]. apply IH. intros d' Hin. apply H. right. exact Hin.
Qed.

Lemma first_index_bounds (p : Device -> bool) (ds : list Device) (i k : Z) :
  first_index p i ds = Some k ->
  exists d, i <= k /\ nth_error ds (Z.to_nat (k - i)) = Some d /\ p d = true.
Proof.
  intros H. apply first_index_some in H.
  destruct H as (j & d & -> & Hn & Hp & _).
  exists d. split; [lia|]. split; [|exact Hp].
  replace (i + Z.of_nat j - i) with (Z.of_nat j) by lia.
  rewrite Nat2Z.id. exact Hn.
Qed.

(** X1: with no selector, [pick_input_device] returns the index of the first
    device of the listing that has an input channel, and raises "No
    input-capable audio device found." exactly when no device has one; it
    raises nothing else. *)
Theorem auto_pick_first_input_device (devs : list Device)
    (check_input_settings : Z -> result unit) :
  (forall i,
      pick_input_device devs check_input_settings None = Ok i <->
      exists k d,
        i = Z.of_nat k /\ nth_error devs k = Some d /\
        0 < max_input_channels d /\
        forall j d', (j < k)%nat -> nth_error devs j = Some d' ->
                     max_input_channels d' <= 0) /\
  (pick_input_device devs check_input_settings None
     = Raise (RuntimeError "No input-capable audio device found.") <->
   forall d, In d devs -> max_input_channels d <= 0) /\
  (forall e,
      pick_input_device devs check_input_settings None = Raise e ->
      e = RuntimeError "No input-capable audio device found.").
Proof.
  unfold pick_input_device.
  assert (Hcap : forall d, input_capable d = true <-> 0 < max_input_channels d)
    by (intros d; unfold input_capable; apply Z.gtb_lt).
  assert (Hncap : forall d, input_capable d = false <-> max_input_channels d <= 0).
  { intros d. unfold input_capable. rewrite Z.gtb_ltb. apply Z.ltb_ge. }
  destruct (first_index input_capable 0 devs) as [i0|] eqn:E.
  - split; [|split].
    + intros i. split.
      * intros [= <-]. apply first_index_some in E.
        destruct E as (j & d & -> & Hn & Hd & Hmin).
        exists j, d. split; [reflexivity|]. split; [exact Hn|].
        split; [apply Hcap, Hd|].
        intros j' d' Hlt Hn'. apply Hncap, (Hmin j' d' Hlt Hn').
      * intros (k & d & -> & Hn & Hd & Hmin). f_equal.
        assert (E' : first_index input_capable 0 devs = Some (Z.of_nat k)).
        { apply first_index_some. exists k, d.
          split; [reflexivity|]. split; [exact Hn|]. split; [apply Hcap, Hd|].
          intros j' d' Hlt Hn'. apply Hncap, (Hmin j' d' Hlt Hn'). }
        congruence.
    + split; [discriminate|]. intros Hnone. exfalso.
      apply first_index_some in E. destruct E as (j & d & _ & Hn & Hd & _).
      apply Hcap in Hd. specialize (Hnone d (nth_error_In _ _ Hn)). lia.
    + intros e. discriminate.
  - split; [|split].
    + intros i. split; [discriminate|].
      intros (k & d & _ & Hn & Hd & _). exfalso.
      rewrite first_index_none in E.
      apply Hcap in Hd. rewrite (E d (nth_error_In _ _ Hn)) in Hd. discriminate.
    + split; [|reflexivity]. intros _ d Hin.
      rewrite first_index_none in E. apply Hncap, E, Hin.
    + intros e [= <-]. reflexivity.
Qed.

Lemma picked_index_valid (devs : list Device)
    (check_input_settings : Z -> result unit) (preferred : option selector)
    (i : Z) :
  (forall p, preferred = Some p -> is_index p = false) ->
  pick_input_device devs check_input_settings preferred = Ok i ->
  exists d,
    0 <= i < Z.of_nat (List.length devs) /\
    nth_error devs (Z.to_nat i) = Some d /\
    0 < max_input_channels d.
Proof.
  intros Hname H. unfold pick_input_device in H.
  assert (Hgoal : forall p, first_index p 0 devs = Some i ->
                            (forall d, p d = true -> 0 < max_input_channels d) ->
                            exists d, 0 <= i < Z.of_nat (List.length devs) /\
                                      nth_error devs (Z.to_nat i) = Some d /\
                                      0 < max_input_channels d).
  { intros p E Hp. apply first_index_bounds in E.
    destruct E as (d & Hi & Hn & Hd). rewrite Z.sub_0_r in Hn.
    exists d. split; [|split; [exact Hn | apply Hp, Hd]].
    split; [exact Hi|].
    assert (Hlt : (Z.to_nat i < List.length devs)%nat)
      by (apply nth_error_Some; congruence).
    lia. }
  destruct preferred as [p|].
  - rewrite (Hname p eq_refl) in H.
    destruct (first_index _ 0 devs) as [i0|] eqn:E; [|discriminate].
    injection H as ->. apply (Hgoal _ E).
    intros d Hd. unfold name_matches in Hd. apply andb_true_iff in Hd.
    apply Z.gtb_lt, Hd.
  - destruct (first_index _ 0 devs) as [i0|] eqn:E; [|discriminate].
    injection H as ->. apply (Hgoal _ E).
    intros d Hd. apply Z.gtb_lt, Hd.
Qed.

(** X2: when the selector is absent or is a name (not an index), every index
    [pick_input_device] returns lies within the device listing and belongs
    to a device with at least one input channel. *)
Theorem picked_device_can_record (devs : list Device)
    (check_input_settings : Z -> result unit) (preferred : option selector)
    (i : Z) :
  (forall p, preferred = Some p -> is_index p = false) ->
  pick_input_device devs check_input_settings preferred = Ok i ->
  exists d,
    0 <= i < Z.of_nat (List.length devs) /\
    nth_error devs (Z.to_nat i) = Some d /\
    0 < max_input_channels d.
Proof. apply picked_index_valid. Qed.

Lemma picked_device_can_record_witness :
  (forall p, Some (SelStr "usb") = Some p -> is_index p = false) /\
  exists d,
    0 <= 3 < Z.of_nat (List.length usb_host) /\
    nth_error usb_host (Z.to_nat 3) = Some d /\
    0 < max_input_channels d.
Proof.
  assert (Hname : forall p, Some (SelStr "usb") = Some p -> is_index p = false)
    by (intros p [= <-]; reflexivity).
  split; [exact Hname|].
  exact (picked_device_can_record usb_host (check_against usb_host)
           (Some (SelStr "usb")) 3 Hname eq_refl).
Defined.

(** X3: resolution by name ignores the letter case of the selector: two
    selectors that are not indices and agree once lower-cased resolve to
    the same device, and fail together. *)
Theorem selector_case_is_ignored (devs : list Device)
    (check_input_settings : Z -> result unit) (s s' : string) :
  isdigit s = false -> isdigit s' = false -> lower s = lower s' ->
  (forall i,
      pick_input_device devs check_input_settings (Some (SelStr s)) = Ok i <->
      pick_input_device devs check_input_settings (Some (SelStr s')) = Ok i) /\
  ((exists e, pick_input_device devs check_input_settings (Some (SelStr s)) = Raise e)
   <->
   (exists e, pick_input_device devs check_input_settings (Some (SelStr s')) = Raise e)).
Proof.
  intros Hs Hs' Hlow. unfold pick_input_device. cbn [is_index str].
  rewrite Hs, Hs', Hlow.
  destruct (first_index (name_matches (lower s')) 0 devs) as [i0|].
  - split; [intros i; reflexivity|].
    split; intros [e H]; discriminate.
  - split; [intros i; split; discriminate|].
    split; intros _; eexists; reflexivity.
Qed.

Lemma selector_case_is_ignored_witness :
  isdigit "USB mic" = false /\ isdigit "usb MIC" = false /\
  lower "USB mic" = lower "usb MIC" /\
  pick_input_device usb_host (check_against usb_host) (Some (SelStr "USB mic")) = Ok 3 /\
  pick_input_device usb_host (check_against usb_host) (Some (SelStr "usb MIC")) = Ok 3.
Proof.
  split; [reflexivity|]. split; [reflexivity|]. split; [reflexivity|].
  split; [reflexivity|].
  exact (proj1 (proj1 (selector_case_is_ignored usb_host (check_against usb_host)
                         "USB mic" "usb MIC" eq_refl eq_refl eq_refl) 3)
               eq_refl).
Defined.

(** X4: the empty selector (the option given as an empty string) is not
    [None], yet it selects as no selector does: the first device with an
    input channel. The two differ only in the message of the error raised
    when no device can record. *)
Theorem empty_selector_auto_picks (devs : list Device)
    (check_input_settings : Z -> result unit) :
  (forall i,
      pick_input_device devs check_input_settings (Some (SelStr "")) = Ok i <->
      pick_input_device devs check_input_settings None = Ok i) /\
  (pick_input_device devs check_input_settings (Some (SelStr ""))
     = Raise (RuntimeError "Requested device '' not found or not input-capable.")
   <->
   pick_input_device devs check_input_settings None
     = Raise (RuntimeError "No input-capable audio device found.")).
Proof.
  unfold pick_input_device. cbn [is_index str isdigit lower].
  assert (E : first_index (name_matches "") 0 devs
              = first_index input_capable 0 devs).
  { apply first_index_ext. intros d _. unfold name_matches.
    rewrite contains_empty. apply andb_true_r. }
  rewrite E. destruct (first_index input_capable 0 devs) as [i0|].
  - split; [intros i; reflexivity|]. split; discriminate.
  - split; [intros i; split; discriminate|]. split; reflexivity.
Qed.

(** ** The energy classifier on arbitrary blocks *)

Lemma int16_pairs_parity (b : bytes) :
  match int16_pairs b with
  | Some xs => List.length b = (2 * List.length xs)%nat
  | None => Nat.odd (List.length b) = true
  end.
Proof.
  induction b as [| x | lo hi r IH] using pairs_ind.
  - reflexivity.
  - reflexivity.
  - cbn [int16_pairs]. destruct (int16_pairs r) as [xs|].
    + cbn [List.length]. lia.
    + cbn [List.length]. rewrite Nat.odd_succ_succ. exact IH.
Qed.

Lemma frombuffer_even (b : bytes) :
  Nat.even (List.length b) = true ->
  exists arr, frombuffer b = Ok arr /\ List.length b = (2 * List.length arr)%nat.
Proof.
  intros Hev. unfold frombuffer. pose proof (int16_pairs_parity b) as H.
  destruct (int16_pairs b) as [xs|].
  - exists xs. auto.
  - exfalso. unfold Nat.odd in H. rewrite Hev in H. discriminate.
Qed.

Lemma frombuffer_odd (b : bytes) :
  Nat.odd (List.length b) = true ->
  frombuffer b = Raise (ValueError "buffer size must be a multiple of element size").
Proof.
  intros Hodd. unfold frombuffer. pose proof (int16_pairs_parity b) as H.
  destruct (int16_pairs b) as [xs|]; [|reflexivity].
  exfalso. rewrite H in Hodd.
  rewrite Nat.odd_mul in Hodd. discriminate.
Qed.

Lemma mean_gt_threshold (xs : list Z) :
  xs <> [] ->
  Qgt_bool (mean xs) THRESH = (300 * Z.of_nat (List.length xs) <? sumZ xs).
Proof.
  intros Hne. destruct (mean_compare xs 300 Hne) as [Hlt _].
  change THRESH with (inject_Z 300).
  destruct (Z.ltb_spec (300 * Z.of_nat (List.length xs)) (sumZ xs)) as [H|H].
  - apply Qgt_bool_iff, Hlt, H.
  - destruct (Qgt_bool (mean xs) (inject_Z 300)) eqn:E; [|reflexivity].
    apply Qgt_bool_iff, Hlt in E. lia.
Qed.

(** X5: on a block of an even, non-zero number of bytes the energy
    classifier answers an integer question: whether the sum of the samples'
    int16 absolute values is strictly more than 300 times their number. A
    mean of exactly 300 is therefore non-speech. Where no sample is -32768
    the int16 absolute values are the true ones. *)
Theorem energy_classifier_integer_test (b : bytes) (arr : list Z) :
  frombuffer b = Ok arr -> arr <> [] ->
  is_speech_chunk_rms b
    = Ok (300 * Z.of_nat (List.length arr) <? sumZ (map abs16 arr)) /\
  ((forall x, In x arr -> x <> -32768) ->
   sumZ (map abs16 arr) = sumZ (map Z.abs arr)) /\
  ((mean (map abs16 arr) == 300)%Q -> is_speech_chunk_rms b = Ok false).
Proof.
  intros Harr Hne.
  assert (Hne' : map abs16 arr <> []) by (destruct arr; [congruence | discriminate]).
  assert (Hcls : is_speech_chunk_rms b
                 = Ok (300 * Z.of_nat (List.length arr) <? sumZ (map abs16 arr))).
  { unfold is_speech_chunk_rms. rewrite Harr. cbn [bind].
    destruct arr as [|x arr]; [congruence|].
    change (List.length (x :: arr) =? 0)%nat with false. cbv iota.
    rewrite mean_gt_threshold by exact Hne'. rewrite length_map. reflexivity. }
  split; [exact Hcls|]. split.
  - intros Hclip. f_equal. apply map_ext_in. intros x Hx.
    apply abs16_unclipped.
    pose proof (frombuffer_range _ _ Harr) as Hr.
    rewrite Forall_forall in Hr. specialize (Hr x Hx). unfold int16_range in Hr.
    specialize (Hclip x Hx). lia.
  - intros Hmean. rewrite Hcls. f_equal.
    destruct (mean_compare _ 300 Hne') as [_ Heq].
    apply Heq in Hmean. rewrite length_map in Hmean.
    apply Z.ltb_ge. lia.
Qed.

Lemma energy_classifier_integer_test_witness :
  frombuffer speech_block = Ok (repeat 400 240) /\ repeat 400 240 <> [] /\
  is_speech_chunk_rms speech_block
    = Ok (300 * Z.of_nat (List.length (repeat 400 240))
          <? sumZ (map abs16 (repeat 400 240))).
Proof.
  assert (Harr : frombuffer speech_block = Ok (repeat 400 240))
    by (vm_compute; reflexivity).
  assert (Hne : repeat 400 240 <> []) by discriminate.
  split; [exact Harr|]. split; [exact Hne|].
  exact (proj1 (energy_classifier_integer_test speech_block (repeat 400 240)
                  Harr Hne)).
Defined.

(** X6: the energy classifier returns a decision on every block of even
    length and raises ValueError on every block of odd length; with this
    classifier an odd-length block ends the loop in whatever state it is,
    with nothing written and the variables untouched. *)
Theorem odd_block_raises (b : bytes) :
  (Nat.even (List.length b) = true -> exists v, is_speech_chunk_rms b = Ok v) /\
  (Nat.odd (List.length b) = true ->
   is_speech_chunk_rms b
     = Raise (ValueError "buffer size must be a multiple of element size") /\
   forall silence_ms samplerate AUDIO_DIR utc_offset st tk rest,
     block tk = b ->
     loop is_speech_chunk_rms silence_ms samplerate AUDIO_DIR utc_offset st
          (Frame tk :: rest)
     = {| final := st; clips := []; consumed := 1;
          outcome := Died (ValueError
                             "buffer size must be a multiple of element size") |}).
Proof.
  split.
  - intros Hev. destruct (frombuffer_even b Hev) as (arr & Harr & _).
    unfold is_speech_chunk_rms. rewrite Harr. cbn [bind].
    destruct (List.length arr =? 0)%nat; eexists; reflexivity.
  - intros Hodd.
    assert (Hraise : is_speech_chunk_rms b
                     = Raise (ValueError "buffer size must be a multiple of element size")).
    { unfold is_speech_chunk_rms. rewrite (frombuffer_odd b Hodd). reflexivity. }
    split; [exact Hraise|].
    intros silence_ms samplerate AUDIO_DIR utc_offset st tk rest Hb.
    rewrite loop_frame. unfold step. rewrite Hb, Hraise. reflexivity.
Qed.

(** ** [write_wav]: when it succeeds and what it leaves *)



Lemma le_value_le_bytes_2 (v : Z) :
  0 <= v < 2 ^ 16 -> le_value (le_bytes 2 v) = v.
Proof.
  intros Hv. rewrite le_value_le_bytes. apply Z.mod_small.
  change (256 ^ Z.of_nat 2) with (2 ^ 16). exact Hv.
Qed.

Lemma le_value_le_bytes_4 (v : Z) :
  0 <= v < 2 ^ 32 -> le_value (le_bytes 4 v) = v.
Proof.
  intros Hv. rewrite le_value_le_bytes. apply Z.mod_small.
  change (256 ^ Z.of_nat 4) with (2 ^ 32). exact Hv.
Qed.

(** X8: a file [write_wav] has written is the 44-byte canonical PCM header
    followed by the samples: it starts with "RIFF", its length fields are
    36 + 2n and 2n for n samples, the format is 1 (PCM), the byte rate is
    twice the sample rate, the block alignment is 2, and reading the data
    section back as int16 gives the samples that were passed in. *)
Theorem written_wav_layout (disk : option exn) (path : string)
    (audio : list Z) (samplerate : Z) (file : bytes) :
  write_wav disk path audio samplerate = Ok file ->
  Forall int16_range audio ->
  let n := Z.of_nat (List.length audio) in
  List.length file = (44 + 2 * List.length audio)%nat /\
  firstn 4 file = tag "RIFF" /\
  field file 4 4 = 36 + 2 * n /\
  firstn 8 (skipn 8 file) = tag "WAVEfmt " /\
  field file 20 2 = 1 /\
  field file 28 4 = 2 * samplerate /\
  field file 32 2 = 2 /\
  firstn 4 (skipn 36 file) = tag "data" /\
  header_data_length file = 2 * n /\
  frombuffer (skipn 44 file) = Ok audio.
Proof.
  intros H Hrange n. apply write_wav_inv in H. cbv zeta in H.
  destruct H as (_ & Hpos & Hrate & Hlen & ->).
  rewrite tobytes_length in Hlen.
  assert (Hn : Z.of_nat (List.length (tobytes audio)) = 2 * n)
    by (rewrite tobytes_length; subst n; lia).
  rewrite Hn.
  assert (E4 : forall v rest, le_bytes 4 v ++ rest =
      byte_of_Z v :: byte_of_Z (v / 256) :: byte_of_Z (v / 256 / 256)
      :: byte_of_Z (v / 256 / 256 / 256) :: rest) by reflexivity.
  assert (E2 : forall v rest, le_bytes 2 v ++ rest =
      byte_of_Z v :: byte_of_Z (v / 256) :: rest) by reflexivity.
  assert (T : forall a b c d rest,
      tag (String a (String b (String c (String d EmptyString)))) ++ rest =
      byte_of_ascii a :: byte_of_ascii b :: byte_of_ascii c :: byte_of_ascii d :: rest)
    by reflexivity.
  pose proof le_value_le_bytes_4 as V4. cbn [le_bytes le_value] in V4.
  unfold header_data_length, field.
  rewrite !E4, !E2, !T.
  cbn [skipn firstn le_value List.length].
  split; [rewrite tobytes_length; lia|].
  split; [reflexivity|].
  split; [apply V4; subst n; lia|].
  split; [reflexivity|].
  split; [vm_compute; reflexivity|].
  split; [apply V4; lia|].
  split; [vm_compute; reflexivity|].
  split; [reflexivity|].
  split; [apply V4; subst n; lia|].
  apply frombuffer_tobytes, Hrange.
Qed.

Lemma written_wav_layout_witness :
  write_wav None "" [1; -2; 32767; -32768] 16000
    = Ok (wav_of [1; -2; 32767; -32768] 16000) /\
  Forall int16_range [1; -2; 32767; -32768] /\
  List.length (wav_of [1; -2; 32767; -32768] 16000) = 52%nat /\
  frombuffer (skipn 44 (wav_of [1; -2; 32767; -32768] 16000))
    = Ok [1; -2; 32767; -32768].
Proof.
  assert (Hw : write_wav None "" [1; -2; 32767; -32768] 16000
               = Ok (wav_of [1; -2; 32767; -32768] 16000)) by reflexivity.
  assert (Hr : Forall int16_range [1; -2; 32767; -32768])
    by (repeat constructor; unfold int16_range; lia).
  split; [exact Hw|]. split; [exact Hr|].
  destruct (written_wav_layout None "" [1; -2; 32767; -32768] 16000 _ Hw Hr)
    as (Hlen & _ & _ & _ & _ & _ & _ & _ & _ & Hdata).
  split; [exact Hlen | exact Hdata].
Defined.

(** ** Whole runs of the capture loop *)

Section LoopMore.

Variable is_speech_chunk : bytes -> result bool.
Variable silence_ms samplerate : Z.
Variable AUDIO_DIR : string.
Variable utc_offset : Z.

Local Abbreviation step_ := (step is_speech_chunk silence_ms samplerate AUDIO_DIR utc_offset).
Local Abbreviation loop_ := (loop is_speech_chunk silence_ms samplerate AUDIO_DIR utc_offset).

(** X9: Ctrl+C while the loop waits ends it at once: the clips are those
    already written, whatever is in the buffer is dropped without being
    written, and no event after the interrupt has any effect. *)
Theorem interrupt_discards_recording (pre rest : list event) (st s : state)
    (cs : list saved) (n : nat) :
  loop_ st pre = {| final := s; clips := cs; consumed := n; outcome := Waiting |} ->
  loop_ st (pre ++ KeyboardInterrupt :: rest)
  = {| final := s; clips := cs; consumed := n; outcome := Bye |}.
Proof.
  revert st cs n. induction pre as [|ev pre IH]; intros st cs n Hrun.
  - cbn [loop] in Hrun. injection Hrun as -> <- <-. reflexivity.
  - destruct ev as [tk | dt |].
    + cbn [app]. rewrite loop_frame in *.
      destruct (step_ st tk) as [st1 eff].
      destruct (loop_ st1 pre) as [fr cr nr outr] eqn:Er.
      destruct eff as [| g | e]; cbn [final clips consumed outcome] in Hrun;
        try discriminate;
        injection Hrun as -> <- <- ->;
        rewrite (IH st1 cr nr Er); reflexivity.
    + cbn [app loop] in *. apply IH, Hrun.
    + cbn [loop] in Hrun. discriminate.
Qed.

(** X10: a stream in which no block is classified speech leaves an idle
    loop exactly as it was, however long the stream: every block is
    consumed, none is decoded or buffered, and no clip is written. *)
Theorem silent_stream_writes_nothing (ticks : list tick) (st : state) :
  recording st = false ->
  Forall (fun tk => is_speech_chunk (block tk) = Ok false) ticks ->
  loop_ st (map Frame ticks)
  = {| final := st; clips := []; consumed := List.length ticks;
       outcome := Waiting |}.
Proof.
  intros Hrec Hall. induction Hall as [|tk ticks Htk _ IH]; [reflexivity|].
  cbn [map]. rewrite loop_frame.
  rewrite (step_discards is_speech_chunk silence_ms samplerate AUDIO_DIR
             utc_offset st tk Htk Hrec).
  rewrite IH. reflexivity.
Qed.

Lemma speech_keeps_recording (st : state) (tk : tick) (arr : list Z) :
  is_speech_chunk (block tk) = Ok true ->
  frombuffer (block tk) = Ok arr ->
  ((now_check tk - now_voice tk) * 1000 <= inject_Z silence_ms)%Q ->
  step_ st tk = (appended (on_speech st (now_voice tk)) arr, Quiet).
Proof.
  intros Hsp Harr Hlat.
  apply (step_appends is_speech_chunk silence_ms samplerate AUDIO_DIR utc_offset
           st tk true arr Hsp Harr); [reflexivity|].
  cbn [heard on_speech last_voice_ts]. unfold silence_elapsed.
  apply andb_false_iff. right. apply Qgt_bool_false_iff, Hlat.
Qed.

Lemma speech_run_grows (ticks : list tick) (arrs : list (list Z)) (st : state) :
  Forall2 (fun tk arr =>
             is_speech_chunk (block tk) = Ok true /\
             frombuffer (block tk) = Ok arr /\
             ((now_check tk - now_voice tk) * 1000 <= inject_Z silence_ms)%Q)
          ticks arrs ->
  let r := loop_ st (map Frame ticks) in
  clips r = [] /\ outcome r = Waiting /\ consumed r = List.length ticks /\
  (ticks <> [] ->
   recording (final r) = true /\
   buf (final r) = (if recording st then buf st else []) ++ arrs).
Proof.
  intros HF. revert st.
  induction HF as [|tk arr ticks arrs (Hsp & Harr & Hlat) HF IH]; intros st.
  - cbn [map loop final clips consumed outcome List.length].
    split; [reflexivity|]. split; [reflexivity|]. split; [reflexivity|].
    intros H. congruence.
  - cbn [map]. cbv zeta. rewrite loop_frame.
    rewrite (speech_keeps_recording st tk arr Hsp Harr Hlat).
    specialize (IH (appended (on_speech st (now_voice tk)) arr)).
    cbv zeta in IH. destruct IH as (Hc & Ho & Hn & Hfin).
    cbn [final clips consumed outcome clips_of app List.length].
    split; [exact Hc|]. split; [exact Ho|]. split; [rewrite Hn; reflexivity|].
    intros _. destruct ticks as [|tk' ticks].
    + inversion HF; subst. cbn [map loop final appended on_speech recording buf].
      split; reflexivity.
    + destruct Hfin as [Hr Hb]; [discriminate|].
      split; [exact Hr|]. rewrite Hb.
      cbn [appended on_speech recording buf]. rewrite <- app_assoc. reflexivity.
Qed.

(** X11: while every block is classified speech (and each iteration takes
    no longer than [silence_ms] between its two clock readings), the loop
    never writes a clip: after n such blocks the buffer holds all n, in
    order. Nothing bounds the length of a recording. *)
Theorem continuous_speech_never_finalizes (ticks : list tick)
    (arrs : list (list Z)) :
  Forall2 (fun tk arr =>
             is_speech_chunk (block tk) = Ok true /\
             frombuffer (block tk) = Ok arr /\
             ((now_check tk - now_voice tk) * 1000 <= inject_Z silence_ms)%Q)
          ticks arrs ->
  ticks <> [] ->
  let r := loop_ initial (map Frame ticks) in
  clips r = [] /\ outcome r = Waiting /\ consumed r = List.length ticks /\
  recording (final r) = true /\ buf (final r) = arrs /\
  List.length (buf (final r)) = List.length ticks.
Proof.
  intros HF Hne r.
  destruct (speech_run_grows ticks arrs initial HF) as (Hc & Ho & Hn & Hfin).
  destruct (Hfin Hne) as [Hr Hb]. cbn [initial recording app] in Hb.
  fold r in Hc, Ho, Hn, Hr, Hb.
  repeat split; try assumption.
  rewrite Hb. symmetry. apply (Forall2_length HF).
Qed.

Lemma buffered_heard (speech : bool) (st : state) (tk : tick) :
  (recording st = false -> buf st = []) ->
  recording (heard speech st tk) = true ->
  buf (heard speech st tk) = buf st.
Proof.
  intros Hinv Hrec. unfold heard, on_speech in *. destruct speech; [|reflexivity].
  cbn [buf]. destruct (recording st) eqn:E; [reflexivity|].
  symmetry. apply Hinv. reflexivity.
Qed.

Lemma buffered_appended (st1 : state) (tk : tick) (arr : list Z) :
  frombuffer (block tk) = Ok arr ->
  tobytes (List.concat (buf st1 ++ [arr])) = buffered st1 ++ block tk.
Proof.
  intros Harr. unfold buffered.
  rewrite concat_app, tobytes_app. cbn [List.concat]. rewrite app_nil_r.
  rewrite (tobytes_frombuffer _ _ Harr). reflexivity.
Qed.

Lemma kept_blocks (ticks : list tick) (st : state) :
  (recording st = false -> buf st = []) ->
  outcome (loop_ st (map Frame ticks)) = Waiting ->
  exists mask,
    Forall2 (fun (m : bool) tk => is_speech_chunk (block tk) = Ok true -> m = true)
            mask ticks /\
    buffered st ++ List.concat (map block (select mask ticks))
    = List.concat (map clip_data (clips (loop_ st (map Frame ticks))))
      ++ buffered (final (loop_ st (map Frame ticks))).
Proof.
  revert st. induction ticks as [|tk ticks IH]; intros st Hinv Hout.
  - exists []. split; [constructor|]. cbn. rewrite app_nil_r. reflexivity.
  - cbn [map] in *. rewrite loop_frame in *.
    destruct (step_ st tk) as [st' eff] eqn:Hstep.
    destruct eff as [| f | e]; cbn [final clips consumed outcome clips_of app] in *;
      [| | discriminate].
    + apply step_quiet in Hstep.
      destruct Hstep as (speech & Hsp & [[Hrec ->] | (Hrec & arr & Harr & _ & ->)]).
      * assert (speech = false) as ->
          by (destruct speech; [discriminate Hrec | reflexivity]).
        destruct (IH st Hinv Hout) as (mask & HF & Heq).
        exists (false :: mask). split; [|exact Heq].
        constructor; [intros H; congruence | exact HF].
      * destruct (IH (appended (heard speech st tk) arr)) as (mask & HF & Heq);
          [discriminate | exact Hout |].
        exists (true :: mask). split; [constructor; [reflexivity | exact HF]|].
        rewrite <- Heq. cbn [select map List.concat].
        unfold buffered at 2. cbn [appended buf].
        rewrite (buffered_appended _ tk arr Harr).
        unfold buffered. rewrite (buffered_heard speech st tk Hinv Hrec).
        rewrite <- app_assoc. reflexivity.
    + apply step_saved in Hstep.
      destruct Hstep as (speech & arr & Hsp & Harr & Hrec & _ & Hw & _ & ->).
      destruct (IH (idle_after (last_voice_ts (heard speech st tk))))
        as (mask & HF & Heq); [reflexivity | exact Hout |].
      exists (true :: mask). split; [constructor; [reflexivity | exact HF]|].
      cbn [select map List.concat]. rewrite <- app_assoc, <- Heq.
      apply write_wav_data in Hw. destruct Hw as [Hdata _].
      unfold clip_data. rewrite Hdata, (buffered_appended _ tk arr Harr).
      unfold buffered. rewrite (buffered_heard speech st tk Hinv Hrec).
      cbn [idle_after buf List.concat tobytes app].
      rewrite <- app_assoc. reflexivity.
Qed.

(** X12: in a run that is still going, the data of the clips written so far
    followed by the bytes still buffered are the consumed blocks in arrival
    order with some blocks left out, and no block classified speech is ever
    left out: nothing is duplicated or reordered, and only non-speech is
    dropped. *)
Theorem no_speech_block_is_lost (ticks : list tick) :
  outcome (loop_ initial (map Frame ticks)) = Waiting ->
  exists mask,
    Forall2 (fun (m : bool) tk => is_speech_chunk (block tk) = Ok true -> m = true)
            mask ticks /\
    List.concat (map block (select mask ticks))
    = List.concat (map clip_data (clips (loop_ initial (map Frame ticks))))
      ++ buffered (final (loop_ initial (map Frame ticks))).
Proof.
  intros Hout.
  destruct (kept_blocks ticks initial) as (mask & HF & Heq);
    [reflexivity | exact Hout |].
  exists mask. split; [exact HF | exact Heq].
Qed.

Lemma clips_bounded (ticks : list tick) (st : state) :
  (List.length (clips (loop_ st (map Frame ticks)))
   <= (if recording st then 1 else 0)
      + List.length (filter (classified_speech is_speech_chunk) ticks))%nat.
Proof.
  revert st. induction ticks as [|tk ticks IH]; intros st.
  - cbn. lia.
  - cbn [map filter]. rewrite loop_frame.
    destruct (step_ st tk) as [st' eff] eqn:Hstep.
    specialize (IH st').
    assert (Hopen : forall speech,
               is_speech_chunk (block tk) = Ok speech ->
               recording (heard speech st tk) = true ->
               (1 <= (if recording st then 1 else 0)
                     + (if classified_speech is_speech_chunk tk then 1 else 0))%nat).
    { intros speech Hsp Hrec. unfold classified_speech. rewrite Hsp.
      unfold heard in Hrec. destruct speech; [lia|]. rewrite Hrec. lia. }
    destruct eff as [| f | e]; cbn [clips clips_of app List.length].
    + apply step_quiet in Hstep.
      destruct Hstep as (speech & Hsp & [[Hrec ->] | (Hrec & arr & _ & _ & ->)]).
      * rewrite Hrec in IH.
        destruct (classified_speech is_speech_chunk tk); cbn [List.length]; lia.
      * specialize (Hopen speech Hsp Hrec). cbn [appended recording] in IH.
        destruct (classified_speech is_speech_chunk tk); cbn [List.length]; lia.
    + apply step_saved in Hstep.
      destruct Hstep as (speech & arr & Hsp & _ & Hrec & _ & _ & _ & ->).
      specialize (Hopen speech Hsp Hrec). cbn [idle_after recording] in IH.
      destruct (classified_speech is_speech_chunk tk); cbn [List.length]; lia.
    + lia.
Qed.

(** X13: a run never writes more clips than it has consumed blocks
    classified speech: every clip is paid for by at least one speech block
    of its own. *)
Theorem clips_need_speech (ticks : list tick) :
  (List.length (clips (loop_ initial (map Frame ticks)))
   <= List.length (filter (classified_speech is_speech_chunk) ticks))%nat.
Proof.
  pose proof (clips_bounded ticks initial) as H. exact H.
Qed.

End LoopMore.

(** Two blocks into a recording, Ctrl+C: no clip. *)
Lemma interrupt_discards_recording_witness :
  late_loop initial (firstn 2 late_events)
  = {| final := {| buf := [repeat 400 240; repeat 0 240];
                   last_voice_ts := Some 1700000000%Q;
                   recording := true |};
       clips := []; consumed := 2; outcome := Waiting |} /\
  clips (late_loop initial (firstn 2 late_events
                            ++ KeyboardInterrupt :: skipn 2 late_events)) = [] /\
  outcome (late_loop initial (firstn 2 late_events
                              ++ KeyboardInterrupt :: skipn 2 late_events)) = Bye.
Proof.
  assert (Hrun : late_loop initial (firstn 2 late_events)
                 = {| final := {| buf := [repeat 400 240; repeat 0 240];
                                  last_voice_ts := Some 1700000000%Q;
                                  recording := true |};
                      clips := []; consumed := 2; outcome := Waiting |})
    by (vm_compute; reflexivity).
  split; [exact Hrun|]. unfold late_loop in *.
  rewrite (interrupt_discards_recording is_speech_chunk_rms 1500 16000
             "/mnt/wodehouse_data/shared/audio" 0
             (firstn 2 late_events) (skipn 2 late_events) initial _ _ _ Hrun).
  split; reflexivity.
Defined.

Lemma silent_stream_writes_nothing_witness :
  recording initial = false /\
  Forall (fun tk => is_speech_chunk_rms (block tk) = Ok false)
         [at_time silent_block 1; at_time silent_block 2] /\
  late_loop initial (map Frame [at_time silent_block 1; at_time silent_block 2])
  = {| final := initial; clips := []; consumed := 2; outcome := Waiting |}.
Proof.
  assert (Hall : Forall (fun tk => is_speech_chunk_rms (block tk) = Ok false)
                        [at_time silent_block 1; at_time silent_block 2])
    by (repeat constructor; vm_compute; reflexivity).
  split; [reflexivity|]. split; [exact Hall|].
  exact (silent_stream_writes_nothing is_speech_chunk_rms 1500 16000
           "/mnt/wodehouse_data/shared/audio" 0 _ initial eq_refl Hall).
Defined.

Lemma continuous_speech_never_finalizes_witness :
  [at_time speech_block 1700000000; at_time speech_block 1700000001] <> [] /\
  clips (late_loop initial
           (map Frame [at_time speech_block 1700000000;
                       at_time speech_block 1700000001])) = [] /\
  buf (final (late_loop initial
                (map Frame [at_time speech_block 1700000000;
                            at_time speech_block 1700000001])))
  = [repeat 400 240; repeat 400 240].
Proof.
  assert (Hne : [at_time speech_block 1700000000; at_time speech_block 1700000001]
                <> []) by discriminate.
  assert (HF : Forall2 (fun tk arr =>
                          is_speech_chunk_rms (block tk) = Ok true /\
                          frombuffer (block tk) = Ok arr /\
                          ((now_check tk - now_voice tk) * 1000 <= inject_Z 1500)%Q)
                       [at_time speech_block 1700000000;
                        at_time speech_block 1700000001]
                       [repeat 400 240; repeat 400 240]).
  { repeat constructor; try (vm_compute; reflexivity);
      vm_compute; intros H; discriminate H. }
  split; [exact Hne|].
  destruct (continuous_speech_never_finalizes is_speech_chunk_rms 1500 16000
              "/mnt/wodehouse_data/shared/audio" 0 _ _ HF Hne)
    as (Hc & _ & _ & _ & Hb & _).
  split; [exact Hc | exact Hb].
Defined.

Lemma no_speech_block_is_lost_witness :
  outcome (late_loop initial (map Frame late_ticks)) = Waiting /\
  exists mask,
    Forall2 (fun (m : bool) tk => is_speech_chunk_rms (block tk) = Ok true -> m = true)
            mask late_ticks /\
    List.concat (map block (select mask late_ticks))
    = List.concat (map clip_data (clips (late_loop initial (map Frame late_ticks))))
      ++ buffered (final (late_loop initial (map Frame late_ticks))).
Proof.
  assert (Hout : outcome (late_loop initial (map Frame late_ticks)) = Waiting)
    by (vm_compute; reflexivity).
  split; [exact Hout|].
  exact (no_speech_block_is_lost is_speech_chunk_rms 1500 16000
           "/mnt/wodehouse_data/shared/audio" 0 late_ticks Hout).
Defined.

(** ** Start-up of [main] *)

Lemma block_size_of_quot (samplerate block_ms : Z) :
  block_size_of samplerate block_ms = Z.quot (samplerate * block_ms) 1000.
Proof.
  unfold block_size_of, int_of_float, Qdiv, Qmult, Qinv, inject_Z.
  cbn [Qnum Qden]. rewrite Z.mul_1_r. reflexivity.
Qed.

Lemma resolve_samplerate_nonzero (r : Z) (dev_info : Device) :
  resolve_samplerate r dev_info <> 0.
Proof.
  unfold resolve_samplerate.
  destruct (Z.eqb_spec (int_of_float
             (if r =? 0 then default (16000 : Q) (default_samplerate dev_info)
              else inject_Z r)) 0) as [|Hne]; [discriminate | exact Hne].
Qed.

(** X14: when [main] reaches the capture loop, the command line was
    accepted without --list-devices, the device is the one
    [pick_input_device] returned for the --device string and is an index
    into the device listing, the sample rate is not 0, and, the product
    samplerate * block_ms being below 2^53 in absolute value, the block
    size is its integer quotient by 1000 (480 samples at 16 kHz and 30 ms).
    Line 117 divides in binary64: below 2^53 the rounded quotient has the
    same integer part as the exact one; above, it need not. *)
Theorem capture_starts_with_valid_settings (devs : list Device)
    (check_input_settings : Z -> result unit) (c : cmdline)
    (device rate block_size : Z) (a : args.t) :
  main_startup devs check_input_settings c = Capturing device rate block_size a ->
  parse_args c = Some a /\
  flag_list_devices c = false /\
  pick_input_device devs check_input_settings (option_map SelStr (opt_device c))
    = Ok device /\
  0 <= device < Z.of_nat (List.length devs) /\
  rate <> 0 /\
  (Z.abs (rate * default 30 (opt_block_ms c)) < 2 ^ 53 ->
   block_size = Z.quot (rate * default 30 (opt_block_ms c)) 1000).
Proof.
  unfold main_startup. destruct (parse_args c) as [a0|] eqn:Ea; [|discriminate].
  assert (Hargs : args.list_devices a0 = flag_list_devices c /\
                  args.device a0 = opt_device c /\
                  args.block_ms a0 = default 30 (opt_block_ms c)).
  { unfold parse_args in Ea. destruct (_ && _) in Ea; [|discriminate].
    injection Ea as <-. cbn. auto. }
  destruct Hargs as (Hl & Hd & Hb). rewrite Hl, Hd.
  destruct (flag_list_devices c); [discriminate|].
  destruct (pick_input_device _ _ _) as [dev|]; [|discriminate].
  destruct (Z.ltb_spec dev 0) as [|Hpos]; [discriminate|].
  destruct (nth_error devs (Z.to_nat dev)) as [info|] eqn:E; [|discriminate].
  intros [= <- <- <- <-].
  assert (Hlt : (Z.to_nat dev < List.length devs)%nat)
    by (apply nth_error_Some; congruence).
  repeat split; try lia.
  - apply resolve_samplerate_nonzero.
  - intros _. rewrite block_size_of_quot, Hb. reflexivity.
Qed.

Lemma capture_starts_with_valid_settings_witness :
  main_startup usb_host (check_against usb_host) (with_device "usb" unset)
    = Capturing 3 16000 480
        {| args.device := Some "usb"%string; args.aggressiveness := 2;
           args.silence_ms := 1500; args.samplerate := 16000;
           args.block_ms := 30; args.list_devices := false |} /\
  0 <= 3 < Z.of_nat (List.length usb_host) /\
  Z.abs (16000 * default 30 (opt_block_ms (with_device "usb" unset))) < 2 ^ 53 /\
  480 = Z.quot (16000 * default 30 (opt_block_ms (with_device "usb" unset))) 1000.
Proof.
  split; [reflexivity|].
  destruct (capture_starts_with_valid_settings usb_host (check_against usb_host)
              (with_device "usb" unset) 3 16000 480 _ eq_refl)
    as (_ & _ & _ & Hrange & _ & Hbs).
  split; [exact Hrange|].
  split; [reflexivity | apply Hbs; reflexivity].
Defined.

(** X15: how [main] ends before capturing. An aggressiveness outside 0..3
    is rejected by argparse; with --list-devices it lists and returns
    without resolving any device, whatever the selector and the listing;
    otherwise an error of [pick_input_device] becomes the exit with status
    1. When the selector is absent or a name, a resolved device is always
    found again by sd.query_devices: [main] either exits in one of these
    ways or captures. *)
Theorem startup_exits (devs : list Device)
    (check_input_settings : Z -> result unit) (c : cmdline) :
  (main_startup devs check_input_settings c = ArgparseExit <->
   exists a, opt_aggressiveness c = Some a /\ (a < 0 \/ 3 < a)) /\
  (parse_args c <> None -> flag_list_devices c = true ->
   main_startup devs check_input_settings c = ListedDevices) /\
  (parse_args c <> None -> flag_list_devices c = false ->
   forall e,
     pick_input_device devs check_input_settings
                       (option_map SelStr (opt_device c)) = Raise e <->
     main_startup devs check_input_settings c = DeviceErrorExit e) /\
  ((forall s, opt_device c = Some s -> isdigit s = false) ->
   main_startup devs check_input_settings c <> QueryFailed).
Proof.
  assert (Hparse : parse_args c = None <->
                   exists a, opt_aggressiveness c = Some a /\ (a < 0 \/ 3 < a)).
  { unfold parse_args.
    destruct (opt_aggressiveness c) as [a|]; cbn [default].
    - assert (Hout : (0 <=? a) && (a <=? 3) = false <-> a < 0 \/ 3 < a).
      { rewrite andb_false_iff, Z.leb_gt, Z.leb_gt. reflexivity. }
      destruct ((0 <=? a) && (a <=? 3)).
      + split; [discriminate|].
        intros (a' & Ha' & Ha). injection Ha' as <-.
        apply Hout in Ha. discriminate Ha.
      + split; [|reflexivity]. intros _. exists a.
        split; [reflexivity | apply Hout; reflexivity].
    - cbn. split; [discriminate | intros (a & H & _); discriminate]. }
  assert (Hfields : forall a, parse_args c = Some a ->
                              args.list_devices a = flag_list_devices c /\
                              args.device a = opt_device c).
  { intros a Ea. unfold parse_args in Ea. destruct (_ && _) in Ea; [|discriminate].
    injection Ea as <-. cbn. auto. }
  unfold main_startup.
  destruct (parse_args c) as [a|] eqn:Ea.
  - destruct (Hfields a eq_refl) as [Hl Hd]. rewrite Hl, Hd.
    split; [|split; [|split]].
    + split.
      * destruct (flag_list_devices c); [discriminate|].
        destruct (pick_input_device _ _ _); [|discriminate].
        destruct (_ <? 0); [discriminate|].
        destruct (nth_error _ _); discriminate.
      * intros H. apply Hparse in H. discriminate.
    + intros _ ->. reflexivity.
    + intros _ -> e.
      destruct (pick_input_device _ _ _) as [dev|e'].
      * split; [discriminate|].
        destruct (dev <? 0); [discriminate|].
        destruct (nth_error _ _); discriminate.
      * split; intros [= ->]; reflexivity.
    + intros Hname. destruct (flag_list_devices c); [discriminate|].
      destruct (pick_input_device _ _ _) as [dev|e'] eqn:Ep; [|discriminate].
      destruct (picked_index_valid devs check_input_settings
                  (option_map SelStr (opt_device c)) dev) as (d & Hr & Hn & _).
      { intros p Hp. destruct (opt_device c) as [s|]; [|discriminate].
        injection Hp as <-. apply (Hname s eq_refl). }
      { exact Ep. }
      destruct (Z.ltb_spec dev 0); [lia|]. rewrite Hn. discriminate.
  - split; [|split; [|split]].
    + split; [intros _; apply Hparse; reflexivity | reflexivity].
    + intros H. congruence.
    + intros H. congruence.
    + intros _. discriminate.
Qed.

(** * The clip watcher *)

Lemma In_insert (x y : string) (l : list string) :
  In y (capture_and_parse.insert x l) <-> y = x \/ In y l.
Proof.
  induction l as [|z l IH]; cbn [capture_and_parse.insert].
  - cbn. intuition.
  - destruct (String.leb x z); cbn [In]; [intuition|].
    rewrite IH. intuition.
Qed.

Lemma In_sorted (x : string) (l : list string) : In x (capture_and_parse.sorted l) <-> In x l.
Proof.
  induction l as [|y l IH]; [reflexivity|].
  unfold capture_and_parse.sorted in *. cbn [fold_right In]. rewrite In_insert, IH. intuition.
Qed.

Section WatcherFacts.

Import capture_and_parse.

Variable entry : Type.
Variable transcribe : string -> raised + string.
Variable parse_with_llm : string -> raised + entry.
Variable log_entry : entry -> option raised.

Local Abbreviation process_ := (process entry transcribe parse_with_llm log_entry).
Local Abbreviation scan_ := (scan entry transcribe parse_with_llm log_entry).
Local Abbreviation poll_ := (poll entry transcribe parse_with_llm log_entry).
Local Abbreviation watch_ := (watch entry transcribe parse_with_llm log_entry).

Lemma endswith_spec (s suffix : string) :
  endswith s suffix = true <-> exists stem, s = (stem ++ suffix)%string.
Proof.
  induction s as [|c s IH]; cbn [endswith].
  - rewrite orb_false_r, String.eqb_eq. split.
    + intros <-. exists ""%string. reflexivity.
    + intros [stem H]. destruct stem; [exact H | discriminate].
  - rewrite orb_true_iff, String.eqb_eq, IH. split.
    + intros [<- | [stem ->]].
      * exists ""%string. reflexivity.
      * exists (String c stem). reflexivity.
    + intros [stem H]. destruct stem as [|d stem].
      * left. exact H.
      * right. cbn in H. injection H as _ ->. exists stem. reflexivity.
Qed.

Lemma mem_spec (full : string) (seen : list string) :
  mem full seen = true <-> In full seen.
Proof.
  unfold mem. rewrite existsb_exists. split.
  - intros (x & Hin & Heq). apply String.eqb_eq in Heq. subst. exact Hin.
  - intros Hin. exists full. split; [exact Hin | apply String.eqb_refl].
Qed.

Lemma transcribed_app (a b : list (call entry)) :
  transcribed entry (a ++ b) = transcribed entry a ++ transcribed entry b.
Proof.
  induction a as [|c a IH]; [reflexivity|].
  destruct c; cbn [app transcribed]; rewrite IH; reflexivity.
Qed.

Lemma process_transcribes (full : string) :
  transcribed entry (fst (process_ full)) = [full].
Proof.
  unfold process. destruct (transcribe full) as [e|text]; [reflexivity|].
  destruct (blank text); [reflexivity|].
  destruct (parse_with_llm text) as [e|parsed]; [reflexivity|].
  destruct (log_entry parsed); reflexivity.
Qed.

Lemma process_crash (full : string) (e : raised) :
  snd (process_ full) = Some e -> handled e = false.
Proof.
  assert (H : forall e0, uncaught e0 = Some e -> handled e = false).
  { intros e0. unfold uncaught. destruct (handled e0) eqn:E; [discriminate|].
    intros [= <-]. exact E. }
  unfold process. destruct (transcribe full) as [e0|text]; [apply H|].
  destruct (blank text); [discriminate|].
  destruct (parse_with_llm text) as [e0|parsed]; [apply H|].
  destruct (log_entry parsed) as [e0|]; [apply H | discriminate].
Qed.

(** What one pass over the names does to [seen] and which paths it hands
    to the transcriber. *)
Lemma scan_facts (names seen : list string) :
  let p := scan_ seen names in
  incl seen (seen_after p) /\
  NoDup (transcribed entry (calls p)) /\
  (forall full,
      In full (transcribed entry (calls p)) ->
      ~ In full seen /\ In full (seen_after p) /\
      exists fname, In fname names /\ endswith fname ".wav" = true /\
                    full = os_path_join AUDIO_DIR fname) /\
  (forall e, crash p = Some e -> handled e = false) /\
  (crash p = None ->
   forall fname, In fname names -> endswith fname ".wav" = true ->
     In (os_path_join AUDIO_DIR fname) (seen_after p) /\
     (~ In (os_path_join AUDIO_DIR fname) seen ->
      In (os_path_join AUDIO_DIR fname) (transcribed entry (calls p)))).
Proof.
  revert seen. induction names as [|fname names IH]; intros seen; cbv zeta.
  - cbn [scan seen_after calls crash transcribed].
    split; [apply incl_refl|]. split; [constructor|].
    split; [intros full []|]. split; [discriminate|]. intros _ f [].
  - cbn [scan].
    destruct (endswith fname ".wav") eqn:Ewav; cbn [negb].
    + destruct (mem (os_path_join AUDIO_DIR fname) seen) eqn:Emem.
      * destruct (IH seen) as (Hincl & Hnd & Htr & Hcr & Hall).
        split; [exact Hincl|]. split; [exact Hnd|]. split; [|split; [exact Hcr|]].
        -- intros full Hin. destruct (Htr full Hin) as (H1 & H2 & f & Hf & Hw & He).
           split; [exact H1|]. split; [exact H2|].
           exists f. split; [right; exact Hf | auto].
        -- intros Hnone f [<- | Hf] Hw.
           ++ apply mem_spec in Emem. split; [apply Hincl, Emem | contradiction].
           ++ apply (Hall Hnone f Hf Hw).
      * assert (Hnew : ~ In (os_path_join AUDIO_DIR fname) seen)
          by (rewrite <- mem_spec, Emem; discriminate).
        pose proof (process_transcribes (os_path_join AUDIO_DIR fname)) as Hpt.
        pose proof (process_crash (os_path_join AUDIO_DIR fname)) as Hpc.
        destruct (process_ (os_path_join AUDIO_DIR fname)) as [cs [e|]];
          cbn [fst snd] in Hpt, Hpc.
        -- cbn [seen_after calls crash]. rewrite Hpt.
           split; [intros x Hx; right; exact Hx|].
           split; [repeat constructor; intros []|].
           split; [|split; [intros e' [= <-]; apply Hpc; reflexivity | discriminate]].
           intros full [<- | []]. split; [exact Hnew|]. split; [left; reflexivity|].
           exists fname. split; [left; reflexivity | auto].
        -- destruct (IH (os_path_join AUDIO_DIR fname :: seen))
             as (Hincl & Hnd & Htr & Hcr & Hall).
           cbn [seen_after calls crash]. rewrite transcribed_app, Hpt.
           cbn [app].
           split; [intros x Hx; apply Hincl; right; exact Hx|].
           split.
           { constructor; [|exact Hnd]. intros Hin.
             destruct (Htr _ Hin) as (Hn & _). apply Hn. left. reflexivity. }
           split; [|split; [exact Hcr|]].
           ++ intros full [<- | Hin].
              ** split; [exact Hnew|].
                 split; [apply Hincl; left; reflexivity|].
                 exists fname. split; [left; reflexivity | auto].
              ** destruct (Htr full Hin) as (H1 & H2 & f & Hf & Hw & He).
                 split; [intros Hs; apply H1; right; exact Hs|].
                 split; [exact H2|].
                 exists f. split; [right; exact Hf | auto].
           ++ intros Hnone f [<- | Hf] Hw.
              ** split; [apply Hincl; left; reflexivity | intros _; left; reflexivity].
              ** destruct (Hall Hnone f Hf Hw) as [H1 H2].
                 split; [exact H1|]. intros Hs.
                 destruct (string_dec (os_path_join AUDIO_DIR fname)
                                      (os_path_join AUDIO_DIR f)) as [Heq|Hne].
                 --- left. exact Heq.
                 --- right. apply H2. intros [Hx | Hx]; [apply Hne, Hx | apply Hs, Hx].
    + destruct (IH seen) as (Hincl & Hnd & Htr & Hcr & Hall).
      split; [exact Hincl|]. split; [exact Hnd|]. split; [|split; [exact Hcr|]].
      * intros full Hin. destruct (Htr full Hin) as (H1 & H2 & f & Hf & Hw & He).
        split; [exact H1|]. split; [exact H2|].
        exists f. split; [right; exact Hf | auto].
      * intros Hnone f [<- | Hf] Hw; [congruence | apply (Hall Hnone f Hf Hw)].
Qed.

Lemma poll_complete (seen listing : list string) (fname : string) :
  crash (poll_ seen listing) = None ->
  In fname listing -> endswith fname ".wav" = true ->
  In (os_path_join AUDIO_DIR fname) (seen_after (poll_ seen listing)) /\
  (~ In (os_path_join AUDIO_DIR fname) seen ->
   In (os_path_join AUDIO_DIR fname) (transcribed entry (calls (poll_ seen listing)))).
Proof.
  intros Hnone Hin Hw. unfold poll in *.
  destruct (scan_facts (sorted listing) seen) as (_ & _ & _ & _ & Hall).
  apply (Hall Hnone fname); [apply In_sorted, Hin | exact Hw].
Qed.

Lemma watch_facts (listings : list (list string)) (seen : list string) :
  let p := watch_ seen listings in
  incl seen (seen_after p) /\
  NoDup (transcribed entry (calls p)) /\
  (forall full,
      In full (transcribed entry (calls p)) ->
      ~ In full seen /\ In full (seen_after p) /\
      exists listing fname,
        In listing listings /\ In fname listing /\
        endswith fname ".wav" = true /\ full = os_path_join AUDIO_DIR fname) /\
  (forall e, crash p = Some e -> handled e = false).
Proof.
  revert seen. induction listings as [|listing listings IH]; intros seen; cbv zeta.
  - cbn [watch seen_after calls crash transcribed].
    split; [apply incl_refl|]. split; [constructor|].
    split; [intros full []| discriminate].
  - cbn [watch]. unfold poll.
    destruct (scan_facts (sorted listing) seen) as (Hincl & Hnd & Htr & Hcr & _).
    assert (Htr' : forall full,
               In full (transcribed entry (calls (scan_ seen (sorted listing)))) ->
               ~ In full seen /\ In full (seen_after (scan_ seen (sorted listing))) /\
               exists l fname,
                 In l (listing :: listings) /\ In fname l /\
                 endswith fname ".wav" = true /\ full = os_path_join AUDIO_DIR fname).
    { intros full Hin. destruct (Htr full Hin) as (H1 & H2 & f & Hf & Hw & He).
      split; [exact H1|]. split; [exact H2|].
      exists listing, f. split; [left; reflexivity|].
      split; [apply In_sorted, Hf | auto]. }
    destruct (crash (scan_ seen (sorted listing))) as [e|] eqn:Ec.
    + split; [exact Hincl|]. split; [exact Hnd|]. split; [exact Htr'|].
      rewrite Ec. exact Hcr.
    + destruct (IH (seen_after (scan_ seen (sorted listing))))
        as (Hincl2 & Hnd2 & Htr2 & Hcr2).
      cbn [seen_after calls crash]. rewrite transcribed_app.
      split; [intros x Hx; apply Hincl2, Hincl, Hx|].
      split.
      { apply NoDup_app; [exact Hnd | exact Hnd2 |].
        intros x Hx1 Hx2. destruct (Htr x Hx1) as (_ & Hs & _).
        destruct (Htr2 x Hx2) as (Hn & _). apply Hn, Hs. }
      split; [|exact Hcr2].
      intros full Hin. apply in_app_or in Hin. destruct Hin as [Hin | Hin].
      * destruct (Htr' full Hin) as (H1 & H2 & H3).
        split; [exact H1|]. split; [apply Hincl2, H2 | exact H3].
      * destruct (Htr2 full Hin) as (H1 & H2 & l & f & Hl & H3).
        split; [intros Hs; apply H1, Hincl, Hs|]. split; [exact H2|].
        exists l, f. split; [right; exact Hl | exact H3].
Qed.

(** X16: over any succession of polls the watcher hands a path to the
    transcriber at most once, and never one that was already in [seen];
    every path it hands over is in [seen] afterwards. A clip whose
    processing failed is therefore not tried again, and a clip file
    overwritten under the same name is not picked up a second time. *)
Theorem each_clip_is_transcribed_once (seen : list string)
    (listings : list (list string)) :
  NoDup (transcribed entry (calls (watch_ seen listings))) /\
  incl seen (seen_after (watch_ seen listings)) /\
  forall full,
    In full (transcribed entry (calls (watch_ seen listings))) ->
    ~ In full seen /\ In full (seen_after (watch_ seen listings)).
Proof.
  destruct (watch_facts listings seen) as (Hincl & Hnd & Htr & _).
  split; [exact Hnd|]. split; [exact Hincl|].
  intros full Hin. destruct (Htr full Hin) as (H1 & H2 & _). auto.
Qed.

(** X17: the watcher transcribes only files of the audio directory whose
    name, as listed in some poll, ends in ".wav"; and a poll that no
    exception leaves marks every listed ".wav" file as seen and transcribes
    each one that was not seen before. *)
Theorem watcher_takes_every_new_wav (seen : list string)
    (listings : list (list string)) :
  (forall full,
      In full (transcribed entry (calls (watch_ seen listings))) ->
      exists listing stem,
        In listing listings /\ In (stem ++ ".wav")%string listing /\
        full = os_path_join AUDIO_DIR (stem ++ ".wav")) /\
  (forall listing stem,
      crash (poll_ seen listing) = None ->
      In (stem ++ ".wav")%string listing ->
      In (os_path_join AUDIO_DIR (stem ++ ".wav")) (seen_after (poll_ seen listing)) /\
      (~ In (os_path_join AUDIO_DIR (stem ++ ".wav")) seen ->
       In (os_path_join AUDIO_DIR (stem ++ ".wav"))
          (transcribed entry (calls (poll_ seen listing))))).
Proof.
  split.
  - intros full Hin.
    destruct (watch_facts listings seen) as (_ & _ & Htr & _).
    destruct (Htr full Hin) as (_ & _ & l & f & Hl & Hf & Hw & ->).
    apply endswith_spec in Hw. destruct Hw as [stem ->].
    exists l, stem. auto.
  - intros listing stem Hnone Hin.
    apply poll_complete; [exact Hnone | exact Hin |].
    apply endswith_spec. exists stem. reflexivity.
Qed.




End WatcherFacts.

(** ** From the listener to the watcher *)

Lemma clip_name_ends_in_wav (stamp : string) :
  capture_and_parse.endswith ("clip_" ++ stamp ++ ".wav") ".wav" = true.
Proof.
  apply endswith_spec. exists ("clip_" ++ stamp)%string.
  reflexivity.
Qed.

(** X19: a listener writing into the watcher's directory produces only
    files the watcher accepts: every clip it writes is that directory
    joined with a name ending in ".wav", and a poll that lists the name
    and runs to its end has the clip in [seen] afterwards, having
    transcribed it in that very poll unless its path was seen before. The
    watcher's directory is the listener's default one. *)
Theorem clips_reach_the_watcher
    (is_speech_chunk : bytes -> result bool) (silence_ms samplerate utc_offset : Z)
    (evs : list event) (f : saved) :
  In f (clips (loop is_speech_chunk silence_ms samplerate
                    capture_and_parse.AUDIO_DIR utc_offset initial evs)) ->
  capture_and_parse.AUDIO_DIR = "/mnt/wodehouse_data/shared/audio"%string /\
  exists fname,
    path f = os_path_join capture_and_parse.AUDIO_DIR fname /\
    capture_and_parse.endswith fname ".wav" = true /\
    forall (entry : Type) transcribe parse_with_llm log_entry seen listing,
      In fname listing ->
      capture_and_parse.crash
        (capture_and_parse.poll entry transcribe parse_with_llm log_entry
                                seen listing) = None ->
      In (path f)
         (capture_and_parse.seen_after
            (capture_and_parse.poll entry transcribe parse_with_llm log_entry
                                    seen listing)) /\
      (~ In (path f) seen ->
       In (path f)
          (capture_and_parse.transcribed entry
             (capture_and_parse.calls
                (capture_and_parse.poll entry transcribe parse_with_llm
                                        log_entry seen listing)))).
Proof.
  intros Hin. split; [reflexivity|].
  destruct (clips_named_at_finalization is_speech_chunk silence_ms samplerate
              capture_and_parse.AUDIO_DIR utc_offset evs [] initial f)
    as (tk0 & tk & _ & _ & _ & _ & Hpath);
    [intros Hr; discriminate Hr | exact Hin |].
  exists ("clip_" ++ strftime utc_offset (now_stamp tk) ++ ".wav")%string.
  split; [exact Hpath|]. split; [apply clip_name_ends_in_wav|].
  intros entry transcribe parse_with_llm log_entry seen listing Hl Hnone.
  rewrite Hpath. unfold clip_path.
  apply poll_complete; [exact Hnone | exact Hl | apply clip_name_ends_in_wav].
Qed.

Lemma clips_reach_the_watcher_witness :
  In late_clip (clips (late_loop initial late_events)) /\
  exists fname,
    path late_clip = os_path_join capture_and_parse.AUDIO_DIR fname /\
    capture_and_parse.endswith fname ".wav" = true.
Proof.
  assert (Hin : In late_clip
                   (clips (loop is_speech_chunk_rms 1500 16000
                                capture_and_parse.AUDIO_DIR 0 initial late_events)))
    by (vm_compute; left; reflexivity).
  split; [exact Hin|].
  destruct (clips_reach_the_watcher is_speech_chunk_rms 1500 16000 0
              late_events late_clip Hin) as (_ & fname & Hp & Hw & _).
  exists fname. split; [exact Hp | exact Hw].
Defined.

(** ** The order of a poll *)







(** * The JSON block of a model response *)

Lemma occurs_close_app (body post : string) :
  llm_parser.occurs "}" (body ++ String "}" post) = true.
Proof.
  induction body as [|e body IH]; cbn [String.append llm_parser.occurs].
  - reflexivity.
  - rewrite IH. apply orb_true_r.
Qed.

Lemma from_first_open_spec (s t : string) :
  llm_parser.from_first_open s = Some t <->
  exists pre rest,
    s = (pre ++ String "{" rest)%string /\ t = String "{" rest /\
    llm_parser.occurs "{" pre = false.
Proof.
  revert t. induction s as [|c s IH]; intros t; cbn [llm_parser.from_first_open].
  - split; [discriminate|]. intros (pre & rest & H & _). destruct pre; discriminate.
  - destruct (Ascii.eqb_spec c "{") as [->|Hne].
    + split.
      * intros [= <-]. exists ""%string, s. auto.
      * intros (pre & rest & H & -> & Hocc). destruct pre as [|d pre].
        -- cbn in H. rewrite H. reflexivity.
        -- cbn in H. injection H as <- _. cbn in Hocc. discriminate Hocc.
    + rewrite IH. split.
      * intros (pre & rest & -> & -> & Hocc). exists (String c pre), rest.
        split; [reflexivity|]. split; [reflexivity|].
        cbn. destruct (Ascii.eqb_spec c "{"); [contradiction | exact Hocc].
      * intros (pre & rest & H & -> & Hocc). destruct pre as [|d pre].
        -- cbn in H. injection H as -> _. contradiction.
        -- cbn in H. injection H as <- ->. cbn in Hocc.
           apply orb_false_iff in Hocc. exists pre, rest. tauto.
Qed.

Lemma upto_last_close_none (s : string) :
  llm_parser.upto_last_close s = None <-> llm_parser.occurs "}" s = false.
Proof.
  induction s as [|c s IH]; cbn [llm_parser.upto_last_close llm_parser.occurs].
  - tauto.
  - destruct (llm_parser.upto_last_close s) as [p|].
    + split; [discriminate|]. intros H. apply orb_false_iff in H.
      destruct H as [_ H]. apply IH in H. discriminate.
    + rewrite orb_false_iff. destruct (Ascii.eqb c "}").
      * split; [discriminate | intros [H _]; discriminate].
      * split; [intros _; split; [reflexivity | apply IH; reflexivity] | reflexivity].
Qed.

Lemma upto_last_close_sound (s p : string) :
  llm_parser.upto_last_close s = Some p ->
  exists body post,
    s = (body ++ String "}" post)%string /\ p = (body ++ "}")%string /\
    llm_parser.occurs "}" post = false.
Proof.
  revert p. induction s as [|c s IH]; intros p H; [discriminate H|].
  cbn [llm_parser.upto_last_close] in H.
  destruct (llm_parser.upto_last_close s) as [q|] eqn:E.
  - injection H as <-.
    destruct (IH q eq_refl) as (body & post & -> & -> & Hocc).
    exists (String c body), post. auto.
  - destruct (Ascii.eqb_spec c "}") as [->|Hne]; [|discriminate H].
    injection H as <-. exists ""%string, s.
    split; [reflexivity|]. split; [reflexivity|].
    apply upto_last_close_none, E.
Qed.

Lemma last_close_unique (body body' post post' : string) :
  (body ++ String "}" post)%string = (body' ++ String "}" post')%string ->
  llm_parser.occurs "}" post = false ->
  llm_parser.occurs "}" post' = false ->
  body = body'.
Proof.
  revert body'. induction body as [|c body IH]; intros body' H Hp Hp'.
  - destruct body' as [|d body']; [reflexivity|].
    cbn in H. injection H as _ ->.
    pose proof (occurs_close_app body' post'). congruence.
  - destruct body' as [|d body'].
    + cbn in H. injection H as _ <-.
      pose proof (occurs_close_app body post). congruence.
    + cbn in H. injection H as -> H. f_equal. apply (IH body' H Hp Hp').
Qed.

Lemma upto_last_close_complete (body post : string) :
  llm_parser.occurs "}" post = false ->
  llm_parser.upto_last_close (body ++ String "}" post) = Some (body ++ "}")%string.
Proof.
  intros Hocc.
  destruct (llm_parser.upto_last_close (body ++ String "}" post)) as [p|] eqn:E.
  - destruct (upto_last_close_sound _ _ E) as (body0 & post0 & H & -> & Hocc0).
    rewrite (last_close_unique body body0 post post0 H Hocc Hocc0). reflexivity.
  - apply upto_last_close_none in E.
    pose proof (occurs_close_app body post). congruence.
Qed.

(** X21: the block [extract_json_block] passes to [json.loads] runs from
    the first opening brace of the response to its last closing brace:
    whatever surrounds it is dropped, and everything between, further
    braces included, is kept. When the response has no opening brace
    followed by a closing one, ValueError "No JSON block found in response"
    is raised and [json.loads] is not consulted. *)
Theorem json_block_first_open_to_last_close (value : Type)
    (json_loads : string -> result value) (text : string) :
  (forall block,
      llm_parser.search text = Some block <->
      exists pre body post,
        text = (pre ++ "{" ++ body ++ "}" ++ post)%string /\
        block = ("{" ++ body ++ "}")%string /\
        llm_parser.occurs "{" pre = false /\ llm_parser.occurs "}" post = false) /\
  (forall pre body post,
      text = (pre ++ "{" ++ body ++ "}" ++ post)%string ->
      llm_parser.occurs "{" pre = false -> llm_parser.occurs "}" post = false ->
      llm_parser.extract_json_block value json_loads text
      = json_loads ("{" ++ body ++ "}")%string) /\
  ((forall pre body post, text <> (pre ++ "{" ++ body ++ "}" ++ post)%string) ->
   llm_parser.extract_json_block value json_loads text
   = Raise (ValueError "No JSON block found in response")).
Proof.
  assert (Hfound : forall pre body post,
             text = (pre ++ "{" ++ body ++ "}" ++ post)%string ->
             llm_parser.occurs "{" pre = false ->
             llm_parser.occurs "}" post = false ->
             llm_parser.search text = Some ("{" ++ body ++ "}")%string).
  { intros pre body post -> Hpre Hpost. unfold llm_parser.search.
    assert (E : llm_parser.from_first_open (pre ++ "{" ++ body ++ "}" ++ post)
                = Some (String "{" (body ++ String "}" post))).
    { apply from_first_open_spec. exists pre, (body ++ String "}" post)%string.
      auto. }
    rewrite E.
    apply (upto_last_close_complete (String "{" body) post Hpost). }
  assert (Hshape : forall block,
             llm_parser.search text = Some block ->
             exists pre body post,
               text = (pre ++ "{" ++ body ++ "}" ++ post)%string /\
               block = ("{" ++ body ++ "}")%string /\
               llm_parser.occurs "{" pre = false /\
               llm_parser.occurs "}" post = false).
  { intros block H. unfold llm_parser.search in H.
    destruct (llm_parser.from_first_open text) as [s|] eqn:E; [|discriminate H].
    apply from_first_open_spec in E. destruct E as (pre & rest & -> & -> & Hpre).
    apply upto_last_close_sound in H.
    destruct H as (body0 & post & H & -> & Hpost).
    destruct body0 as [|d body]; cbn in H; [discriminate H|].
    injection H as <- ->.
    exists pre, body, post. auto. }
  split; [|split].
  - intros block. split; [apply Hshape|].
    intros (pre & body & post & Ht & -> & Hpre & Hpost).
    apply (Hfound pre body post Ht Hpre Hpost).
  - intros pre body post Ht Hpre Hpost. unfold llm_parser.extract_json_block.
    rewrite (Hfound pre body post Ht Hpre Hpost). reflexivity.
  - intros Hnone. unfold llm_parser.extract_json_block.
    destruct (llm_parser.search text) as [block|] eqn:E; [|reflexivity].
    exfalso. destruct (Hshape block eq_refl) as (pre & body & post & Ht & _).
    apply (Hnone pre body post Ht).
Qed.
